(** * Wake-on-LAN console application: a shallow embedding of [main.cpp]

    The development follows the source top to bottom:

    - wide characters, the build (whether [NDEBUG] is defined, and the
      C run-time library) and the library routines the program calls
      ([iswdigit], [wcstol], [wcstoul], [swscanf_s]);
    - the [WolErrorCode] enumeration and [WolErrorCodeToString];
    - [WolConfig]: the validators and [LoadFromIni];
    - [Socket], [WsaGuard] and [WakeOnLanSender] over an explicit network
      state that records every WinSock call;
    - [main].

    Conventions.  A [wchar_t] is a 16-bit code unit, kept as a [Z]; a
    [std::wstring] / [std::wstring_view] is a list of code units; a
    [std::size_t] index is a [nat] (all lengths are bounded by the 256-unit
    INI buffer, so no wrap-around can occur); [std::byte], [unsigned int],
    [long] and [unsigned long] are [Z] with their reduction written out.
    An [assert] stands where the source has it: unless [NDEBUG] is
    defined, a false assertion calls [abort], and the functions of
    [WakeOnLanSender] and [main] end with [Aborted] there, no destructor
    being run.  Beside a function [f] with assertions, [f_asserts] tells
    whether the asserted conditions hold during a call of [f].  Two
    assertions are kept as such a companion only: that of [Socket::Set],
    which its one caller [InitializeSocket] checks before the call, and
    the [assert(false)] that ends [WolErrorCodeToString].
    Diagnostics written with [fwprintf] carry no state and are left out. *)

From Stdlib Require Import String Ascii.
From Stdlib Require Import ZArith List Lia Bool DecimalString.
From stdpp Require Import base list.
Import ListNotations.
Local Open Scope Z_scope.

(* ================================================================== *)
(** * Wide characters and strings *)
(* ================================================================== *)

Module WChar.

Definition wchar_t : Type := Z.
Definition wstring : Type := list wchar_t.

(** A narrow literal as the list of its bytes. *)
Definition bytes_of_string (s : string) : list Z :=
  map (fun c => Z.of_N (N_of_ascii c)) (list_ascii_of_string s).

(** The compiler turns the UTF-8 text of a wide literal [L"..."] into
    UTF-16 code units.  Every literal of the program lies in the basic
    multilingual plane, so sequences of one, two and three bytes are
    decoded; a truncated sequence ends the literal. *)
Fixpoint utf16_of_utf8 (bs : list Z) : wstring :=
  match bs with
  | [] => []
  | b0 :: r0 =>
      if b0 <? 0x80 then b0 :: utf16_of_utf8 r0
      else if b0 <? 0xE0 then
        match r0 with
        | b1 :: r1 =>
            Z.lor (Z.shiftl (Z.land b0 0x1F) 6) (Z.land b1 0x3F)
              :: utf16_of_utf8 r1
        | [] => []
        end
      else
        match r0 with
        | b1 :: b2 :: r2 =>
            Z.lor (Z.shiftl (Z.land b0 0x0F) 12)
                  (Z.lor (Z.shiftl (Z.land b1 0x3F) 6) (Z.land b2 0x3F))
              :: utf16_of_utf8 r2
        | _ => []
        end
  end.

(** [L "text"] is the wide literal [L"text"]. *)
Definition L (s : string) : wstring := utf16_of_utf8 (bytes_of_string s).

(** The escape [\n]. *)
Definition LF : wchar_t := 10.

(** Reading a null-terminated buffer ([buffer.data()] passed where a
    [const wchar_t*] is expected): the units before the first zero. *)
Fixpoint c_str (buffer : list wchar_t) : wstring :=
  match buffer with
  | [] => []
  | c :: r => if c =? 0 then [] else c :: c_str r
  end.

Definition wcslen (buffer : list wchar_t) : nat := length (c_str buffer).

(** [s[i]] / [*p]: past the end of the units sits the terminator. *)
Definition at_ (s : wstring) (i : nat) : wchar_t := nth i s 0.

(** [std::wstring_view::substr(pos, n)]; throws [std::out_of_range]
    ([None]) when [pos > size()]. *)
Definition substr (s : wstring) (pos n : nat) : option wstring :=
  if (pos <=? length s)%nat then Some (firstn n (skipn pos s)) else None.

(** Longest prefix satisfying [p], and what follows it. *)
Fixpoint span (p : wchar_t -> bool) (s : wstring) : wstring * wstring :=
  match s with
  | [] => ([], [])
  | c :: r => if p c then let (a, b) := span p r in (c :: a, b) else ([], s)
  end.

(** ** The build

    Two things are decided when the program is built and not by its
    source: whether [NDEBUG] is defined where [<cassert>] is included,
    and the C run-time library that is linked.  Every library
    classifies and converts the units of ASCII alike.  Above ASCII the
    answer is the library's: the "C" locale of ISO C knows no digit and
    no white space there, the Universal C Runtime of Windows asks
    [GetStringTypeW] for the class of a unit and converts the decimal
    digits of many scripts.  So the build gives the two classes above
    ASCII, and the units above ASCII that each start a block of ten
    decimal digits [0] to [9] which the conversion functions take. *)
Class BuildSetup : Type := {
  NDEBUG : bool;
  wide_iswdigit : wchar_t -> bool;
  wide_iswspace : wchar_t -> bool;
  wide_digit_zeros : list wchar_t
}.

Section Library.

Context {build : BuildSetup}.

(** ** Character classes *)

Definition iswdigit (ch : wchar_t) : bool :=
  if ch <? 128 then (48 <=? ch) && (ch <=? 57) else wide_iswdigit ch.

Definition iswspace (ch : wchar_t) : bool :=
  if ch <? 128 then ((9 <=? ch) && (ch <=? 13)) || (ch =? 32)
  else wide_iswspace ch.

(** ** Digits as the conversion functions read them

    [wcstol], [wcstoul] and the [%x] of [swscanf_s] give a unit its
    value as a digit and take it when the value is below the base: a
    decimal digit or a letter of ASCII, or a decimal digit of a block
    the library knows. *)
Definition wide_zero (ch : wchar_t) : option wchar_t :=
  find (fun zero => (zero <=? ch) && (ch <? zero + 10)) wide_digit_zeros.

Definition digit_of (ch : wchar_t) : option Z :=
  if ch <? 128 then
    if (48 <=? ch) && (ch <=? 57) then Some (ch - 48)
    else if (65 <=? ch) && (ch <=? 90) then Some (ch - 55)
    else if (97 <=? ch) && (ch <=? 122) then Some (ch - 87)
    else None
  else option_map (fun zero => ch - zero) (wide_zero ch).

Definition is_digit (base : Z) (ch : wchar_t) : bool :=
  match digit_of ch with
  | Some v => v <? base
  | None => false
  end.

Definition digit_value (ch : wchar_t) : Z :=
  match digit_of ch with
  | Some v => v
  | None => 0
  end.

Definition accumulate (base : Z) (digits : wstring) : Z :=
  fold_left (fun acc ch => acc * base + digit_value ch) digits 0.

End Library.

(** ** [errno] values used by the program *)
Inductive errno_t := ENONE | EINVAL | ERANGE.

Definition LONG_MAX : Z := 2147483647.
Definition LONG_MIN : Z := -2147483648.
Definition ULONG_MAX : Z := 4294967295.
Definition UINT_MAX : Z := 4294967295.
Definition UINT16_MAX : Z := 65535.

(** Optional sign in front of a number: [(negative, rest)]. *)
Definition read_sign (s : wstring) : bool * wstring :=
  match s with
  | c :: r => if c =? 45 then (true, r) else if c =? 43 then (false, r)
              else (false, s)
  | [] => (false, s)
  end.

(** The result of a [wcsto*] call: the value, the offset of [*endPtr]
    from the start of the string, and [errno] afterwards (set to
    [ENONE] by the caller before the call). *)
Record strto_result := {
  strto_value : Z;
  strto_end : nat;
  strto_errno : errno_t
}.

Section Conversions.

Context {build : BuildSetup}.

(** [wcstol(s, &endPtr, 10)] with a 32-bit [long]: white space, an
    optional sign, decimal digits; no digits leaves [endPtr] at the
    start; a value out of range is clamped and sets [ERANGE]. *)
Definition wcstol (s : wstring) : strto_result :=
  let (spaces, s1) := span iswspace s in
  let (neg, s2) := read_sign s1 in
  let (digits, _) := span (is_digit 10) s2 in
  match digits with
  | [] => {| strto_value := 0; strto_end := 0; strto_errno := ENONE |}
  | _ =>
      let endp := (length s - length s2 + length digits)%nat in
      let v := if neg then - accumulate 10 digits else accumulate 10 digits in
      if LONG_MAX <? v then
        {| strto_value := LONG_MAX; strto_end := endp; strto_errno := ERANGE |}
      else if v <? LONG_MIN then
        {| strto_value := LONG_MIN; strto_end := endp; strto_errno := ERANGE |}
      else {| strto_value := v; strto_end := endp; strto_errno := ENONE |}
  end.

(** [wcstoul(s, &endPtr, 10)] with a 32-bit [unsigned long]: as
    [wcstol], but a magnitude above [ULONG_MAX] gives [ULONG_MAX] and
    [ERANGE], and a minus sign negates the value in the unsigned type. *)
Definition wcstoul (s : wstring) : strto_result :=
  let (spaces, s1) := span iswspace s in
  let (neg, s2) := read_sign s1 in
  let (digits, _) := span (is_digit 10) s2 in
  match digits with
  | [] => {| strto_value := 0; strto_end := 0; strto_errno := ENONE |}
  | _ =>
      let endp := (length s - length s2 + length digits)%nat in
      let v := accumulate 10 digits in
      if ULONG_MAX <? v then
        {| strto_value := ULONG_MAX; strto_end := endp; strto_errno := ERANGE |}
      else
        {| strto_value := if neg then (- v) mod (ULONG_MAX + 1) else v;
           strto_end := endp; strto_errno := ENONE |}
  end.

(** ** [swscanf_s] for formats made of [%x] and ordinary characters *)

Inductive directive :=
| ConvX                 (* %x *)
| Ordinary (c : wchar_t).

(** The subject sequence of [%x] once white space has been skipped:
    an optional sign, an optional [0x] / [0X] that is followed by a
    hexadecimal digit, then hexadecimal digits.  [None] is a matching
    failure.  The value is stored in an [unsigned int]. *)
Definition scan_hex (s : wstring) : option (Z * wstring) :=
  let (neg, s1) := read_sign s in
  let s2 :=
    match s1 with
    | z :: x :: h :: r =>
        if (z =? 48) && ((x =? 120) || (x =? 88)) && is_digit 16 h
        then h :: r else s1
    | _ => s1
    end in
  let (digits, rest) := span (is_digit 16) s2 in
  match digits with
  | [] => None
  | _ =>
      let v := accumulate 16 digits in
      Some ((if neg then - v else v) mod (UINT_MAX + 1), rest)
  end.

Definition EOF : Z := -1.

(** Result when the input ends before a directive is satisfied. *)
Definition input_failure (assigned : list Z) : Z * list Z :=
  match assigned with
  | [] => (EOF, assigned)
  | _ => (Z.of_nat (length assigned), assigned)
  end.

(** Runs the directives over the input; returns the return value of
    [swscanf_s] and the values assigned so far, in argument order. *)
Fixpoint scan (fmt : list directive) (input : wstring) (assigned : list Z)
  : Z * list Z :=
  match fmt with
  | [] => (Z.of_nat (length assigned), assigned)
  | ConvX :: fmt' =>
      match snd (span iswspace input) with
      | [] => input_failure assigned
      | input1 =>
          match scan_hex input1 with
          | Some (v, rest) => scan fmt' rest (assigned ++ [v])
          | None => (Z.of_nat (length assigned), assigned)
          end
      end
  | Ordinary c :: fmt' =>
      match input with
      | [] => input_failure assigned
      | d :: rest =>
          if d =? c then scan fmt' rest assigned
          else (Z.of_nat (length assigned), assigned)
      end
  end.

Definition swscanf_s (input : wstring) (fmt : list directive) : Z * list Z :=
  scan fmt input [].

End Conversions.

(** ** [<cassert>]

    [assert(expression)]: whether the execution goes on after it.
    With [NDEBUG] the macro expands to nothing; without it a false
    expression calls [abort]. *)
Definition assert {build : BuildSetup} (expression : bool) : bool :=
  NDEBUG || expression.

(** How a call of a function with assertions ends. *)
Inductive Completion (A : Type) : Type :=
| Returned (a : A)
| Aborted.

Arguments Returned {A} a.
Arguments Aborted {A}.

End WChar.
Import WChar.

(* ================================================================== *)
(** * [WolErrorCode] *)
(* ================================================================== *)

Definition CONFIG_FILE_NAME : wstring := L "config.ini".

Inductive WolErrorCode : Type :=
| Success
| FailedToGetExecutionPath
| InvalidExecutionPath
| ConfigFileNotFound
| CannotAccessConfigFile
| FailedToReadMacAddress
| InvalidMacAddress
| FailedToReadBroadcastIp
| InvalidBroadcastIp
| FailedToReadPort
| InvalidPort
| WinsockInitializationFailed
| SocketCreationFailed
| BroadcastSetupFailed
| PacketSendFailed
| UnexpectedException.

#[global] Instance WolErrorCode_eq_dec : EqDecision WolErrorCode.
Proof. solve_decision. Defined.

(** The [std::uint8_t] behind each enumerator ([Success = 0U], then in
    declaration order). *)
Definition to_underlying (e : WolErrorCode) : Z :=
  match e with
  | Success => 0
  | FailedToGetExecutionPath => 1
  | InvalidExecutionPath => 2
  | ConfigFileNotFound => 3
  | CannotAccessConfigFile => 4
  | FailedToReadMacAddress => 5
  | InvalidMacAddress => 6
  | FailedToReadBroadcastIp => 7
  | InvalidBroadcastIp => 8
  | FailedToReadPort => 9
  | InvalidPort => 10
  | WinsockInitializationFailed => 11
  | SocketCreationFailed => 12
  | BroadcastSetupFailed => 13
  | PacketSendFailed => 14
  | UnexpectedException => 15
  end.

(** Every enumerator that can be held, listed for exhaustive checks. *)
Definition all_WolErrorCode : list WolErrorCode :=
  [ Success; FailedToGetExecutionPath; InvalidExecutionPath;
    ConfigFileNotFound; CannotAccessConfigFile; FailedToReadMacAddress;
    InvalidMacAddress; FailedToReadBroadcastIp; InvalidBroadcastIp;
    FailedToReadPort; InvalidPort; WinsockInitializationFailed;
    SocketCreationFailed; BroadcastSetupFailed; PacketSendFailed;
    UnexpectedException ].

(** A [switch] whose every case returns: the first label equal to the
    scrutinee selects the result; [None] is falling out of the switch. *)
Fixpoint switch {A : Type} (v : Z) (cases : list (WolErrorCode * A)) : option A :=
  match cases with
  | [] => None
  | (label, a) :: rest =>
      if v =? to_underlying label then Some a else switch v rest
  end.

Definition WolErrorCodeToString_cases : list (WolErrorCode * wstring) :=
  [ (Success, L "성공" ++ [LF]);

    (FailedToGetExecutionPath, L "실행 파일 경로를 얻을 수 없음" ++ [LF]);
    (InvalidExecutionPath, L "유효하지 않은 실행 파일 경로" ++ [LF]);

    (ConfigFileNotFound, CONFIG_FILE_NAME ++ L "파일을 찾을 수 없음" ++ [LF]);
    (CannotAccessConfigFile, CONFIG_FILE_NAME ++ L "파일에 접근 권한이 없음" ++ [LF]);
    (FailedToReadMacAddress, L "Config 파일에서 Mac 주소를 읽을 수 없음" ++ [LF]);
    (InvalidMacAddress, L "잘못된 MAC 주소" ++ [LF]);
    (FailedToReadBroadcastIp, L "Config 파일에서 브로드캐스트 주소를 읽을 수 없음" ++ [LF]);
    (InvalidBroadcastIp, L "잘못된 브로드캐스트 주소" ++ [LF]);
    (FailedToReadPort, L "Config 파일에서 포트 읽을 수 없음" ++ [LF]);
    (InvalidPort, L "잘못된 포트 번호" ++ [LF]);

    (WinsockInitializationFailed, L "WinSock 초기화 실패" ++ [LF]);
    (SocketCreationFailed, L "소켓 생성 실패" ++ [LF]);
    (BroadcastSetupFailed, L "브로드캐스트 설정 실패" ++ [LF]);
    (PacketSendFailed, L "패킷 전송 실패" ++ [LF]);

    (UnexpectedException, L "예기치 않은 오류 발생" ++ [LF]) ].

(** [WolErrorCodeToString]: the string of the selected case, or, after
    the switch, [assert(false); return {L""}]. *)
Definition WolErrorCodeToString (result : WolErrorCode) : wstring :=
  match switch (to_underlying result) WolErrorCodeToString_cases with
  | Some s => s
  | None => L ""
  end.

(** Whether the call returns without reaching [assert(false)]. *)
Definition WolErrorCodeToString_asserts (result : WolErrorCode) : bool :=
  match switch (to_underlying result) WolErrorCodeToString_cases with
  | Some _ => true
  | None => false
  end.

(* ================================================================== *)
(** * [WolConfig] *)
(* ================================================================== *)

Module WolConfig.

Definition MAX_BUFFER_SIZE : nat := 256.
Definition MAX_PATH_LENGTH : nat := 260.
Definition MAC_ADDRESS_LENGTH : nat := 18.
Definition IP_ADDRESS_LENGTH : nat := 16.
Definition MAX_VALID_PORT : Z := UINT16_MAX.
Definition DEFAULT_PORT : Z := 9.

(** The three data members. *)
Record t : Type := Build {
  mMacAddress : wstring;
  mBroadcastIp : wstring;
  mPort : Z
}.

(** [WolConfig() = default]: the member initialisers [{}], [{}], [{0}]. *)
Definition default : t :=
  {| mMacAddress := []; mBroadcastIp := []; mPort := 0 |}.

Definition GetMacAddress (this : t) : wstring := mMacAddress this.
Definition GetBroadcastIp (this : t) : wstring := mBroadcastIp this.
Definition GetPort (this : t) : Z := mPort this.

(** ** What the operating system answers

    The executable path, the [std::filesystem] operations and the
    contents of the profile (INI) files are outside the program; they
    are the fields of an environment. *)
Record Environment : Type := {
  (** the path [GetModuleFileNameW] reports for the running module *)
  module_file_name : wstring;
  (** [path::parent_path], [None] when constructing the path throws *)
  fs_parent_path : wstring -> option wstring;
  (** [operator/] followed by [wstring()] *)
  fs_append : wstring -> wstring -> wstring;
  fs_exists : wstring -> bool;
  (** value stored in a file under a section and a key, if any *)
  profile : wstring -> wstring -> wstring -> option wstring
}.

(** [GetModuleFileNameW(nullptr, buffer, size)]: the number of units
    copied, which is [size] when the path had to be truncated. *)
Definition GetModuleFileNameW (env : Environment) (size : nat) : nat * wstring :=
  let name := c_str (module_file_name env) in
  if (length name <? size)%nat then (length name, name)
  else (size, firstn (size - 1) name).

Definition GetConfigFilePath (env : Environment) : WolErrorCode * wstring :=
  let configFilePath : wstring := [] in
  let (length, buffer) := GetModuleFileNameW env MAX_PATH_LENGTH in
  if (length =? 0)%nat || (MAX_PATH_LENGTH <=? length)%nat then
    (FailedToGetExecutionPath, configFilePath)
  else
    match fs_parent_path env (c_str buffer) with
    | None => (UnexpectedException, configFilePath)        (* catch (...) *)
    | Some exeDir =>
        match exeDir with
        | [] => (InvalidExecutionPath, configFilePath)
        | _ => (Success, fs_append env exeDir CONFIG_FILE_NAME)
        end
    end.

(** [GetPrivateProfileStringW(section, key, default, buffer, nSize,
    fileName)]: the stored value, or the default when the key is
    absent, copied as a null-terminated string that fits the buffer;
    returns the number of units copied and the buffer. *)
Definition GetPrivateProfileStringW (env : Environment)
    (section key default : wstring) (nSize : nat) (fileName : wstring)
  : nat * list wchar_t :=
  let value :=
    match profile env fileName section key with
    | Some v => v
    | None => default
    end in
  let copied := firstn (nSize - 1) (c_str value) in
  (length copied, copied).

(** ** [IsValidMacAddress] *)

Definition separator : wchar_t := 45.                     (* L'-' *)
Definition MAC_ADDRESS_SEPARATOR_INDICES : list nat :=
  [2; 5; 8; 11; 14]%nat.

(** The body of the [for] loop, [n] iterations from index [i];
    [macAddress.at(i)] is always in range there. *)
Fixpoint IsValidMacAddress_loop (macAddress : wstring) (n i : nat)
  : WolErrorCode :=
  match n with
  | O => Success
  | S n' =>
      let ch := at_ macAddress i in
      if existsb (Nat.eqb i) MAC_ADDRESS_SEPARATOR_INDICES then
        if negb (ch =? separator) then InvalidMacAddress
        else IsValidMacAddress_loop macAddress n' (S i)
      else
        if negb (((48 <=? ch) && (ch <=? 57))
                 || ((65 <=? ch) && (ch <=? 70))
                 || ((97 <=? ch) && (ch <=? 102)))
        then InvalidMacAddress
        else IsValidMacAddress_loop macAddress n' (S i)
  end.

Definition IsValidMacAddress (macAddress : wstring) : WolErrorCode :=
  let length := length macAddress in
  if (length =? 0)%nat || (MAC_ADDRESS_LENGTH <? length)%nat then
    InvalidMacAddress
  else IsValidMacAddress_loop macAddress length 0.

Section Validation.

Context {build : BuildSetup}.

(** ** [IsValidateIpOctet]

    [wcstol] runs on a null-terminated copy of the octet; [endPtr] is
    kept as an offset into that copy, so [endPtr == octet.data()] is
    offset zero and [*endPtr] is the unit of the copy at the offset. *)
Definition IsValidateIpOctet (octet : wstring) : WolErrorCode :=
  if (length octet =? 0)%nat || (3 <? length octet)%nat then
    InvalidBroadcastIp
  else if negb (forallb iswdigit octet) then InvalidBroadcastIp
  else if (1 <? length octet)%nat && (at_ octet 0 =? 48) then
    InvalidBroadcastIp
  else
    let copy := c_str octet in
    let r := wcstol copy in
    match strto_errno r with
    | EINVAL | ERANGE => InvalidBroadcastIp
    | ENONE =>
        if (strto_end r =? 0)%nat || negb (at_ copy (strto_end r) =? 0) then
          InvalidBroadcastIp
        else if (strto_value r <? 0) || (255 <? strto_value r) then
          InvalidBroadcastIp
        else Success
    end.

(** ** [IsValidBroadcastIpAddress]

    [n] iterations of the [for] loop from index [i] with the locals
    [start] and [dotCount]; when the loop is over, the test on
    [dotCount] that follows it. *)
Fixpoint IsValidBroadcastIpAddress_loop (broadcastIpAddress : wstring)
    (n i start dotCount : nat) : WolErrorCode :=
  match n with
  | O => if negb (dotCount =? 3)%nat then InvalidBroadcastIp else Success
  | S n' =>
      if (i =? length broadcastIpAddress)%nat
         || (at_ broadcastIpAddress i =? 46)
      then
        match substr broadcastIpAddress start (i - start) with
        | None => UnexpectedException          (* catch (std::exception) *)
        | Some octet =>
            let result := IsValidateIpOctet octet in
            if decide (result <> Success) then result
            else
              let start := (i + 1)%nat in
              let dotCount :=
                if (i <? length broadcastIpAddress)%nat
                then (dotCount + 1)%nat else dotCount in
              if (3 <? dotCount)%nat then InvalidBroadcastIp
              else IsValidBroadcastIpAddress_loop broadcastIpAddress
                     n' (i + 1)%nat start dotCount
        end
      else IsValidBroadcastIpAddress_loop broadcastIpAddress
             n' (i + 1)%nat start dotCount
  end.

Definition IsValidBroadcastIpAddress (broadcastIpAddress : wstring)
  : WolErrorCode :=
  IsValidBroadcastIpAddress_loop broadcastIpAddress
    (length broadcastIpAddress + 1) 0 0 0.

Definition IsConfigurationValid (this : t) : WolErrorCode :=
  let result := IsValidMacAddress (mMacAddress this) in
  if decide (result <> Success) then result
  else
    let result := IsValidBroadcastIpAddress (mBroadcastIp this) in
    if decide (result <> Success) then result
    else Success.

(** ** [LoadFromIni] *)

(** The port part of [LoadFromIni], from the [wcslen] test to the
    range test: the port to store, or the error returned. *)
Inductive PortResult : Type :=
| PortValue (port : Z)
| PortError (e : WolErrorCode).

Definition LoadFromIni_port (buffer : list wchar_t) : PortResult :=
  if (wcslen buffer =? 0)%nat then PortError InvalidPort
  else
    let r := wcstoul (c_str buffer) in
    match strto_errno r with
    | ERANGE => PortError InvalidPort
    | _ =>
        if (strto_end r =? 0)%nat
           || negb (at_ (c_str buffer) (strto_end r) =? 0)
        then PortError InvalidPort
        else
          let port := strto_value r in
          if (port =? 0) || (UINT16_MAX <? port) then PortError InvalidPort
          else PortValue port
    end.

Definition section : wstring := L "Target".

(** [LoadFromIni] on the object [this]: the code returned and the
    object afterwards. *)
Definition LoadFromIni (env : Environment) (this : t) : WolErrorCode * t :=
  let (errorCode, configFileAbsolutePath) := GetConfigFilePath env in
  if decide (errorCode <> Success) then (errorCode, this)
  else if negb (fs_exists env configFileAbsolutePath) then
    (ConfigFileNotFound, this)
  else
    let (macResult, buffer) :=
      GetPrivateProfileStringW env section (L "MacAddress") (L "")
        MAX_BUFFER_SIZE configFileAbsolutePath in
    if (macResult =? 0)%nat then (FailedToReadMacAddress, this)
    else
      let this := {| mMacAddress := c_str buffer;
                     mBroadcastIp := mBroadcastIp this;
                     mPort := mPort this |} in
      let (ipResult, buffer) :=
        GetPrivateProfileStringW env section (L "BroadcastIp")
          (L "255.255.255.255") MAX_BUFFER_SIZE configFileAbsolutePath in
      if (ipResult =? 0)%nat then (FailedToReadBroadcastIp, this)
      else
        let this := {| mMacAddress := mMacAddress this;
                       mBroadcastIp := c_str buffer;
                       mPort := mPort this |} in
        let (portResult, buffer) :=
          GetPrivateProfileStringW env section (L "Port") (L "")
            MAX_BUFFER_SIZE configFileAbsolutePath in
        if (portResult =? 0)%nat then (FailedToReadPort, this)
        else
          match LoadFromIni_port buffer with
          | PortError e => (e, this)
          | PortValue port =>
              let this := {| mMacAddress := mMacAddress this;
                             mBroadcastIp := mBroadcastIp this;
                             mPort := port mod (UINT16_MAX + 1) |} in
              let isValidConfiguration := IsConfigurationValid this in
              if decide (isValidConfiguration <> Success) then
                (isValidConfiguration, default)
              else (Success, this)
          end.

End Validation.

End WolConfig.

(* ================================================================== *)
(** * WinSock resources and [WakeOnLanSender] *)
(* ================================================================== *)

Module Net.

Definition SOCKET : Type := Z.
Definition INVALID_SOCKET : SOCKET := 18446744073709551615.   (* ~0 *)
Definition SOCKET_ERROR : Z := -1.
Definition AF_INET : Z := 2.

Record sockaddr_in : Type := {
  sin_family : Z;
  sin_port : Z;
  sin_addr : Z
}.

(** [MacAddress] and [MagicPacket] are arrays of bytes; [T x{}] zeroes
    them. *)
Definition MacAddress : Type := list Z.
Definition MagicPacket : Type := list Z.
Definition MacAddress_zero : MacAddress := repeat 0 6.
Definition MagicPacket_zero : MagicPacket := repeat 0 102.

(** The WinSock functions that touch the network subsystem. *)
Inductive Call : Type :=
| call_WSAStartup
| call_WSACleanup
| call_socket
| call_WSAIoctl (s : SOCKET)
| call_setsockopt (s : SOCKET)
| call_sendto (s : SOCKET) (buf : MagicPacket) (len : nat) (to : sockaddr_in)
| call_closesocket (s : SOCKET).

(** What the platform answers to each call. *)
Record Environment : Type := {
  WSAStartup_result : Z;
  socket_result : SOCKET;
  setsockopt_result : Z;
  (** the multi-byte text of a wide string; empty when it fails *)
  WideCharToMultiByte : wstring -> list Z;
  (** [inet_pton(AF_INET, ...)]: the address when it returns 1 *)
  inet_pton : list Z -> option Z;
  sendto_result : Z
}.

(** The calls made so far and the static [WsaGuard::mRefCount]
    ([unsigned long long]). *)
Record State : Type := {
  calls : list Call;
  mRefCount : Z
}.

Definition initial : State := {| calls := []; mRefCount := 0 |}.

Definition record (c : Call) (st : State) : State :=
  {| calls := calls st ++ [c]; mRefCount := mRefCount st |}.

Definition ULLONG_MODULUS : Z := 18446744073709551616.

(** ** [Socket] *)

Definition Socket_Close (mSocket : SOCKET) (st : State) : SOCKET * State :=
  if mSocket =? INVALID_SOCKET then (mSocket, st)
  else (INVALID_SOCKET, record (call_closesocket mSocket) st).

(** The assertion that opens [Socket::Set], and the statements after
    it. *)
Definition Socket_Set_asserts (socket : SOCKET) : bool :=
  negb (socket =? INVALID_SOCKET).

Definition Socket_Set (mSocket socket : SOCKET) (st : State) : SOCKET * State :=
  let (_, st) := Socket_Close mSocket st in
  (socket, st).

(** [~Socket] *)
Definition Socket_destroy (mSocket : SOCKET) (st : State) : State :=
  snd (Socket_Close mSocket st).

(** ** [WsaGuard] *)

Definition WsaGuard_Initialize (env : Environment) (st : State)
  : WolErrorCode * State :=
  let st := record call_WSAStartup st in
  if negb (WSAStartup_result env =? 0) then (WinsockInitializationFailed, st)
  else
    (Success,
     {| calls := calls st;
        mRefCount := (mRefCount st + 1) mod ULLONG_MODULUS |}).

(** [~WsaGuard] *)
Definition WsaGuard_destroy (st : State) : State :=
  let st := {| calls := calls st;
               mRefCount := (mRefCount st - 1) mod ULLONG_MODULUS |} in
  if mRefCount st =? 0 then record call_WSACleanup st else st.

(** ** [WakeOnLanSender] *)

(** [L"%x-%x-%x-%x-%x-%x"] *)
Definition ParseMacAddress_format : list directive :=
  [ ConvX; Ordinary 45; ConvX; Ordinary 45; ConvX; Ordinary 45;
    ConvX; Ordinary 45; ConvX; Ordinary 45; ConvX ].

(** The [k]-th value assigned by [swscanf_s] goes through the [k]-th
    pointer argument, [&tempValues[k]]. *)
Fixpoint store_arguments (k : nat) (assigned : list Z) (tempValues : list Z)
  : list Z :=
  match assigned with
  | [] => tempValues
  | v :: rest => store_arguments (S k) rest (<[k := v]> tempValues)
  end.

Section Sender.

Context {build : BuildSetup}.

(** [scanResult] and [tempValues] after the call of [swscanf_s]. *)
Definition ParseMacAddress_scan (macAddressString : wstring) : Z * list Z :=
  let tempValues := repeat 0 6 in
  let tempMacString := macAddressString in
  let (scanResult, assigned) :=
    swscanf_s (c_str tempMacString) ParseMacAddress_format in
  (scanResult, store_arguments 0 assigned tempValues).

(** The two assertions of [ParseMacAddress]. *)
Definition ParseMacAddress_asserts (macAddressString : wstring) : bool :=
  negb (length macAddressString =? 0)%nat
  && (fst (ParseMacAddress_scan macAddressString) =? 6).

(** [static_cast<std::byte>] of an [unsigned int]. *)
Definition to_byte (v : Z) : Z := v mod 256.

Definition ParseMacAddress (macAddressString : wstring)
    (macBytes : MacAddress) : Completion MacAddress :=
  if negb (assert (negb (length macAddressString =? 0)%nat)) then Aborted
  else
    let (scanResult, tempValues) := ParseMacAddress_scan macAddressString in
    if negb (assert (scanResult =? 6)) then Aborted
    else
      Returned
        (fold_left
           (fun macBytes i => <[i := to_byte (nth i tempValues 0)]> macBytes)
           (seq 0 (length macBytes)) macBytes).

Definition CreateMagicPacket (macBytes : MacAddress) (packet : MagicPacket)
  : MagicPacket :=
  let magicHeader := 0xFF in
  let headerSize := 6%nat in
  let macRepeatCount := 16%nat in
  let packet :=
    fold_left (fun packet i => <[i := magicHeader]> packet)
              (seq 0 headerSize) packet in
  fold_left
    (fun packet repeat =>
       let offset := (headerSize + repeat * length macBytes)%nat in
       fold_left
         (fun packet i => <[(offset + i)%nat := nth i macBytes 0]> packet)
         (seq 0 (length macBytes)) packet)
    (seq 0 macRepeatCount) packet.

(** [InitializeSocket]; [socket.Set(rawSocket)] starts with its
    assertion. *)
Definition InitializeSocket (env : Environment) (socket : SOCKET)
    (st : State) : Completion WolErrorCode * SOCKET * State :=
  let st := record call_socket st in
  let rawSocket := socket_result env in
  if rawSocket =? INVALID_SOCKET then
    (Returned SocketCreationFailed, socket, st)
  else
    let st := record (call_WSAIoctl rawSocket) st in
    if negb (assert (Socket_Set_asserts rawSocket)) then (Aborted, socket, st)
    else
      let (socket, st) := Socket_Set socket rawSocket st in
      (Returned Success, socket, st).

(** [htons] on a little-endian host. *)
Definition htons (hostshort : Z) : Z :=
  Z.lor (Z.shiftl (Z.land hostshort 0xFF) 8)
        (Z.land (Z.shiftr hostshort 8) 0xFF).

(** The two assertions that open [SetupBroadcastAddress]. *)
Definition SetupBroadcastAddress_asserts (broadcastAddress : wstring)
    (port : Z) : bool :=
  negb (length broadcastAddress =? 0)%nat
  && (negb (port =? 0) && (port <? UINT16_MAX)).

Definition SetupBroadcastAddress (env : Environment)
    (broadcastAddress : wstring) (port : Z)
  : Completion (WolErrorCode * sockaddr_in) :=
  if negb (assert (negb (length broadcastAddress =? 0)%nat)) then Aborted
  else if negb (assert (negb (port =? 0) && (port <? UINT16_MAX))) then Aborted
  else
    let destAddr :=
      {| sin_family := AF_INET; sin_port := htons port; sin_addr := 0 |} in
    let sizeNeeded := length (WideCharToMultiByte env broadcastAddress) in
    let ipStr := WideCharToMultiByte env broadcastAddress in
    let conversionResult := length ipStr in
    if (conversionResult =? 0)%nat || negb (conversionResult =? sizeNeeded)%nat
    then Returned (BroadcastSetupFailed, destAddr)
    else
      match inet_pton env (c_str ipStr) with
      | None => Returned (BroadcastSetupFailed, destAddr)
      | Some addr =>
          Returned
            (Success,
             {| sin_family := AF_INET; sin_port := htons port;
                sin_addr := addr |})
      end.

(** The three assertions that open [SendMagicPacket]. *)
Definition SendMagicPacket_asserts (macAddress broadcastAddress : wstring)
    (port : Z) : bool :=
  negb (length macAddress =? 0)%nat
  && negb (length broadcastAddress =? 0)%nat
  && negb (port =? 0).

(** [SendMagicPacket]: how the call ends and the state then.  Every
    [return] runs [~Socket] and then [~WsaGuard] for the objects
    constructed so far; [abort] runs neither. *)
Definition SendMagicPacket (env : Environment)
    (macAddress broadcastAddress : wstring) (port : Z) (st : State)
  : Completion WolErrorCode * State :=
  if negb (assert (negb (length macAddress =? 0)%nat)) then (Aborted, st)
  else if negb (assert (negb (length broadcastAddress =? 0)%nat)) then
    (Aborted, st)
  else if negb (assert (negb (port =? 0))) then (Aborted, st)
  else
    match ParseMacAddress macAddress MacAddress_zero with
    | Aborted => (Aborted, st)
    | Returned macBytes =>
        let packet := CreateMagicPacket macBytes MagicPacket_zero in
        let (wolErrorCode, st) := WsaGuard_Initialize env st in
        if decide (wolErrorCode <> Success) then
          (Returned wolErrorCode, WsaGuard_destroy st)
        else
          let socket := INVALID_SOCKET in
          match InitializeSocket env socket st with
          | (Aborted, socket, st) => (Aborted, st)
          | (Returned wolErrorCode, socket, st) =>
              if decide (wolErrorCode <> Success) then
                (Returned wolErrorCode,
                 WsaGuard_destroy (Socket_destroy socket st))
              else
                let st := record (call_setsockopt socket) st in
                if setsockopt_result env =? SOCKET_ERROR then
                  (Returned BroadcastSetupFailed,
                   WsaGuard_destroy (Socket_destroy socket st))
                else
                  match SetupBroadcastAddress env broadcastAddress port with
                  | Aborted => (Aborted, st)
                  | Returned (wolErrorCode, destAddr) =>
                      if decide (wolErrorCode <> Success) then
                        (Returned wolErrorCode,
                         WsaGuard_destroy (Socket_destroy socket st))
                      else
                        let st :=
                          record
                            (call_sendto socket packet (length packet)
                               destAddr)
                            st in
                        if sendto_result env =? SOCKET_ERROR then
                          (Returned PacketSendFailed,
                           WsaGuard_destroy (Socket_destroy socket st))
                        else
                          (Returned Success,
                           WsaGuard_destroy (Socket_destroy socket st))
                  end
          end
    end.

End Sender.

End Net.

(* ================================================================== *)
(** * [main] *)
(* ================================================================== *)

(** How the process ends: [main] returns a code, a false assertion
    has called [abort], or the invalid parameter handler of the
    run-time library, which the program does not replace, has ended
    it. *)
Inductive ProcessEnd : Type :=
| Exits (code : Z)
| AssertionFailed
| InvalidParameter.

(** [_getws_s(buffer, sizeInWords)] on the line waiting on the standard
    input, without its newline ([None]: end of file): whether the call
    returns.  A line that does not fit the buffer with its terminator
    invokes the invalid parameter handler. *)
Definition _getws_s (stdin : option wstring) (sizeInWords : nat) : bool :=
  match stdin with
  | None => true
  | Some line => (length line <? sizeInWords)%nat
  end.

(** How the process ends, and the network state then.  The strings that
    [main] prints come from [WolErrorCodeToString], whose
    [assert(false)] no enumerator reaches. *)
Definition main {build : BuildSetup}
    (sys : WolConfig.Environment) (net : Net.Environment)
    (stdin : option wstring) : ProcessEnd * Net.State :=
  let config := WolConfig.default in
  let (errorCode, config) := WolConfig.LoadFromIni sys config in
  if decide (errorCode <> Success) then
    (Exits (to_underlying errorCode), Net.initial)
  else
    match
      Net.SendMagicPacket net
        (WolConfig.GetMacAddress config) (WolConfig.GetBroadcastIp config)
        (WolConfig.GetPort config) Net.initial
    with
    | (Aborted, st) => (AssertionFailed, st)
    | (Returned errorCode, st) =>
        if _getws_s stdin 10 then (Exits (to_underlying errorCode), st)
        else (InvalidParameter, st)
    end.

(* ================================================================== *)
(** * The vocabulary of the specification *)
(* ================================================================== *)

Module Spec.

(** Index of the first occurrence of [c] in [s]. *)
Fixpoint index_of (c : wchar_t) (s : wstring) : option Z :=
  match s with
  | [] => None
  | d :: r => if c =? d then Some 0 else option_map Z.succ (index_of c r)
  end.

(** The character class [[0-9]]. *)
Definition digit_class (c : wchar_t) : bool :=
  existsb (Z.eqb c) (L "0123456789").

(** The units of ASCII. *)
Definition ascii_unit (c : wchar_t) : bool := (0 <=? c) && (c <? 128).

(** The character class [[0-9A-Fa-f]]. *)
Definition hex_class (c : wchar_t) : bool :=
  existsb (Z.eqb c) (L "0123456789ABCDEFabcdef").

(** The value a hexadecimal digit stands for, in either case. *)
Definition hex_digit (c : wchar_t) : Z :=
  match index_of c (L "0123456789ABCDEF") with
  | Some v => v
  | None =>
      match index_of c (L "0123456789abcdef") with
      | Some v => v
      | None => 0
      end
  end.

(** [(-[0-9A-Fa-f]{2}){n}$] *)
Fixpoint dash_groups (n : nat) (s : wstring) : bool :=
  match n with
  | O => match s with [] => true | _ => false end
  | S n' =>
      match s with
      | d :: a :: b :: r =>
          (d =? 45) && hex_class a && hex_class b && dash_groups n' r
      | _ => false
      end
  end.

(** [^[0-9A-Fa-f]{2}(-[0-9A-Fa-f]{2}){5}$] *)
Definition mac_regex (s : wstring) : bool :=
  match s with
  | a :: b :: r => hex_class a && hex_class b && dash_groups 5 r
  | _ => false
  end.

(** Splitting at every occurrence of a separator; [current] is the
    segment being read. *)
Fixpoint split_from (sep : wchar_t) (current s : wstring) : list wstring :=
  match s with
  | [] => [current]
  | c :: r =>
      if c =? sep then current :: split_from sep [] r
      else split_from sep (current ++ [c]) r
  end.

Definition split_on (sep : wchar_t) (s : wstring) : list wstring :=
  split_from sep [] s.

Definition dot : wchar_t := 46.
Definition dash : wchar_t := 45.

(** The value written by a two-character hexadecimal group. *)
Definition group_value (g : wstring) : Z :=
  16 * hex_digit (at_ g 0) + hex_digit (at_ g 1).

(** Decimal numeral of a natural number, without leading zeros. *)
Definition decimal (n : nat) : wstring :=
  L (NilEmpty.string_of_uint (Nat.to_uint n)).

(** The canonical dotted form of four octets. *)
Definition dotted (a b c d : nat) : wstring :=
  decimal a ++ [dot] ++ decimal b ++ [dot] ++ decimal c ++ [dot] ++ decimal d.

(** The number a string of decimal digits denotes. *)
Definition decimal_value (digits : wstring) : Z :=
  fold_left (fun acc c => 10 * acc + (c - 48)) digits 0.

Definition count_dots (s : wstring) : nat := count_occ Z.eq_dec s dot.

(** The header followed by sixteen copies of the address. *)
Definition magic_layout (mac : list Z) : list Z :=
  repeat 0xFF 6 ++ concat (repeat mac 16).

(** The value the configuration file gives for [MacAddress], as
    [LoadFromIni] reads it. *)
Definition configured_mac (sys : WolConfig.Environment) : wstring :=
  c_str (snd (WolConfig.GetPrivateProfileStringW sys WolConfig.section
                (L "MacAddress") (L "") WolConfig.MAX_BUFFER_SIZE
                (snd (WolConfig.GetConfigFilePath sys)))).

Definition configured_ip (sys : WolConfig.Environment) : wstring :=
  c_str (snd (WolConfig.GetPrivateProfileStringW sys WolConfig.section
                (L "BroadcastIp") (L "255.255.255.255")
                WolConfig.MAX_BUFFER_SIZE
                (snd (WolConfig.GetConfigFilePath sys)))).

Definition configured_port (sys : WolConfig.Environment) : list wchar_t :=
  snd (WolConfig.GetPrivateProfileStringW sys WolConfig.section
         (L "Port") (L "") WolConfig.MAX_BUFFER_SIZE
         (snd (WolConfig.GetConfigFilePath sys))).

(** The configuration file is found and can be opened. *)
Definition config_file_found (sys : WolConfig.Environment) : Prop :=
  fst (WolConfig.GetConfigFilePath sys) = Success
  /\ WolConfig.fs_exists sys (snd (WolConfig.GetConfigFilePath sys)) = true.

(** A machine whose [config.ini] holds the given three values
    ([None]: the key is absent). *)
Definition machine (mac ip port : option wstring) : WolConfig.Environment :=
  {| WolConfig.module_file_name := L "C:\WOL\wol.exe";
     WolConfig.fs_parent_path := fun _ => Some (L "C:\WOL");
     WolConfig.fs_append := fun dir name => dir ++ [92] ++ name;
     WolConfig.fs_exists := fun _ => true;
     WolConfig.profile := fun _ _ key =>
       if decide (key = L "MacAddress") then mac
       else if decide (key = L "BroadcastIp") then ip
       else if decide (key = L "Port") then port
       else None |}.

(** A network on which every call succeeds. *)
Definition working_network : Net.Environment :=
  {| Net.WSAStartup_result := 0;
     Net.socket_result := 256;
     Net.setsockopt_result := 0;
     Net.WideCharToMultiByte := fun s => s;
     Net.inet_pton := fun _ => Some 0xFF00A8C0;
     Net.sendto_result := 102 |}.

(** A build whose library knows no digit and no white space above
    ASCII, as ISO C has it in the "C" locale. *)
Definition c_locale_build (ndebug : bool) : BuildSetup :=
  {| NDEBUG := ndebug;
     wide_iswdigit := fun _ => false;
     wide_iswspace := fun _ => false;
     wide_digit_zeros := [] |}.

(** The zeros of blocks of decimal digits above ASCII: Arabic-Indic and
    extended Arabic-Indic, the digits of Indic and South-East Asian
    scripts, Mongolian, and the full-width forms. *)
Definition unicode_digit_zeros : list wchar_t :=
  [ 0x0660; 0x06F0; 0x0966; 0x09E6; 0x0A66; 0x0AE6; 0x0B66; 0x0C66;
    0x0CE6; 0x0D66; 0x0E50; 0x0ED0; 0x0F20; 0x1040; 0x17E0; 0x1810;
    0xFF10 ].

(** White space above ASCII. *)
Definition unicode_spaces : list wchar_t :=
  [ 0x0085; 0x00A0; 0x1680; 0x2000; 0x2001; 0x2002; 0x2003; 0x2004;
    0x2005; 0x2006; 0x2007; 0x2008; 0x2009; 0x200A; 0x2028; 0x2029;
    0x202F; 0x205F; 0x3000 ].

(** A build whose library classifies and converts these digits and
    spaces, in the way of the Universal C Runtime of Windows. *)
Definition unicode_build (ndebug : bool) : BuildSetup :=
  {| NDEBUG := ndebug;
     wide_iswdigit := fun ch =>
       existsb (fun zero => (zero <=? ch) && (ch <? zero + 10))
               unicode_digit_zeros;
     wide_iswspace := fun ch => existsb (Z.eqb ch) unicode_spaces;
     wide_digit_zeros := unicode_digit_zeros |}.

(** The program built for Windows with its assertions, and without. *)
Definition windows_debug : BuildSetup := unicode_build false.
Definition windows_release : BuildSetup := unicode_build true.

(** Lines typed at the final prompt: Enter alone, and a line of ten
    characters. *)
Definition enter_alone : option wstring := Some [].
Definition ten_characters : option wstring := Some (L "0123456789").

Definition is_network_call (c : Net.Call) : bool :=
  match c with
  | Net.call_socket | Net.call_sendto _ _ _ _ => true
  | _ => false
  end.

End Spec.

(** The list-directed reading of the loop of
    [IsValidBroadcastIpAddress]: [current] is the text between [start]
    and the index, [rest] the text from the index on. *)
Fixpoint scan_octets {build : BuildSetup}
    (current rest : wstring) (dotCount : nat) : WolErrorCode :=
  match rest with
  | [] =>
      let result := WolConfig.IsValidateIpOctet current in
      if decide (result <> Success) then result
      else if (3 <? dotCount)%nat then InvalidBroadcastIp
      else if negb (dotCount =? 3)%nat then InvalidBroadcastIp
      else Success
  | c :: r =>
      if c =? 46 then
        let result := WolConfig.IsValidateIpOctet current in
        if decide (result <> Success) then result
        else if (3 <? dotCount + 1)%nat then InvalidBroadcastIp
        else scan_octets [] r (dotCount + 1)
      else scan_octets (current ++ [c]) r dotCount
  end.

Section Facts.

Context {build : BuildSetup}.

(** The facts about a hexadecimal digit that the proofs use, as one
    test. *)
Definition hex_facts_check (c : wchar_t) : bool :=
  (Spec.hex_digit c =? digit_value c)
  && (0 <=? Spec.hex_digit c) && (Spec.hex_digit c <=? 15)
  && is_digit 16 c
  && (((48 <=? c) && (c <=? 57)) || ((65 <=? c) && (c <=? 70))
      || ((97 <=? c) && (c <=? 102)))
  && negb (iswspace c)
  && negb (c =? 45) && negb (c =? 43) && negb (c =? 120) && negb (c =? 88)
  && negb (c =? 0).

Record hex_facts (c : wchar_t) : Prop := {
  hex_value_agrees : Spec.hex_digit c = digit_value c;
  hex_value_range : 0 <= Spec.hex_digit c <= 15;
  hex_is_xdigit : is_digit 16 c = true;
  hex_source_test :
    ((48 <=? c) && (c <=? 57)) || ((65 <=? c) && (c <=? 70))
    || ((97 <=? c) && (c <=? 102)) = true;
  hex_not_space : iswspace c = false;
  hex_not_minus : (c =? 45) = false;
  hex_not_plus : (c =? 43) = false;
  hex_not_x : (c =? 120) = false;
  hex_not_X : (c =? 88) = false;
  hex_not_nul : (c =? 0) = false
}.


(** The shape of a string matched by the regular expression. *)
Definition mac_text (a0 a1 b0 b1 c0 c1 d0 d1 e0 e1 f0 f1 : wchar_t) : wstring :=
  [a0; a1; 45; b0; b1; 45; c0; c1; 45; d0; d1; 45; e0; e1; 45; f0; f1].


(** The octet rule of the specification: one to three characters, all
    decimal digits, no leading zero when longer than one character, and
    a value of at most 255. *)
Definition octet_rule (o : wstring) : Prop :=
  (1 <= length o <= 3)%nat
  /\ forallb Spec.digit_class o = true
  /\ ((1 < length o)%nat -> at_ o 0 <> 48)
  /\ 0 <= Spec.decimal_value o <= 255.

(** What is checked on the decimal numeral of every octet value. *)
Definition decimal_octet_check (n : nat) : bool :=
  bool_decide (WolConfig.IsValidateIpOctet (Spec.decimal n) = Success)
  && forallb (fun c => negb (c =? Spec.dot)) (Spec.decimal n)
  && (Spec.decimal_value (Spec.decimal n) =? Z.of_nat n).

(** Inputs named in the statements below. *)
Definition example_mac : wstring := L "A0-36-BC-BB-EB-CC".
Definition example_ip : wstring := L "192.168.0.255".

(** A configuration file with the highest port number. *)
Definition machine_port_65535 : WolConfig.Environment :=
  Spec.machine (Some example_mac) (Some example_ip) (Some (L "65535")).

(** Configuration files used as instances below: a MAC address with a
    colon, a port with letters after the digits, and an empty MAC
    address. *)
Definition machine_bad_mac : WolConfig.Environment :=
  Spec.machine (Some (L "00:11-22-AA-BB-CC")) (Some example_ip) (Some (L "9")).
Definition machine_bad_port : WolConfig.Environment :=
  Spec.machine (Some example_mac) (Some example_ip) (Some (L "9abc")).
Definition machine_empty_mac : WolConfig.Environment :=
  Spec.machine (Some (L "")) (Some example_ip) (Some (L "9")).

(** A configuration file whose port is a negative number. *)
Definition machine_negative_port : WolConfig.Environment :=
  Spec.machine (Some example_mac) (Some example_ip)
    (Some (L "-4294967287")).

(** An object that already holds values. *)
Definition config_in_use : WolConfig.t :=
  {| WolConfig.mMacAddress := L "11-22-33-44-55-66";
     WolConfig.mBroadcastIp := L "10.0.0.255";
     WolConfig.mPort := 7 |}.

(** What the proofs use about a decimal digit of ASCII, as one test and
    as facts. *)
Definition digit_facts_check (c : wchar_t) : bool :=
  iswdigit c && is_digit 10 c && negb (iswspace c)
  && negb (c =? 45) && negb (c =? 43) && negb (c =? 0) && negb (c =? 46)
  && (digit_value c =? c - 48) && (48 <=? c) && (c <=? 57).

Record digit_facts (c : wchar_t) : Prop := {
  digit_is_digit : iswdigit c = true;
  digit_converts : is_digit 10 c = true;
  digit_not_space : iswspace c = false;
  digit_not_minus : (c =? 45) = false;
  digit_not_plus : (c =? 43) = false;
  digit_not_nul : (c =? 0) = false;
  digit_not_dot : (c =? 46) = false;
  digit_value_eq : digit_value c = c - 48;
  digit_value_range : 0 <= c - 48 <= 9
}.

End Facts.


(** What [IsValidMacAddress] requires of the character at index [i]. *)
Definition mac_position_ok (s : wstring) (i : nat) : bool :=
  if existsb (Nat.eqb i) WolConfig.MAC_ADDRESS_SEPARATOR_INDICES
  then at_ s i =? 45
  else Spec.hex_class (at_ s i).

(** The configuration of the end-to-end scenario. *)
Definition machine_scenario : WolConfig.Environment :=
  Spec.machine (Some example_mac) (Some example_ip) (Some (L "9")).

(* ================================================================== *)
(** * Further vocabulary *)
(* ================================================================== *)

(** Equality test on wide strings. *)
Fixpoint wstring_eqb (a b : wstring) : bool :=
  match a, b with
  | [], [] => true
  | x :: a', y :: b' => (x =? y) && wstring_eqb a' b'
  | _, _ => false
  end.

(** The ten decimal digits, and every string of one to three of them. *)
Definition digit_chars : wstring := L "0123456789".

Definition digit_strings_upto3 : list wstring :=
  map (fun a => [a]) digit_chars
  ++ flat_map (fun a => map (fun b => [a; b]) digit_chars) digit_chars
  ++ flat_map (fun a =>
       flat_map (fun b => map (fun c => [a; b; c]) digit_chars) digit_chars)
       digit_chars.

(** An octet that [IsValidateIpOctet] accepts is the decimal numeral of a
    number up to 255: the test run on one string. *)
Definition octet_numeral_check {build : BuildSetup} (o : wstring) : bool :=
  implb (bool_decide (WolConfig.IsValidateIpOctet o = Success))
        (existsb (fun n => wstring_eqb o (Spec.decimal n)) (seq 0 256)).

(** Segments put back together with a separator between them. *)
Fixpoint join (sep : wchar_t) (segments : list wstring) : wstring :=
  match segments with
  | [] => []
  | [x] => x
  | x :: rest => x ++ sep :: join sep rest
  end.

(** The object [LoadFromIni] leaves when the three values have been
    accepted. *)
Definition loaded_config (sys : WolConfig.Environment) (port : Z) : WolConfig.t :=
  {| WolConfig.mMacAddress := Spec.configured_mac sys;
     WolConfig.mBroadcastIp := Spec.configured_ip sys;
     WolConfig.mPort := port |}.

(** The value stored under a key of section [Target] in the
    configuration file. *)
Definition stored_value (sys : WolConfig.Environment) (key : wstring)
  : option wstring :=
  WolConfig.profile sys (snd (WolConfig.GetConfigFilePath sys))
    WolConfig.section key.

(** Configuration files that lack one key. *)
Definition machine_no_ip : WolConfig.Environment :=
  Spec.machine (Some example_mac) None (Some (L "9")).
Definition machine_no_port : WolConfig.Environment :=
  Spec.machine (Some example_mac) (Some example_ip) None.

(** A machine whose executable path does not fit [MAX_PATH]. *)
Definition machine_long_path : WolConfig.Environment :=
  {| WolConfig.module_file_name := repeat 97 300;
     WolConfig.fs_parent_path := fun _ => Some (L "C:\WOL");
     WolConfig.fs_append := fun dir name => dir ++ [92] ++ name;
     WolConfig.fs_exists := fun _ => true;
     WolConfig.profile := fun _ _ _ => None |}.

(** Whether the text of the broadcast address is converted by
    [WideCharToMultiByte] and then by [inet_pton]. *)
Definition address_converts (net : Net.Environment) (ip : wstring) : bool :=
  negb (length (Net.WideCharToMultiByte net ip) =? 0)%nat
  && match Net.inet_pton net (c_str (Net.WideCharToMultiByte net ip)) with
     | Some _ => true
     | None => false
     end.

(** [n] guards initialised one after the other, and [n] guards
    destroyed. *)
Definition acquire_guards (net : Net.Environment) (n : nat) (st : Net.State)
  : Net.State :=
  Nat.iter n (fun st => snd (Net.WsaGuard_Initialize net st)) st.

Definition release_guards (n : nat) (st : Net.State) : Net.State :=
  Nat.iter n Net.WsaGuard_destroy st.

(** A [Socket] object given one handle after the other with [Set]:
    the handle it holds and the state afterwards. *)
Definition Socket_Set_all (handles : list Net.SOCKET) (mSocket : Net.SOCKET)
    (st : Net.State) : Net.SOCKET * Net.State :=
  fold_left (fun object handle => Net.Socket_Set (fst object) handle (snd object))
            handles (mSocket, st).

(** A network on which [sendto] reports fewer bytes than asked. *)
Definition short_send_network : Net.Environment :=
  {| Net.WSAStartup_result := 0;
     Net.socket_result := 256;
     Net.setsockopt_result := 0;
     Net.WideCharToMultiByte := fun s => s;
     Net.inet_pton := fun _ => Some 0xFF00A8C0;
     Net.sendto_result := 10 |}.

(** A network on which [WSAStartup] fails. *)
Definition no_winsock_network : Net.Environment :=
  {| Net.WSAStartup_result := 10091;
     Net.socket_result := 256;
     Net.setsockopt_result := 0;
     Net.WideCharToMultiByte := fun s => s;
     Net.inet_pton := fun _ => Some 0xFF00A8C0;
     Net.sendto_result := 102 |}.

(** Whether [SendMagicPacket] gets as far as [SetupBroadcastAddress]:
    WinSock is started, a socket is created and [setsockopt] does not
    fail. *)
Definition reaches_setup (net : Net.Environment) : bool :=
  (Net.WSAStartup_result net =? 0)
  && negb (Net.socket_result net =? Net.INVALID_SOCKET)
  && negb (Net.setsockopt_result net =? Net.SOCKET_ERROR).

(** The WinSock calls made on the way there. *)
Definition setup_calls (net : Net.Environment) : list Net.Call :=
  [ Net.call_WSAStartup; Net.call_socket;
    Net.call_WSAIoctl (Net.socket_result net);
    Net.call_setsockopt (Net.socket_result net) ].

(** The code of the first step of [SendMagicPacket] that fails. *)
Definition send_code (net : Net.Environment) (ip : wstring) : WolErrorCode :=
  if negb (Net.WSAStartup_result net =? 0) then WinsockInitializationFailed
  else if Net.socket_result net =? Net.INVALID_SOCKET then
    SocketCreationFailed
  else if Net.setsockopt_result net =? Net.SOCKET_ERROR then
    BroadcastSetupFailed
  else if negb (address_converts net ip) then BroadcastSetupFailed
  else if Net.sendto_result net =? Net.SOCKET_ERROR then PacketSendFailed
  else Success.

(** The bytes [ParseMacAddress] stores in a zeroed array when no
    assertion stops it. *)
Definition parsed_bytes {build : BuildSetup} (mac : wstring)
  : Net.MacAddress :=
  map (fun i => Net.to_byte (nth i (snd (Net.ParseMacAddress_scan mac)) 0))
      (seq 0 6).

(** Whether every assertion met by [SendMagicPacket] on these arguments
    and this network holds. *)
Definition send_asserts {build : BuildSetup} (net : Net.Environment)
    (mac ip : wstring) (port : Z) : bool :=
  Net.SendMagicPacket_asserts mac ip port
  && Net.ParseMacAddress_asserts mac
  && implb (reaches_setup net) (Net.SetupBroadcastAddress_asserts ip port).

(** The datagram [SendMagicPacket] hands to [sendto] for the parsed
    address, when it gets that far. *)
Definition datagram (net : Net.Environment) (macBytes : Net.MacAddress)
    (ip : wstring) (port : Z) : list Net.Call :=
  if negb (Net.setsockopt_result net =? Net.SOCKET_ERROR)
     && address_converts net ip
  then
    match Net.inet_pton net (c_str (Net.WideCharToMultiByte net ip)) with
    | Some addr =>
        [ Net.call_sendto (Net.socket_result net)
            (Net.CreateMagicPacket macBytes Net.MagicPacket_zero)
            102
            {| Net.sin_family := Net.AF_INET;
               Net.sin_port := Net.htons port;
               Net.sin_addr := addr |} ]
    | None => []
    end
  else [].

(** The WinSock calls of one [SendMagicPacket], up to the destruction of
    the guard. *)
Definition send_calls (net : Net.Environment) (macBytes : Net.MacAddress)
    (ip : wstring) (port : Z) : list Net.Call :=
  if negb (Net.WSAStartup_result net =? 0) then [Net.call_WSAStartup]
  else if Net.socket_result net =? Net.INVALID_SOCKET then
    [Net.call_WSAStartup; Net.call_socket]
  else
    [ Net.call_WSAStartup; Net.call_socket;
      Net.call_WSAIoctl (Net.socket_result net);
      Net.call_setsockopt (Net.socket_result net) ]
    ++ datagram net macBytes ip port
    ++ [Net.call_closesocket (Net.socket_result net)].

(** The call made when a [Socket] object lets go of the handle it
    holds. *)
Definition closing (mSocket : Net.SOCKET) : list Net.Call :=
  if mSocket =? Net.INVALID_SOCKET then [] else [Net.call_closesocket mSocket].

(** [towupper] on the ASCII letters. *)
Definition towupper (c : wchar_t) : wchar_t :=
  if (97 <=? c) && (c <=? 122) then c - 32 else c.

(** A hexadecimal digit and its upper-case form have the same value. *)
Definition hex_case_check (c : wchar_t) : bool :=
  Spec.hex_class (towupper c)
  && (Spec.hex_digit (towupper c) =? Spec.hex_digit c).

(* ================================================================== *)
(** * Proofs *)
(* ================================================================== *)

Import WolConfig Net Spec.

(** A statement on named inputs that names no build is about the
    program as built for Windows with its assertions. *)
#[global] Existing Instance windows_debug.

(** ** Comparisons on code units *)

Ltac bool_hyps :=
  repeat match goal with
    | H : (_ && _) = true |- _ => apply andb_true_iff in H; destruct H
    | H : (_ <=? _) = true |- _ => apply Z.leb_le in H
    | H : (_ <? _) = true |- _ => apply Z.ltb_lt in H
    | H : (_ =? _) = true |- _ => apply Z.eqb_eq in H
    | H : (_ <=? _) = false |- _ => apply Z.leb_gt in H
    | H : (_ <? _) = false |- _ => apply Z.ltb_ge in H
    | H : (_ =? _) = false |- _ => apply Z.eqb_neq in H
    end.

(** The test [IsValidMacAddress] makes on a character that is no
    separator is the class of the regular expression. *)
Lemma hex_class_ranges c :
  hex_class c
  = ((48 <=? c) && (c <=? 57)) || ((65 <=? c) && (c <=? 70))
    || ((97 <=? c) && (c <=? 102)).
Proof.
  apply eq_true_iff_eq.
  unfold hex_class.
  set (l := L _). vm_compute in l. subst l. cbn [existsb].
  rewrite !orb_true_iff, !andb_true_iff, !Z.leb_le, !Z.eqb_eq.
  split; [intros H; repeat (destruct H as [H | H]; [lia |]); discriminate | lia].
Qed.

(** ** The model on the inputs the specification names *)

Example IsValidMacAddress_examples :
  IsValidMacAddress (L "00-11-22-AA-BB-CC") = Success
  /\ IsValidMacAddress (L "00:11:22:AA:BB:CC") = InvalidMacAddress
  /\ IsValidMacAddress (L "001-11-22-AA-BB-CC") = InvalidMacAddress
  /\ IsValidMacAddress (L "a0-36-bc-bb-eb-cc") = Success.
Proof. repeat split; vm_compute; reflexivity. Qed.

Example IsValidBroadcastIpAddress_examples :
  IsValidBroadcastIpAddress (L "192.168.0.255") = Success
  /\ IsValidBroadcastIpAddress (L "192.168.0.256") = InvalidBroadcastIp
  /\ IsValidBroadcastIpAddress (L "192.168.00.255") = InvalidBroadcastIp
  /\ IsValidBroadcastIpAddress (L "192.168.0") = InvalidBroadcastIp
  /\ IsValidBroadcastIpAddress (L "1.2.3.4.5") = InvalidBroadcastIp
  /\ IsValidBroadcastIpAddress (L "") = InvalidBroadcastIp.
Proof. repeat split; vm_compute; reflexivity. Qed.

Example ParseMacAddress_example :
  ParseMacAddress example_mac MacAddress_zero
  = Returned [0xA0; 0x36; 0xBC; 0xBB; 0xEB; 0xCC].
Proof. vm_compute. reflexivity. Qed.

(** The end-to-end scenario: one datagram of 102 bytes to port 9, between
    the start-up and the release of the socket and of WinSock. *)
Example main_scenario :
  main machine_scenario working_network enter_alone
  = (Exits 0,
     {| calls :=
          [ call_WSAStartup; call_socket; call_WSAIoctl 256;
            call_setsockopt 256;
            call_sendto 256
              (magic_layout [0xA0; 0x36; 0xBC; 0xBB; 0xEB; 0xCC]) 102
              {| sin_family := AF_INET; sin_port := htons 9;
                 sin_addr := 0xFF00A8C0 |};
            call_closesocket 256; call_WSACleanup ];
        mRefCount := 0 |}).
Proof. vm_compute. reflexivity. Qed.

(** A minus sign is taken by [wcstoul] and the value negated in the
    unsigned type. *)
Example LoadFromIni_port_minus :
  LoadFromIni_port (L "-1") = PortError InvalidPort
  /\ LoadFromIni_port (L "-4294967295") = PortValue 1.
Proof. split; vm_compute; reflexivity. Qed.

(** What the library does above ASCII shows in the validators: a
    library that converts the full-width digits lets an octet and a
    port written with them through, a library of the "C" locale does
    not. *)
Example wide_digits_by_library :
  let wide_255 := [0xFF12; 0xFF15; 0xFF15] in
  let wide_9 := [0xFF19] in
  IsValidateIpOctet (build := windows_debug) wide_255 = Success
  /\ IsValidateIpOctet (build := c_locale_build false) wide_255
     = InvalidBroadcastIp
  /\ LoadFromIni_port (build := windows_debug) wide_9 = PortValue 9
  /\ LoadFromIni_port (build := c_locale_build false) wide_9
     = PortError InvalidPort.
Proof. repeat split; vm_compute; reflexivity. Qed.
(** Splits a [Forall] on an explicit list into its facts. *)
Ltac forall_facts HF :=
  let F := fresh "F" in
  pose proof HF as F;
  repeat (apply List.Forall_cons_iff in F; destruct F as [? F]);
  clear F.

Section MacAddressText.

Context {build : BuildSetup}.


(** The facts are checked on each of the twenty-two digits. *)
Lemma hex_class_facts c : hex_class c = true -> hex_facts c.
Proof.
  intros Hc. unfold hex_class in Hc.
  apply existsb_exists in Hc as (d & Hin & Heq).
  apply Z.eqb_eq in Heq. subst d.
  assert (Hall : forallb hex_facts_check (L "0123456789ABCDEFabcdef") = true)
    by (vm_compute; reflexivity).
  pose proof (proj1 (forallb_forall _ _) Hall c Hin) as H.
  unfold hex_facts_check in H.
  repeat (apply andb_true_iff in H; destruct H as [H ?]).
  repeat match goal with
         | G : negb _ = true |- _ => apply negb_true_iff in G
         | G : (_ <=? _) = true |- _ => apply Z.leb_le in G
         | G : (hex_digit _ =? _) = true |- _ => apply Z.eqb_eq in G
         end.
  constructor; try assumption. lia.
Qed.

Lemma span_head_false p c r : p c = false -> span p (c :: r) = ([], c :: r).
Proof. intros H. simpl. now rewrite H. Qed.

Lemma c_str_id s : List.Forall (fun c => (c =? 0) = false) s -> c_str s = s.
Proof.
  induction 1 as [|c r Hc _ IH]; simpl; [reflexivity|].
  now rewrite Hc, IH.
Qed.

(** [%x] on a two-digit group that ends the input or stands before a
    hyphen. *)
Lemma scan_hex_group a b rest :
  hex_class a = true -> hex_class b = true ->
  (rest = [] \/ exists r, rest = 45 :: r) ->
  scan_hex (a :: b :: rest) = Some (16 * hex_digit a + hex_digit b, rest).
Proof.
  intros Ha Hb Hrest.
  apply hex_class_facts in Ha as [Hva Hra Hxa _ _ Hma Hpa _ _ _].
  apply hex_class_facts in Hb as [Hvb Hrb Hxb _ _ _ _ Hbx HbX _].
  assert (Hspan : span (is_digit 16) (a :: b :: rest) = ([a; b], rest)).
  { cbn [span]. rewrite Hxa, Hxb.
    destruct Hrest as [-> | [r ->]]; reflexivity. }
  unfold scan_hex, read_sign. rewrite Hma, Hpa.
  destruct Hrest as [-> | [r ->]].
  - rewrite Hspan. unfold accumulate. simpl fold_left.
    rewrite <- Hva, <- Hvb. f_equal. f_equal.
    unfold UINT_MAX. rewrite Z.mod_small; lia.
  - rewrite Hbx, HbX, andb_false_r. cbv iota.
    rewrite Hspan. unfold accumulate. simpl fold_left.
    rewrite <- Hva, <- Hvb. f_equal. f_equal.
    unfold UINT_MAX. rewrite Z.mod_small; lia.
Qed.

Lemma mac_regex_inv s :
  mac_regex s = true ->
  exists a0 a1 b0 b1 c0 c1 d0 d1 e0 e1 f0 f1,
    s = mac_text a0 a1 b0 b1 c0 c1 d0 d1 e0 e1 f0 f1
    /\ List.Forall (fun c => hex_class c = true)
         [a0; a1; b0; b1; c0; c1; d0; d1; e0; e1; f0; f1].
Proof.
  unfold mac_regex. intros H.
  destruct s as [|a0 [|a1 s]]; try discriminate.
  do 5 (destruct s as [|? [|? [|? s]]];
        [simpl in H; rewrite ?andb_false_r in H; discriminate ..|]).
  destruct s; [|simpl in H; rewrite ?andb_false_r in H; discriminate].
  simpl in H. bool_hyps. subst.
  do 12 eexists. split; [reflexivity|].
  repeat constructor; assumption.
Qed.

Lemma split_from_sep sep current r :
  split_from sep current (sep :: r) = current :: split_from sep [] r.
Proof. simpl. now rewrite Z.eqb_refl. Qed.

Lemma split_from_other sep current c r :
  (c =? sep) = false ->
  split_from sep current (c :: r) = split_from sep (current ++ [c]) r.
Proof. intros H. simpl. now rewrite H. Qed.

Lemma to_byte_small v : 0 <= v <= 255 -> to_byte v = v.
Proof. intros H. unfold to_byte. apply Z.mod_small. lia. Qed.

Lemma group_value_range a b :
  hex_class a = true -> hex_class b = true ->
  0 <= 16 * hex_digit a + hex_digit b <= 255.
Proof.
  intros Ha Hb.
  pose proof (hex_value_range _ (hex_class_facts _ Ha)).
  pose proof (hex_value_range _ (hex_class_facts _ Hb)). lia.
Qed.

(** ** Strings of the format [XX-XX-XX-XX-XX-XX] *)

Section MacText.

Variables a0 a1 b0 b1 c0 c1 d0 d1 e0 e1 f0 f1 : wchar_t.

Hypothesis all_hex :
  List.Forall (fun c => hex_class c = true)
    [a0; a1; b0; b1; c0; c1; d0; d1; e0; e1; f0; f1].

Local Abbreviation text := (mac_text a0 a1 b0 b1 c0 c1 d0 d1 e0 e1 f0 f1).

Local Abbreviation bytes :=
  [16 * hex_digit a0 + hex_digit a1; 16 * hex_digit b0 + hex_digit b1;
   16 * hex_digit c0 + hex_digit c1; 16 * hex_digit d0 + hex_digit d1;
   16 * hex_digit e0 + hex_digit e1; 16 * hex_digit f0 + hex_digit f1].

Lemma mac_text_no_nul : c_str text = text.
Proof.
  forall_facts all_hex.
  apply c_str_id. unfold mac_text.
  repeat constructor;
    solve [reflexivity | now apply hex_not_nul, hex_class_facts].
Qed.

Lemma swscanf_s_mac : swscanf_s text ParseMacAddress_format = (6, bytes).
Proof.
  forall_facts all_hex.
  unfold swscanf_s, ParseMacAddress_format, mac_text.
  repeat (cbn [scan];
          rewrite span_head_false by (now apply hex_not_space, hex_class_facts);
          cbn [snd];
          rewrite scan_hex_group by eauto;
          cbn [app Z.eqb Pos.eqb]).
  reflexivity.
Qed.

Lemma split_mac_text :
  split_on dash text
  = [[a0; a1]; [b0; b1]; [c0; c1]; [d0; d1]; [e0; e1]; [f0; f1]].
Proof.
  forall_facts all_hex.
  unfold split_on, mac_text, dash.
  repeat first
    [ rewrite split_from_sep
    | rewrite split_from_other by (now apply hex_not_minus, hex_class_facts) ].
  reflexivity.
Qed.

Lemma group_values_range : List.Forall (fun b => 0 <= b <= 255) bytes.
Proof.
  forall_facts all_hex.
  repeat constructor; now apply group_value_range.
Qed.

(** What [ParseMacAddress] does on a string of the format, whatever
    the array held before. *)
Lemma ParseMacAddress_mac_text macBytes :
  length macBytes = 6%nat ->
  ParseMacAddress_scan text = (6, bytes)
  /\ ParseMacAddress text macBytes = Returned bytes.
Proof.
  intros Hlen.
  assert (Hscan : ParseMacAddress_scan text = (6, bytes)).
  { unfold ParseMacAddress_scan.
    rewrite mac_text_no_nul, swscanf_s_mac. reflexivity. }
  split; [exact Hscan|].
  unfold ParseMacAddress, assert. rewrite Hscan.
  cbn [mac_text length Nat.eqb negb Z.eqb Pos.eqb].
  rewrite !orb_true_r. cbn [negb].
  do 7 (destruct macBytes as [|? macBytes]; try discriminate).
  cbn [length seq fold_left nth].
  forall_facts group_values_range.
  rewrite !to_byte_small by assumption.
  reflexivity.
Qed.

(** Every string of the format passes [IsValidMacAddress]. *)
Lemma IsValidMacAddress_mac_text : IsValidMacAddress text = Success.
Proof.
  forall_facts all_hex.
  repeat match goal with
         | H : hex_class _ = true |- _ =>
             apply hex_class_facts, hex_source_test in H
         end.
  unfold IsValidMacAddress, mac_text.
  cbn [length Nat.eqb Nat.ltb Nat.leb MAC_ADDRESS_LENGTH orb].
  repeat (cbn [IsValidMacAddress_loop existsb Nat.eqb orb
               MAC_ADDRESS_SEPARATOR_INDICES at_ nth separator
               Z.eqb Pos.eqb negb];
          try match goal with
              | H : _ = true |- context [negb ?b] => rewrite H
              end).
  reflexivity.
Qed.

End MacText.

Lemma CreateMagicPacket_layout macBytes :
  length macBytes = 6%nat ->
  CreateMagicPacket macBytes MagicPacket_zero = magic_layout macBytes.
Proof.
  intros Hm.
  do 7 (destruct macBytes as [|? macBytes]; try discriminate).
  reflexivity.
Qed.

(** ** The claims on parsing and on the magic packet *)

(** C8.  For every MAC string of the format [XX-XX-XX-XX-XX-XX] (the
    strings matched by the regular expression), splitting at the hyphens
    gives six groups of two characters, and [ParseMacAddress] returns,
    in every build, having filled the six bytes of the address, whatever
    they held before, with the values of the groups in their written
    order; every byte lies between 0x00 and 0xFF, and the assertions of
    [ParseMacAddress] hold. *)
Theorem ParseMacAddress_bytes_are_groups (s : wstring) (macBytes : MacAddress) :
  mac_regex s = true ->
  length macBytes = 6%nat ->
  let groups := split_on dash s in
  let parsed := map group_value groups in
  ParseMacAddress s macBytes = Returned parsed
  /\ length groups = 6%nat
  /\ List.Forall (fun g => length g = 2%nat) groups
  /\ length parsed = 6%nat
  /\ List.Forall (fun b => 0x00 <= b <= 0xFF) parsed
  /\ ParseMacAddress_asserts s = true.
Proof.
  intros Hs Hlen groups parsed. subst groups parsed.
  destruct (mac_regex_inv s Hs)
    as (a0 & a1 & b0 & b1 & c0 & c1 & d0 & d1 & e0 & e1 & f0 & f1 & -> & HF).
  destruct (ParseMacAddress_mac_text _ _ _ _ _ _ _ _ _ _ _ _ HF macBytes Hlen)
    as [Hscan Hparse].
  rewrite Hparse, split_mac_text by assumption.
  repeat split.
  - repeat constructor.
  - now apply group_values_range.
  - unfold ParseMacAddress_asserts. now rewrite Hscan.
Qed.

End MacAddressText.

Lemma ParseMacAddress_bytes_are_groups_witness :
  mac_regex example_mac = true
  /\ length MacAddress_zero = 6%nat
  /\ ParseMacAddress example_mac MacAddress_zero
     = Returned (map group_value (split_on dash example_mac)).
Proof.
  split; [reflexivity|]. split; [reflexivity|].
  exact (proj1
    (ParseMacAddress_bytes_are_groups example_mac MacAddress_zero
       eq_refl eq_refl)).
Defined.

(** ** IPv4 validation *)

Section Octets.

Context {build : BuildSetup}.

(** The facts are checked on each of the ten digits. *)
Lemma digit_class_facts c : digit_class c = true -> digit_facts c.
Proof.
  intros Hc. unfold digit_class in Hc.
  apply existsb_exists in Hc as (d & Hin & Heq).
  apply Z.eqb_eq in Heq. subst d.
  assert (Hall : forallb digit_facts_check (L "0123456789") = true)
    by (vm_compute; reflexivity).
  pose proof (proj1 (forallb_forall _ _) Hall c Hin) as H.
  unfold digit_facts_check in H.
  repeat (apply andb_true_iff in H; destruct H as [H ?]).
  repeat match goal with
         | G : negb _ = true |- _ => apply negb_true_iff in G
         | G : (_ <=? _) = true |- _ => apply Z.leb_le in G
         | G : (digit_value _ =? _) = true |- _ => apply Z.eqb_eq in G
         end.
  constructor; try assumption. lia.
Qed.

Lemma digit_class_range c : digit_class c = (48 <=? c) && (c <=? 57).
Proof.
  apply eq_true_iff_eq.
  unfold digit_class.
  set (l := L _). vm_compute in l. subst l. cbn [existsb].
  rewrite !orb_true_iff, !andb_true_iff, !Z.leb_le, !Z.eqb_eq.
  split; [intros H; repeat (destruct H as [H | H]; [lia |]); discriminate | lia].
Qed.

(** On ASCII the digits of the library are the ten digits. *)
Lemma iswdigit_ascii c :
  ascii_unit c = true -> iswdigit c = digit_class c.
Proof.
  unfold ascii_unit, iswdigit. intros H.
  apply andb_true_iff in H as [_ H]. rewrite H.
  symmetry. apply digit_class_range.
Qed.

Lemma digit_class_ascii c : digit_class c = true -> ascii_unit c = true.
Proof.
  rewrite digit_class_range. unfold ascii_unit. intros H.
  apply andb_true_iff in H as [H1 H2].
  apply Z.leb_le in H1. apply Z.leb_le in H2.
  apply andb_true_iff. split; [apply Z.leb_le | apply Z.ltb_lt]; lia.
Qed.

Lemma forallb_digit_class_iswdigit o :
  forallb digit_class o = true -> forallb iswdigit o = true.
Proof.
  rewrite !forallb_forall. intros H c Hc.
  apply (digit_is_digit _ (digit_class_facts c (H c Hc))).
Qed.

Lemma forallb_iswdigit_ascii o :
  forallb ascii_unit o = true ->
  forallb iswdigit o = forallb digit_class o.
Proof.
  induction o as [|c o IH]; cbn [forallb]; [reflexivity|].
  intros H. apply andb_true_iff in H as [Hc Ho].
  now rewrite (iswdigit_ascii c Hc), (IH Ho).
Qed.

(** [wcstol] on the copy of an octet made of the ten digits. *)
Lemma wcstol_octet o :
  (1 <= length o <= 3)%nat -> forallb digit_class o = true ->
  c_str o = o
  /\ wcstol o = {| strto_value := decimal_value o;
                   strto_end := length o;
                   strto_errno := ENONE |}
  /\ 0 <= decimal_value o <= 999.
Proof.
  intros Hlen Hdig.
  destruct o as [|a [|b [|c [|d o]]]]; cbn [length] in Hlen; try lia;
    cbn [forallb] in Hdig;
    repeat match goal with
           | H : (_ && _) = true |- _ => apply andb_true_iff in H; destruct H
           end;
    repeat match goal with
           | H : digit_class ?x = true |- _ =>
               pose proof (digit_class_facts _ H) as [? ? ? ? ? ? ? ? ?];
               clear H
           end;
    (split; [apply c_str_id; repeat constructor; assumption|]);
    (split;
     [ unfold wcstol;
       rewrite span_head_false by assumption;
       unfold read_sign;
       repeat match goal with H : (_ =? _) = false |- _ => rewrite H end;
       cbn [span];
       repeat match goal with H : is_digit 10 _ = true |- _ => rewrite H end;
       unfold accumulate, decimal_value, LONG_MAX, LONG_MIN; cbn [fold_left];
       repeat match goal with H : digit_value _ = _ |- _ => rewrite H end;
       repeat match goal with
              | |- context [if ?x <? ?y then _ else _] =>
                  destruct (Z.ltb_spec x y); [lia|]
              end;
       cbn [length]; f_equal; lia
     | unfold decimal_value; cbn [fold_left]; lia ]).
Qed.

(** What the tests before the conversion require of an accepted
    octet. *)
Lemma IsValidateIpOctet_shape o :
  IsValidateIpOctet o = Success ->
  (1 <= length o <= 3)%nat
  /\ forallb iswdigit o = true
  /\ ((1 < length o)%nat -> at_ o 0 <> 48).
Proof.
  unfold IsValidateIpOctet.
  destruct (length o =? 0)%nat eqn:E0; [discriminate|].
  apply Nat.eqb_neq in E0.
  destruct (3 <? length o)%nat eqn:E3; [discriminate|].
  apply Nat.ltb_ge in E3. cbn [orb].
  destruct (forallb iswdigit o) eqn:Ed; cbn [negb]; [|discriminate].
  destruct ((1 <? length o)%nat && (at_ o 0 =? 48)) eqn:E1; [discriminate|].
  intros _. split; [lia|]. split; [reflexivity|].
  intros Hlen Hz. apply andb_false_iff in E1 as [E1 | E1].
  - apply Nat.ltb_ge in E1. lia.
  - apply Z.eqb_neq in E1. contradiction.
Qed.

(** On an octet made of the ten digits the validator follows the rule
    of the specification. *)
Lemma IsValidateIpOctet_digits o :
  forallb digit_class o = true ->
  (IsValidateIpOctet o = Success <-> octet_rule o).
Proof.
  intros Hdc. pose proof (forallb_digit_class_iswdigit o Hdc) as Ed.
  unfold IsValidateIpOctet, octet_rule.
  destruct (length o =? 0)%nat eqn:E0.
  { apply Nat.eqb_eq in E0. cbn [orb]. split; [discriminate | lia]. }
  apply Nat.eqb_neq in E0.
  destruct (3 <? length o)%nat eqn:E3.
  { apply Nat.ltb_lt in E3. cbn [orb]. split; [discriminate | lia]. }
  apply Nat.ltb_ge in E3. cbn [orb].
  rewrite Ed; cbn [negb].
  destruct (wcstol_octet o) as (Hc & Hw & Hv); [lia | assumption |].
  rewrite Hc, Hw. cbn [strto_errno strto_end strto_value].
  assert (Hend : at_ o (length o) = 0)
    by (unfold at_; apply nth_overflow; lia).
  rewrite Hend. cbn [Z.eqb negb orb].
  destruct (length o =? 0)%nat eqn:E0'; [apply Nat.eqb_eq in E0'; lia|].
  cbn [orb].
  destruct (1 <? length o)%nat eqn:E1; cbn [andb].
  - apply Nat.ltb_lt in E1.
    destruct (at_ o 0 =? 48) eqn:Ez.
    + apply Z.eqb_eq in Ez. split; [discriminate|].
      intros (_ & _ & Hz & _). now specialize (Hz E1).
    + apply Z.eqb_neq in Ez.
      destruct (Z.ltb_spec (decimal_value o) 0); [lia|]. cbn [orb].
      destruct (Z.ltb_spec 255 (decimal_value o)).
      * split; [discriminate | lia].
      * split; [intros _; repeat split; auto; lia | reflexivity].
  - apply Nat.ltb_ge in E1.
    destruct (Z.ltb_spec (decimal_value o) 0); [lia|]. cbn [orb].
    destruct (Z.ltb_spec 255 (decimal_value o)).
    + split; [discriminate | lia].
    + split; [intros _; repeat split; auto; lia | reflexivity].
Qed.

(** Every octet that follows the rule is accepted, whatever the
    library. *)
Lemma IsValidateIpOctet_rule o :
  octet_rule o -> IsValidateIpOctet o = Success.
Proof.
  intros Hr. apply IsValidateIpOctet_digits; [|exact Hr].
  now destruct Hr as (_ & ? & _).
Qed.

(** On ASCII the accepted octets are those of the rule. *)
Lemma IsValidateIpOctet_ascii o :
  forallb ascii_unit o = true ->
  (IsValidateIpOctet o = Success <-> octet_rule o).
Proof.
  intros Ha. split; [|apply IsValidateIpOctet_rule].
  intros Hok. apply IsValidateIpOctet_digits; [|exact Hok].
  rewrite <- forallb_iswdigit_ascii by exact Ha.
  now apply IsValidateIpOctet_shape.
Qed.

Lemma IsValidateIpOctet_codes o :
  IsValidateIpOctet o = Success \/ IsValidateIpOctet o = InvalidBroadcastIp.
Proof.
  unfold IsValidateIpOctet.
  repeat match goal with
         | |- context [if ?b then _ else _] => destruct b
         | |- context [match ?e with ENONE => _ | _ => _ end] => destruct e
         end; auto.
Qed.

End Octets.
Section DottedQuads.

Context {build : BuildSetup}.


Lemma split_from_length sep current s :
  length (split_from sep current s) = S (count_occ Z.eq_dec s sep).
Proof.
  revert current. induction s as [|c r IH]; intros current; [reflexivity|].
  cbn [split_from count_occ].
  destruct (Z.eqb_spec c sep) as [->|Hne].
  - destruct (Z.eq_dec sep sep); [|congruence]. cbn [length]. now rewrite IH.
  - destruct (Z.eq_dec c sep); [congruence|]. apply IH.
Qed.

Lemma split_from_app_sep sep current x y :
  split_from sep current (x ++ sep :: y)
  = split_from sep current x ++ split_from sep [] y.
Proof.
  revert current. induction x as [|c r IH]; intros current.
  - cbn [app]. now rewrite split_from_sep.
  - cbn [app split_from]. destruct (c =? sep).
    + now rewrite IH.
    + apply IH.
Qed.

Lemma split_from_no_sep sep current x :
  forallb (fun c => negb (c =? sep)) x = true ->
  split_from sep current x = [current ++ x].
Proof.
  revert current. induction x as [|c r IH]; intros current H.
  - now rewrite app_nil_r.
  - cbn [forallb] in H. apply andb_true_iff in H as [Hc Hr].
    apply negb_true_iff in Hc. cbn [split_from]. rewrite Hc.
    rewrite IH by assumption. now rewrite <- app_assoc.
Qed.

(** The loop of [IsValidBroadcastIpAddress], read on the text. *)
Lemma IsValidBroadcastIpAddress_loop_scan s :
  forall n i start dotCount,
    (start <= i)%nat -> (i + n = length s + 1)%nat -> (1 <= n)%nat ->
    IsValidBroadcastIpAddress_loop s n i start dotCount
    = scan_octets (firstn (i - start) (skipn start s)) (skipn i s) dotCount.
Proof.
  induction n as [|n IH]; intros i start dotCount Hstart Hn Hpos; [lia|].
  cbn [IsValidBroadcastIpAddress_loop].
  assert (Hsub : substr s start (i - start)
                 = Some (firstn (i - start) (skipn start s))).
  { unfold substr. destruct (Nat.leb_spec start (length s)); [reflexivity|lia]. }
  destruct (Nat.eqb_spec i (length s)) as [Hi|Hi].
  - (* the index is the length: the last octet *)
    assert (n = 0)%nat by lia. subst n i.
    rewrite drop_all. cbn [orb scan_octets].
    rewrite Hsub.
    destruct (decide (IsValidateIpOctet
                        (take (length s - start) (drop start s))
                      <> Success)); [reflexivity|].
    rewrite Nat.ltb_irrefl.
    destruct (3 <? dotCount)%nat; reflexivity.
  - assert (Hlt : (i < length s)%nat) by lia.
    destruct (lookup_lt_is_Some_2 s i Hlt) as [c Hc].
    rewrite (drop_S s c i Hc).
    assert (Hat : at_ s i = c) by (unfold at_; now apply nth_lookup_Some).
    rewrite Hat. cbn [orb scan_octets].
    destruct (c =? 46) eqn:Hdot.
    + rewrite Hsub.
      destruct (decide (IsValidateIpOctet (take (i - start) (drop start s))
                        <> Success)); [reflexivity|].
      destruct (Nat.ltb_spec i (length s)); [|lia].
      destruct (3 <? dotCount + 1)%nat; [reflexivity|].
      rewrite IH by lia.
      replace (i + 1 - (i + 1))%nat with 0%nat by lia.
      rewrite take_0. now rewrite Nat.add_1_r.
    + rewrite IH by lia.
      replace (i + 1 - start)%nat with (S (i - start)) by lia.
      rewrite (take_S_r _ _ c).
      * now rewrite Nat.add_1_r.
      * rewrite lookup_drop. now replace (start + (i - start))%nat with i by lia.
Qed.

Lemma scan_octets_codes rest :
  forall current dotCount,
    scan_octets current rest dotCount = Success
    \/ scan_octets current rest dotCount = InvalidBroadcastIp.
Proof.
  induction rest as [|c r IH]; intros current dotCount; cbn [scan_octets].
  - destruct (IsValidateIpOctet_codes current) as [-> | ->].
    + destruct (decide (Success <> Success)); [congruence|].
      destruct (3 <? dotCount)%nat; auto.
      destruct (negb (dotCount =? 3)%nat); auto.
    + destruct (decide (InvalidBroadcastIp <> Success)) as [|Hn]; auto.
      exfalso. apply Hn. discriminate.
  - destruct (c =? 46); [|apply IH].
    destruct (IsValidateIpOctet_codes current) as [-> | ->].
    + destruct (decide (Success <> Success)); [congruence|].
      destruct (3 <? dotCount + 1)%nat; auto.
    + destruct (decide (InvalidBroadcastIp <> Success)) as [|Hn]; auto.
      exfalso. apply Hn. discriminate.
Qed.

Lemma scan_octets_Success rest :
  forall current dotCount,
    scan_octets current rest dotCount = Success
    <-> List.Forall (fun o => IsValidateIpOctet o = Success)
          (split_from dot current rest)
        /\ (dotCount + length (split_from dot current rest) = 4)%nat.
Proof.
  induction rest as [|c r IH]; intros current dotCount;
    cbn [scan_octets split_from].
  - destruct (decide (IsValidateIpOctet current <> Success)) as [Hne|He].
    + split; [congruence|]. intros [HF _]. now inversion HF.
    + assert (Hok : IsValidateIpOctet current = Success)
        by (destruct (decide (IsValidateIpOctet current = Success)); tauto).
      cbn [length].
      destruct (Nat.ltb_spec 3 dotCount).
      * split; [discriminate | lia].
      * destruct (Nat.eqb_spec dotCount 3); cbn [negb].
        -- split; [intros _; split; [now constructor | lia] | reflexivity].
        -- split; [discriminate | lia].
  - unfold dot. destruct (c =? 46); [|apply IH].
    destruct (decide (IsValidateIpOctet current <> Success)) as [Hne|He].
    + split; [congruence|]. intros [HF _]. now inversion HF.
    + assert (Hok : IsValidateIpOctet current = Success)
        by (destruct (decide (IsValidateIpOctet current = Success)); tauto).
      cbn [length].
      destruct (Nat.ltb_spec 3 (dotCount + 1)).
      * rewrite split_from_length. split; [discriminate | lia].
      * rewrite IH. unfold dot. rewrite !split_from_length. split.
        -- intros [HF Hn]. split; [now constructor | lia].
        -- intros [HF Hn]. inversion_clear HF. split; [assumption | lia].
Qed.

(** [IsValidBroadcastIpAddress] accepts exactly the strings made of
    four dot-separated segments that all pass [IsValidateIpOctet]. *)
Lemma IsValidBroadcastIpAddress_Success s :
  IsValidBroadcastIpAddress s = Success
  <-> length (split_on dot s) = 4%nat
      /\ List.Forall (fun o => IsValidateIpOctet o = Success) (split_on dot s).
Proof.
  unfold IsValidBroadcastIpAddress.
  rewrite IsValidBroadcastIpAddress_loop_scan by lia.
  cbn [Nat.sub firstn skipn]. rewrite scan_octets_Success.
  unfold split_on. cbn [Nat.add]. tauto.
Qed.

Lemma IsValidBroadcastIpAddress_codes s :
  IsValidBroadcastIpAddress s = Success
  \/ IsValidBroadcastIpAddress s = InvalidBroadcastIp.
Proof.
  unfold IsValidBroadcastIpAddress.
  rewrite IsValidBroadcastIpAddress_loop_scan by lia.
  apply scan_octets_codes.
Qed.

End DottedQuads.
Section DottedQuadClaims.

Context {build : BuildSetup}.

Lemma decimal_octet n :
  (n <= 255)%nat ->
  IsValidateIpOctet (decimal n) = Success
  /\ forallb (fun c => negb (c =? dot)) (decimal n) = true
  /\ decimal_value (decimal n) = Z.of_nat n.
Proof.
  intros Hn.
  assert (Hall : forallb decimal_octet_check (seq 0 256) = true)
    by (vm_compute; reflexivity).
  assert (Hin : In n (seq 0 256)) by (apply in_seq; lia).
  pose proof (proj1 (forallb_forall _ _) Hall n Hin) as H.
  unfold decimal_octet_check in H.
  apply andb_true_iff in H as [H H3]. apply andb_true_iff in H as [H1 H2].
  apply bool_decide_eq_true in H1. apply Z.eqb_eq in H3. auto.
Qed.

Lemma split_on_dotted a b c d :
  (a <= 255)%nat -> (b <= 255)%nat -> (c <= 255)%nat -> (d <= 255)%nat ->
  split_on dot (dotted a b c d) = [decimal a; decimal b; decimal c; decimal d].
Proof.
  intros Ha Hb Hc Hd.
  destruct (decimal_octet a Ha) as (_ & Ha' & _).
  destruct (decimal_octet b Hb) as (_ & Hb' & _).
  destruct (decimal_octet c Hc) as (_ & Hc' & _).
  destruct (decimal_octet d Hd) as (_ & Hd' & _).
  unfold split_on, dotted. cbn [app].
  rewrite !split_from_app_sep, !split_from_no_sep by assumption.
  reflexivity.
Qed.

Lemma IsValidBroadcastIpAddress_rejects s :
  IsValidBroadcastIpAddress s <> Success ->
  IsValidBroadcastIpAddress s = InvalidBroadcastIp.
Proof.
  destruct (IsValidBroadcastIpAddress_codes s); [contradiction | auto].
Qed.

Lemma IsValidBroadcastIpAddress_bad_octet s o :
  In o (split_on dot s) -> IsValidateIpOctet o <> Success ->
  IsValidBroadcastIpAddress s = InvalidBroadcastIp.
Proof.
  intros Hin Hbad. apply IsValidBroadcastIpAddress_rejects.
  rewrite IsValidBroadcastIpAddress_Success. intros [_ HF].
  apply Hbad.
  exact (proj1 (List.Forall_forall _ _) HF o Hin).
Qed.

(** C3.  Whatever the build, the canonical dotted form of four integers
    in [0,255] passes [IsValidBroadcastIpAddress]; a string fails as
    soon as one of its dot-separated segments is a number, written with
    the digits [0] to [9], above 255, or is longer than one character
    and starts with [0], or is empty, and whenever the number of dots is
    not three; consecutive dots, a leading dot and a trailing dot give
    an empty segment. *)
Theorem IsValidBroadcastIpAddress_properties :
  (forall a b c d : nat,
      (a <= 255)%nat -> (b <= 255)%nat -> (c <= 255)%nat -> (d <= 255)%nat ->
      IsValidBroadcastIpAddress (dotted a b c d) = Success)
  /\ (forall s o,
        In o (split_on dot s) -> forallb digit_class o = true ->
        255 < decimal_value o ->
        IsValidBroadcastIpAddress s = InvalidBroadcastIp)
  /\ (forall s o,
        In o (split_on dot s) -> (1 < length o)%nat -> at_ o 0 = 48 ->
        IsValidBroadcastIpAddress s = InvalidBroadcastIp)
  /\ (forall s,
        count_dots s <> 3%nat ->
        IsValidBroadcastIpAddress s = InvalidBroadcastIp)
  /\ (forall s,
        In [] (split_on dot s) ->
        IsValidBroadcastIpAddress s = InvalidBroadcastIp)
  /\ (forall x y,
        In [] (split_on dot (x ++ [dot; dot] ++ y))
        /\ In [] (split_on dot (dot :: y))
        /\ In [] (split_on dot (x ++ [dot]))).
Proof.
  repeat apply conj.
  - intros a b c d Ha Hb Hc Hd.
    apply IsValidBroadcastIpAddress_Success.
    rewrite split_on_dotted by assumption.
    split; [reflexivity|].
    repeat constructor; now apply decimal_octet.
  - intros s o Hin Hdig Hbig.
    apply (IsValidBroadcastIpAddress_bad_octet s o Hin).
    rewrite (IsValidateIpOctet_digits o Hdig).
    intros (_ & _ & _ & Hv). lia.
  - intros s o Hin Hlen Hzero.
    apply (IsValidBroadcastIpAddress_bad_octet s o Hin).
    intros Hok. apply IsValidateIpOctet_shape in Hok as (_ & _ & Hz).
    now apply Hz.
  - intros s Hdots. apply IsValidBroadcastIpAddress_rejects.
    rewrite IsValidBroadcastIpAddress_Success. intros [Hlen _].
    unfold split_on in Hlen. rewrite split_from_length in Hlen.
    unfold count_dots in Hdots. lia.
  - intros s Hin.
    apply (IsValidBroadcastIpAddress_bad_octet s [] Hin).
    intros Hok. apply IsValidateIpOctet_shape in Hok as (Hlen & _).
    cbn [length] in Hlen. lia.
  - intros x y. unfold split_on. repeat apply conj.
    + cbn [app]. rewrite split_from_app_sep, split_from_sep.
      apply in_or_app. right. now left.
    + rewrite split_from_sep. now left.
    + rewrite split_from_app_sep. apply in_or_app. right. now left.
Qed.

End DottedQuadClaims.

Lemma IsValidBroadcastIpAddress_properties_witness :
  IsValidBroadcastIpAddress (L "192.168.0.255") = Success
  /\ IsValidBroadcastIpAddress (L "192.168.0.256") = InvalidBroadcastIp
  /\ IsValidBroadcastIpAddress (L "192.168.00.255") = InvalidBroadcastIp
  /\ IsValidBroadcastIpAddress (L "192.168.0") = InvalidBroadcastIp
  /\ IsValidBroadcastIpAddress (L "192..168.0") = InvalidBroadcastIp.
Proof.
  destruct IsValidBroadcastIpAddress_properties
    as (Hcanon & Hrange & Hzero & Hdots & Hempty & _).
  repeat apply conj.
  - apply (Hcanon 192 168 0 255)%nat; lia.
  - apply (Hrange _ (L "256")); [vm_compute; tauto | reflexivity | reflexivity].
  - apply (Hzero _ (L "00")); [vm_compute; tauto | vm_compute; lia | reflexivity].
  - apply Hdots. vm_compute. lia.
  - apply Hempty. vm_compute. tauto.
Defined.

(** ** MAC validation *)

Lemma IsValidMacAddress_loop_codes s n :
  forall i,
    IsValidMacAddress_loop s n i = Success
    \/ IsValidMacAddress_loop s n i = InvalidMacAddress.
Proof.
  induction n as [|n IH]; intros i; cbn [IsValidMacAddress_loop]; [auto|].
  repeat match goal with
         | |- context [if ?b then _ else _] => destruct b
         end; auto.
Qed.

Lemma IsValidMacAddress_codes s :
  IsValidMacAddress s = Success \/ IsValidMacAddress s = InvalidMacAddress.
Proof.
  unfold IsValidMacAddress.
  destruct ((length s =? 0)%nat || (MAC_ADDRESS_LENGTH <? length s)%nat); auto.
  apply IsValidMacAddress_loop_codes.
Qed.

(** What [IsValidMacAddress] accepts: the strings of one to eighteen
    characters whose characters are hyphens at the indices 2, 5, 8, 11
    and 14 and hexadecimal digits elsewhere. *)
Lemma IsValidMacAddress_loop_Success s n :
  forall i,
    IsValidMacAddress_loop s n i = Success
    <-> forall j, (i <= j < i + n)%nat -> mac_position_ok s j = true.
Proof.
  induction n as [|n IH]; intros i; cbn [IsValidMacAddress_loop].
  - split; [intros _ j Hj; lia | reflexivity].
  - assert (Hstep : (forall j, (i <= j < i + S n)%nat ->
                                mac_position_ok s j = true)
                    <-> mac_position_ok s i = true
                        /\ forall j, (S i <= j < S i + n)%nat ->
                                     mac_position_ok s j = true).
    { split.
      - intros H. split; [apply H; lia | intros j Hj; apply H; lia].
      - intros [Hi H] j Hj.
        destruct (Nat.eq_dec j i) as [->|]; [exact Hi | apply H; lia]. }
    rewrite Hstep. unfold mac_position_ok at 1.
    rewrite <- hex_class_ranges.
    destruct (existsb (Nat.eqb i) MAC_ADDRESS_SEPARATOR_INDICES).
    + unfold separator. destruct (at_ s i =? 45); cbn [negb].
      * rewrite IH. tauto.
      * split; [discriminate | intros [? _]; discriminate].
    + destruct (hex_class (at_ s i)); cbn [negb].
      * rewrite IH. tauto.
      * split; [discriminate | intros [? _]; discriminate].
Qed.

Lemma IsValidMacAddress_Success s :
  IsValidMacAddress s = Success
  <-> (1 <= length s <= 18)%nat
      /\ forall j, (j < length s)%nat -> mac_position_ok s j = true.
Proof.
  unfold IsValidMacAddress, MAC_ADDRESS_LENGTH.
  destruct (Nat.eqb_spec (length s) 0) as [H0|H0]; cbn [orb].
  { split; [discriminate | lia]. }
  destruct (Nat.ltb_spec 18 (length s)).
  { split; [discriminate | lia]. }
  rewrite IsValidMacAddress_loop_Success. split.
  - intros Hall. split; [lia|]. intros j Hj. apply Hall. lia.
  - intros [_ Hall] j Hj. apply Hall. lia.
Qed.

(** Every string matched by the regular expression passes
    [IsValidMacAddress]. *)
Lemma IsValidMacAddress_accepts_format s :
  mac_regex s = true -> IsValidMacAddress s = Success.
Proof.
  intros Hs.
  destruct (mac_regex_inv s Hs)
    as (a0 & a1 & b0 & b1 & c0 & c1 & d0 & d1 & e0 & e1 & f0 & f1 & -> & HF).
  now apply IsValidMacAddress_mac_text.
Qed.

(** C2 (the code departs from the claim).  [IsValidMacAddress] accepts
    strings that the regular expression does not match: the one-character
    string ["0"], and an 18-character string; on the first of them the
    assertion of [ParseMacAddress] on the result of [swscanf_s] fails,
    and the program built with its assertions is aborted there. *)
Theorem IsValidMacAddress_accepts_outside_format :
  mac_regex (L "0") = false
  /\ IsValidMacAddress (L "0") = Success
  /\ ParseMacAddress_asserts (L "0") = false
  /\ ParseMacAddress (build := windows_debug) (L "0") MacAddress_zero
     = Aborted
  /\ mac_regex (L "00-11-22-AA-BB-CC0") = false
  /\ length (L "00-11-22-AA-BB-CC0") = 18%nat
  /\ IsValidMacAddress (L "00-11-22-AA-BB-CC0") = Success.
Proof. repeat split; vm_compute; reflexivity. Qed.

(** ** Error values *)

Section ErrorValues.

Context {build : BuildSetup}.

(** A unit the conversions take in a base has a value below the
    base. *)
Lemma is_digit_value base c :
  is_digit base c = true -> 0 <= digit_value c < base.
Proof.
  unfold is_digit, digit_value, digit_of, wide_zero.
  destruct (c <? 128).
  - repeat match goal with
           | |- context [if ?b then _ else _] => destruct b eqn:?
           end; try discriminate;
      intros H; apply Z.ltb_lt in H; bool_hyps; lia.
  - match goal with
    | |- context [find ?f ?l] => destruct (find f l) as [zero|] eqn:Hfind
    end; cbn [option_map]; [|discriminate].
    apply find_some in Hfind as [_ Hz].
    intros H. apply Z.ltb_lt in H. bool_hyps. lia.
Qed.

Lemma accumulate_digits_from digits :
  forallb (is_digit 10) digits = true ->
  forall acc, 0 <= acc ->
    0 <= fold_left (fun acc ch => acc * 10 + digit_value ch) digits acc.
Proof.
  induction digits as [|c r IH]; intros Hd acc Hacc; cbn [fold_left]; [lia|].
  cbn [forallb] in Hd. apply andb_true_iff in Hd as [Hc Hr].
  apply IH; [assumption|].
  pose proof (is_digit_value 10 c Hc). lia.
Qed.

Lemma accumulate_digits_nonneg digits :
  forallb (is_digit 10) digits = true -> 0 <= accumulate 10 digits.
Proof. intros H. now apply accumulate_digits_from. Qed.

Lemma span_spec p s a b :
  span p s = (a, b) ->
  s = a ++ b /\ forallb p a = true
  /\ (b = [] \/ exists c r, b = c :: r /\ p c = false).
Proof.
  revert a b. induction s as [|c r IH]; intros a b H; cbn [span] in H.
  - inversion H. auto.
  - destruct (p c) eqn:Hc.
    + destruct (span p r) as [a' b'] eqn:Hr. inversion H; subst.
      destruct (IH a' b eq_refl) as (-> & Ha & Hb).
      cbn [forallb]. rewrite Hc. auto.
    + inversion H; subst. repeat split; eauto.
Qed.

Lemma read_sign_spec s neg s' :
  read_sign s = (neg, s') ->
  exists sign, s = sign ++ s' /\ (sign = [] \/ sign = [43] \/ sign = [45]).
Proof.
  unfold read_sign. destruct s as [|c r].
  - inversion 1. exists []. auto.
  - destruct (Z.eqb_spec c 45) as [->|_].
    + inversion 1. exists [45]. auto.
    + destruct (Z.eqb_spec c 43) as [->|_]; inversion 1.
      * exists [43]. auto.
      * exists []. auto.
Qed.

Lemma c_str_no_nul buffer : List.Forall (fun c => (c =? 0) = false) (c_str buffer).
Proof.
  induction buffer as [|c r IH]; cbn [c_str]; [constructor|].
  destruct (c =? 0) eqn:Hc; constructor; assumption.
Qed.

(** The port of [LoadFromIni_port], when there is one, is a port
    number. *)
Lemma LoadFromIni_port_codes buffer :
  (exists port, LoadFromIni_port buffer = PortValue port /\ 1 <= port <= 65535)
  \/ LoadFromIni_port buffer = PortError InvalidPort.
Proof.
  unfold LoadFromIni_port.
  destruct (wcslen buffer =? 0)%nat; [auto|].
  unfold wcstoul.
  destruct (span iswspace (c_str buffer)) as [spaces s1].
  destruct (read_sign s1) as [neg s2].
  destruct (span (is_digit 10) s2) as [digits rest] eqn:Hspan.
  destruct digits as [|d0 digits]; [cbn; auto|].
  apply span_spec in Hspan as (_ & Hdigits & _).
  pose proof (accumulate_digits_nonneg _ Hdigits) as Hv.
  destruct (Z.ltb_spec ULONG_MAX (accumulate 10 (d0 :: digits))); [cbn; auto|].
  cbn [strto_errno strto_end strto_value].
  destruct (_ || _); [auto|].
  match goal with |- context [(?v =? 0) || _] => set (port := v) end.
  assert (Hport : 0 <= port).
  { subst port. destruct neg; [|assumption].
    apply Z.mod_pos_bound. unfold ULONG_MAX. lia. }
  destruct (Z.eqb_spec port 0); [auto|].
  destruct (Z.ltb_spec UINT16_MAX port); [auto|]. cbn [orb].
  left. exists port. unfold UINT16_MAX in *. split; [reflexivity | lia].
Qed.

End ErrorValues.

(** C5, counterexample.  The value returned for a wrong separator is the
    value returned for a character that is not a hexadecimal digit; the
    four ways an octet can be wrong give one value; a port of zero and a
    port above 65535 give one value. *)
Lemma validation_subcauses_share_one_value :
  IsValidMacAddress (L "00:11-22-AA-BB-CC") = InvalidMacAddress
  /\ IsValidMacAddress (L "0G-11-22-AA-BB-CC") = InvalidMacAddress
  /\ IsValidMacAddress (L "00:11-22-AA-BB-CC")
     = IsValidMacAddress (L "0G-11-22-AA-BB-CC")
  /\ IsValidateIpOctet (L "1234") = IsValidateIpOctet (L "1a")
  /\ IsValidateIpOctet (L "1a") = IsValidateIpOctet (L "01")
  /\ IsValidateIpOctet (L "01") = IsValidateIpOctet (L "256")
  /\ IsValidateIpOctet (L "256") = InvalidBroadcastIp
  /\ LoadFromIni_port (L "0") = LoadFromIni_port (L "65536")
  /\ LoadFromIni_port (L "65536") = PortError InvalidPort.
Proof. repeat split; vm_compute; reflexivity. Qed.

Section Families.

Context {build : BuildSetup}.

(** C5, as amended.  A validation failure carries the value of its
    family and nothing finer: every failure of the MAC validator is
    [InvalidMacAddress], every failure of the IPv4 validator and of the
    octet validator is [InvalidBroadcastIp], every failure on the port
    string is [InvalidPort]; the three values are pairwise distinct, also
    as integers. *)
Theorem validation_failures_by_family :
  (forall s,
      IsValidMacAddress s = Success \/ IsValidMacAddress s = InvalidMacAddress)
  /\ (forall o,
        IsValidateIpOctet o = Success
        \/ IsValidateIpOctet o = InvalidBroadcastIp)
  /\ (forall s,
        IsValidBroadcastIpAddress s = Success
        \/ IsValidBroadcastIpAddress s = InvalidBroadcastIp)
  /\ (forall buffer,
        (exists port, LoadFromIni_port buffer = PortValue port)
        \/ LoadFromIni_port buffer = PortError InvalidPort)
  /\ InvalidMacAddress <> InvalidBroadcastIp
  /\ InvalidBroadcastIp <> InvalidPort
  /\ InvalidMacAddress <> InvalidPort
  /\ to_underlying InvalidMacAddress <> to_underlying InvalidBroadcastIp
  /\ to_underlying InvalidBroadcastIp <> to_underlying InvalidPort
  /\ to_underlying InvalidMacAddress <> to_underlying InvalidPort.
Proof.
  repeat apply conj; try discriminate.
  - apply IsValidMacAddress_codes.
  - apply IsValidateIpOctet_codes.
  - apply IsValidBroadcastIpAddress_codes.
  - intros buffer.
    destruct (LoadFromIni_port_codes buffer) as [(port & H & _) | H]; eauto.
Qed.

End Families.

(** ** The assertions of [SetupBroadcastAddress] *)

Lemma SetupBroadcastAddress_asserts_below_65535 ip port :
  ip <> [] -> 1 <= port <= 65534 ->
  SetupBroadcastAddress_asserts ip port = true.
Proof.
  intros Hip Hport. unfold SetupBroadcastAddress_asserts, UINT16_MAX.
  destruct ip; [contradiction|]. cbn [length Nat.eqb negb andb].
  destruct (Z.eqb_spec port 0); [lia|].
  destruct (Z.ltb_spec port 65535); [reflexivity | lia].
Qed.

(** C6 (the code departs from the claim).  The port string ["65535"]
    is accepted and stored by [LoadFromIni], [main] passes it on, and at
    this port the second assertion of [SetupBroadcastAddress],
    [port != 0 && port < UINT16_MAX], is false: the program built with
    its assertions is aborted once the socket is configured; built
    without them it sends the packet to that port. *)
Theorem SetupBroadcastAddress_asserts_fail_at_65535 :
  LoadFromIni_port (L "65535") = PortValue 65535
  /\ fst (LoadFromIni machine_port_65535 WolConfig.default) = Success
  /\ GetPort (snd (LoadFromIni machine_port_65535 WolConfig.default)) = 65535
  /\ GetBroadcastIp (snd (LoadFromIni machine_port_65535 WolConfig.default))
     = example_ip
  /\ SendMagicPacket_asserts example_mac example_ip 65535 = true
  /\ SetupBroadcastAddress_asserts example_ip 65535 = false
  /\ SetupBroadcastAddress_asserts example_ip 65534 = true
  /\ SetupBroadcastAddress (build := windows_debug) working_network
       example_ip 65535 = Aborted
  /\ main (build := windows_debug) machine_port_65535 working_network
       enter_alone
     = (AssertionFailed,
        {| calls := [ call_WSAStartup; call_socket; call_WSAIoctl 256;
                      call_setsockopt 256 ];
           mRefCount := 1 |})
  /\ fst (main (build := windows_release) machine_port_65535 working_network
            enter_alone)
     = Exits (to_underlying Success).
Proof. repeat split; vm_compute; reflexivity. Qed.

(** ** [WolErrorCodeToString] *)

(** C9.  For every enumerator of [WolErrorCode] the switch of
    [WolErrorCodeToString] selects a case, so the [assert(false)] after
    it is not reached, and the string returned is not empty. *)
Theorem WolErrorCodeToString_exhaustive :
  forall result : WolErrorCode,
    WolErrorCodeToString_asserts result = true
    /\ WolErrorCodeToString result <> []
    /\ In result all_WolErrorCode.
Proof.
  intros result.
  destruct result; (split; [|split]);
    solve [ vm_compute; reflexivity | vm_compute; discriminate
          | cbn; tauto ].
Qed.

(** ** The port string *)

Lemma span_app_stop p a c r :
  forallb p a = true -> p c = false -> span p (a ++ c :: r) = (a, c :: r).
Proof.
  intros Ha Hc. induction a as [|x a IH]; cbn [app span].
  - now rewrite Hc.
  - cbn [forallb] in Ha. apply andb_true_iff in Ha as [Hx Ha].
    rewrite Hx, IH by assumption. reflexivity.
Qed.

Lemma c_str_app_nonzero a b :
  List.Forall (fun c => (c =? 0) = false) a -> c_str (a ++ b) = a ++ c_str b.
Proof.
  induction 1 as [|c r Hc _ IH]; cbn [app c_str]; [reflexivity|].
  now rewrite Hc, IH.
Qed.

Section PortString.

Context {build : BuildSetup}.

Lemma digits_no_nul digits :
  forallb digit_class digits = true ->
  List.Forall (fun c => (c =? 0) = false) digits.
Proof.
  induction digits as [|c r IH]; intros H; [constructor|].
  cbn [forallb] in H. apply andb_true_iff in H as [Hc Hr].
  constructor; [apply (digit_not_nul _ (digit_class_facts c Hc)) | auto].
Qed.

Lemma forallb_digit_class_converts digits :
  forallb digit_class digits = true -> forallb (is_digit 10) digits = true.
Proof.
  rewrite !forallb_forall. intros H c Hc.
  apply (digit_converts _ (digit_class_facts c (H c Hc))).
Qed.

(** A numeric prefix followed by a character that the conversion does
    not take as a digit. *)
Lemma LoadFromIni_port_trailing digits c garbage :
  digits <> [] -> forallb digit_class digits = true ->
  is_digit 10 c = false -> c <> 0 ->
  LoadFromIni_port (digits ++ c :: garbage) = PortError InvalidPort.
Proof.
  intros Hne Hdigits Hc Hnul.
  unfold LoadFromIni_port, wcslen.
  rewrite c_str_app_nonzero by (now apply digits_no_nul).
  cbn [c_str]. destruct (Z.eqb_spec c 0) as [|_]; [contradiction|].
  destruct digits as [|d0 digits]; [contradiction|].
  cbn [app length Nat.eqb].
  pose proof Hdigits as Hall.
  cbn [forallb] in Hdigits. apply andb_true_iff in Hdigits as [Hd0 _].
  destruct (digit_class_facts d0 Hd0) as [_ _ Hspace Hminus Hplus _ _ _ _].
  unfold wcstoul.
  rewrite span_head_false by assumption.
  unfold read_sign. rewrite Hminus, Hplus.
  change (d0 :: digits ++ c :: c_str garbage)
    with ((d0 :: digits) ++ c :: c_str garbage).
  rewrite span_app_stop
    by (try apply forallb_digit_class_converts; assumption).
  cbn [app].
  destruct (Z.ltb_spec ULONG_MAX (accumulate 10 (d0 :: digits)));
    [reflexivity|].
  cbn [strto_errno strto_end strto_value].
  replace (length (d0 :: digits ++ c :: c_str garbage)
           - length (d0 :: digits ++ c :: c_str garbage)
           + length (d0 :: digits))%nat
    with (length (d0 :: digits)) by lia.
  assert (Hat : at_ (d0 :: digits ++ c :: c_str garbage) (length (d0 :: digits))
                = c).
  { unfold at_.
    change (d0 :: digits ++ c :: c_str garbage)
      with ((d0 :: digits) ++ c :: c_str garbage).
    now rewrite app_nth2, Nat.sub_diag by lia. }
  rewrite Hat.
  destruct (Z.eqb_spec c 0); [contradiction|].
  cbn [length Nat.eqb negb orb]. reflexivity.
Qed.

End PortString.

(** C4 (the code departs from the claim).  The port string is handed to
    [wcstoul] without the test on every character that the sibling
    [IsValidateIpOctet] makes before it converts: a sign and leading
    white space are taken, and a negative number is negated in the
    unsigned type.  So [Port=-4294967287], which is no port number, is
    stored as port 9 and [LoadFromIni] returns [Success], in debug and
    release builds and with either library; the same string is rejected
    as an octet.  Trailing characters are rejected as the claim says. *)
Theorem LoadFromIni_port_takes_signed_numbers :
  forallb digit_class (L "-4294967287") = false
  /\ LoadFromIni_port (build := windows_debug) (L "-4294967287")
     = PortValue 9
  /\ LoadFromIni_port (build := c_locale_build true) (L "-4294967287")
     = PortValue 9
  /\ LoadFromIni machine_negative_port WolConfig.default
     = (Success,
        {| mMacAddress := example_mac;
           mBroadcastIp := example_ip;
           mPort := 9 |})
  /\ LoadFromIni_port (L "+9") = PortValue 9
  /\ LoadFromIni_port (L " 9") = PortValue 9
  /\ IsValidateIpOctet (L "+9") = InvalidBroadcastIp
  /\ IsValidateIpOctet (L " 9") = InvalidBroadcastIp
  /\ IsValidateIpOctet (L "-9") = InvalidBroadcastIp
  /\ LoadFromIni_port (L "0") = PortError InvalidPort
  /\ LoadFromIni_port (L "65535") = PortValue 65535
  /\ LoadFromIni_port (L "65536") = PortError InvalidPort
  /\ LoadFromIni_port (L "9abc") = PortError InvalidPort.
Proof. repeat split; vm_compute; reflexivity. Qed.
(** ** The calls made by [SendMagicPacket] *)

Section SenderCalls.

Context {build : BuildSetup}.

Lemma SendMagicPacket_calls net mac ip port :
  let trace := calls (snd (SendMagicPacket net mac ip port Net.initial)) in
  forall c, In c trace ->
    match c with
    | call_socket => exists rest, trace = call_WSAStartup :: call_socket :: rest
    | call_sendto _ buf len to =>
        (exists macBytes,
            ParseMacAddress mac MacAddress_zero = Returned macBytes
            /\ buf = CreateMagicPacket macBytes MagicPacket_zero)
        /\ len = length buf /\ sin_port to = htons port
        /\ exists rest, trace = call_WSAStartup :: call_socket :: rest
    | _ => True
    end.
Proof.
  intros trace. subst trace. unfold SendMagicPacket.
  destruct (negb (assert (negb (length mac =? 0)%nat)));
    [intros c []|].
  destruct (negb (assert (negb (length ip =? 0)%nat)));
    [intros c []|].
  destruct (negb (assert (negb (port =? 0))));
    [intros c []|].
  destruct (ParseMacAddress mac MacAddress_zero) as [macBytes|];
    [|intros c []].
  remember (CreateMagicPacket macBytes MagicPacket_zero) as packet
    eqn:Hpacket.
  unfold WsaGuard_Initialize, InitializeSocket, Socket_Set, Socket_Close,
    SetupBroadcastAddress, WsaGuard_destroy, Socket_destroy, Socket_Close,
    record, Net.initial.
  cbn [calls mRefCount app].
  repeat match goal with
         | |- context [if ?b then _ else _] => destruct b
         | |- context [decide ?P] => destruct (decide P)
         | |- context [match ?x with Some _ => _ | None => _ end] => destruct x
         | _ => progress cbn [calls mRefCount app fst snd negb]
         end.
  all: intros c Hin; cbn [In] in Hin;
    repeat match goal with
           | H : _ \/ _ |- _ => destruct H as [H|H]
           end;
    try contradiction; subst c; try exact I; cbn [sin_port]; eauto 10.
Qed.

Lemma magic_layout_lookup mac :
  length mac = 6%nat ->
  (forall i, (i < 6)%nat -> magic_layout mac !! i = Some 0xFF)
  /\ (forall k j, (k < 16)%nat -> (j < 6)%nat ->
        magic_layout mac !! (6 + 6 * k + j)%nat = mac !! j).
Proof.
  intros Hm.
  do 7 (destruct mac as [|? mac]; try discriminate).
  split.
  - intros i Hi. do 6 (destruct i as [|i]; [reflexivity|]). lia.
  - intros k j Hk Hj.
    do 16 (destruct k as [|k];
           [do 6 (destruct j as [|j]; [reflexivity|]); lia|]).
    lia.
Qed.

(** C1.  For every valid MAC string, [ParseMacAddress] returns, in every
    build, the values of the six groups of the string, and the packet
    built from the parsed address has exactly 102 bytes; bytes 0..5 are
    0xFF; for every [k] in 0..15 the bytes 6+6k .. 11+6k are the six
    parsed bytes; the packet is the header followed by the sixteen
    copies and nothing else, and whenever [SendMagicPacket] sends, it
    sends this buffer with length 102. *)
Theorem magic_packet_of_valid_mac (s : wstring) :
  mac_regex s = true ->
  let mac := map group_value (split_on dash s) in
  let packet := CreateMagicPacket mac MagicPacket_zero in
  ParseMacAddress s MacAddress_zero = Returned mac
  /\ length packet = 102%nat
  /\ (forall i, (i < 6)%nat -> packet !! i = Some 0xFF)
  /\ (forall k j, (k < 16)%nat -> (j < 6)%nat ->
        packet !! (6 + 6 * k + j)%nat = mac !! j)
  /\ length mac = 6%nat
  /\ packet = magic_layout mac
  /\ (forall net ip port sock buf len to,
        In (call_sendto sock buf len to)
           (calls (snd (SendMagicPacket net s ip port Net.initial))) ->
        buf = packet /\ len = 102%nat).
Proof.
  intros Hs mac packet.
  assert (Hparse : ParseMacAddress s MacAddress_zero = Returned mac
                   /\ length mac = 6%nat).
  { subst mac.
    destruct (mac_regex_inv s Hs)
      as (a0 & a1 & b0 & b1 & c0 & c1 & d0 & d1 & e0 & e1 & f0 & f1 & -> & HF).
    destruct (ParseMacAddress_mac_text _ _ _ _ _ _ _ _ _ _ _ _ HF
                MacAddress_zero eq_refl) as [_ ->].
    rewrite (split_mac_text _ _ _ _ _ _ _ _ _ _ _ _ HF).
    split; reflexivity. }
  destruct Hparse as [Hparse Hlen].
  assert (Hpacket : packet = magic_layout mac)
    by (apply CreateMagicPacket_layout; exact Hlen).
  destruct (magic_layout_lookup mac Hlen) as [Hhead Hbody].
  assert (Hsize : length packet = 102%nat).
  { rewrite Hpacket. unfold magic_layout.
    do 7 (destruct mac as [|? mac]; try discriminate). reflexivity. }
  repeat apply conj; try assumption; try (rewrite Hpacket; assumption).
  intros net ip port sock buf len to Hin.
  destruct (SendMagicPacket_calls net s ip port _ Hin)
    as ((macBytes & Hm & Hb) & Hl & _).
  rewrite Hparse in Hm. injection Hm as <-.
  subst buf len. split; [reflexivity | exact Hsize].
Qed.

End SenderCalls.

Lemma magic_packet_of_valid_mac_witness :
  mac_regex example_mac = true
  /\ length (CreateMagicPacket (map group_value (split_on dash example_mac))
               MagicPacket_zero) = 102%nat.
Proof.
  split; [reflexivity|].
  exact (proj1 (proj2 (magic_packet_of_valid_mac example_mac eq_refl))).
Defined.

(** ** [LoadFromIni] *)

Section Loading.

Context {build : BuildSetup}.

Lemma c_str_take_c_str n value :
  c_str (firstn n (c_str value)) = firstn n (c_str value).
Proof. apply c_str_id, Forall_take, c_str_no_nul. Qed.

(** [LoadFromIni] once the configuration file has been found, in terms
    of the three values read from it. *)
Lemma LoadFromIni_found sys this :
  config_file_found sys ->
  LoadFromIni sys this =
    if (length (configured_mac sys) =? 0)%nat then
      (FailedToReadMacAddress, this)
    else if (length (configured_ip sys) =? 0)%nat then
      (FailedToReadBroadcastIp,
       {| mMacAddress := configured_mac sys;
          mBroadcastIp := mBroadcastIp this;
          mPort := mPort this |})
    else if (length (configured_port sys) =? 0)%nat then
      (FailedToReadPort,
       {| mMacAddress := configured_mac sys;
          mBroadcastIp := configured_ip sys;
          mPort := mPort this |})
    else
      match LoadFromIni_port (configured_port sys) with
      | PortError e =>
          (e, {| mMacAddress := configured_mac sys;
                 mBroadcastIp := configured_ip sys;
                 mPort := mPort this |})
      | PortValue port =>
          let loaded := {| mMacAddress := configured_mac sys;
                           mBroadcastIp := configured_ip sys;
                           mPort := port mod (UINT16_MAX + 1) |} in
          if decide (IsConfigurationValid loaded <> Success)
          then (IsConfigurationValid loaded, WolConfig.default)
          else (Success, loaded)
      end.
Proof.
  unfold config_file_found, LoadFromIni, configured_mac, configured_ip,
    configured_port.
  destruct (GetConfigFilePath sys) as [code path]. cbn [fst snd].
  intros [-> Hexists].
  destruct (decide (Success <> Success)); [congruence|].
  rewrite Hexists. cbn [negb].
  unfold GetPrivateProfileStringW. cbn [fst snd].
  rewrite !c_str_take_c_str.
  cbn [mMacAddress mBroadcastIp mPort]. reflexivity.
Qed.

Lemma length_zero_nil {A} (l : list A) : (length l =? 0)%nat = true <-> l = [].
Proof. destruct l; cbn; split; congruence. Qed.

Lemma length_zero_cons {A} (l : list A) : l <> [] -> (length l =? 0)%nat = false.
Proof. destruct l; [contradiction | reflexivity]. Qed.

(** With an empty MAC value [LoadFromIni] fails and leaves the object
    as it was. *)
Lemma LoadFromIni_empty_mac sys this :
  configured_mac sys = [] ->
  fst (LoadFromIni sys this) <> Success
  /\ snd (LoadFromIni sys this) = this
  /\ (config_file_found sys ->
      fst (LoadFromIni sys this) = FailedToReadMacAddress).
Proof.
  intros Hmac. split; [|split].
  - unfold LoadFromIni, configured_mac in *.
    destruct (GetConfigFilePath sys) as [code path]. cbn [fst snd] in *.
    destruct (decide (code <> Success)); [assumption|].
    destruct (fs_exists sys path); cbn [negb fst]; [|discriminate].
    unfold GetPrivateProfileStringW in *. cbn [fst snd] in *.
    rewrite c_str_take_c_str in Hmac. rewrite Hmac. cbn. discriminate.
  - unfold LoadFromIni, configured_mac in *.
    destruct (GetConfigFilePath sys) as [code path]. cbn [fst snd] in *.
    destruct (decide (code <> Success)); [reflexivity|].
    destruct (fs_exists sys path); cbn [negb snd]; [|reflexivity].
    unfold GetPrivateProfileStringW in *. cbn [fst snd] in *.
    rewrite c_str_take_c_str in Hmac. rewrite Hmac. reflexivity.
  - intros Hfound. rewrite LoadFromIni_found by assumption.
    now rewrite Hmac.
Qed.

(** C10.  When the configuration file is found and the MAC and IP
    values are not empty: if the port is accepted and the final
    validation, [IsConfigurationValid], fails, [LoadFromIni] returns its
    code and the three getters give the defaults (empty, empty, 0); if
    the port string is rejected, or is empty, the error is returned with
    the MAC and IP values just read still stored, and the port field as
    it was. *)
Theorem LoadFromIni_fields_after_error
    (sys : WolConfig.Environment) (this : WolConfig.t) :
  config_file_found sys ->
  configured_mac sys <> [] ->
  configured_ip sys <> [] ->
  let stored := {| mMacAddress := configured_mac sys;
                   mBroadcastIp := configured_ip sys;
                   mPort := mPort this |} in
  (forall port,
      configured_port sys <> [] ->
      LoadFromIni_port (configured_port sys) = PortValue port ->
      let loaded := {| mMacAddress := configured_mac sys;
                       mBroadcastIp := configured_ip sys;
                       mPort := port |} in
      IsConfigurationValid loaded <> Success ->
      fst (LoadFromIni sys this) = IsConfigurationValid loaded
      /\ GetMacAddress (snd (LoadFromIni sys this)) = []
      /\ GetBroadcastIp (snd (LoadFromIni sys this)) = []
      /\ GetPort (snd (LoadFromIni sys this)) = 0)
  /\ (forall e,
        configured_port sys <> [] ->
        LoadFromIni_port (configured_port sys) = PortError e ->
        LoadFromIni sys this = (e, stored))
  /\ (configured_port sys = [] ->
      LoadFromIni sys this = (FailedToReadPort, stored)).
Proof.
  intros Hfound Hmac Hip stored.
  rewrite (LoadFromIni_found sys this Hfound).
  rewrite (length_zero_cons _ Hmac), (length_zero_cons _ Hip).
  split; [|split].
  - intros port Hport Hvalue loaded Hinvalid.
    rewrite (length_zero_cons _ Hport), Hvalue. cbv zeta.
    assert (Hmod : port mod (UINT16_MAX + 1) = port).
    { destruct (LoadFromIni_port_codes (configured_port sys))
        as [(p & Hp & Hr) | He]; [|congruence].
      assert (p = port) by congruence. subst p.
      unfold UINT16_MAX. apply Z.mod_small. lia. }
    rewrite Hmod. fold loaded.
    destruct (decide (IsConfigurationValid loaded <> Success));
      [|contradiction].
    repeat split.
  - intros e Hport Herror.
    now rewrite (length_zero_cons _ Hport), Herror.
  - intros Hport. now rewrite Hport.
Qed.

End Loading.

Lemma LoadFromIni_fields_after_error_witness :
  (fst (LoadFromIni machine_bad_mac config_in_use) = InvalidMacAddress
   /\ GetMacAddress (snd (LoadFromIni machine_bad_mac config_in_use)) = []
   /\ GetBroadcastIp (snd (LoadFromIni machine_bad_mac config_in_use)) = []
   /\ GetPort (snd (LoadFromIni machine_bad_mac config_in_use)) = 0)
  /\ LoadFromIni machine_bad_port config_in_use
     = (InvalidPort,
        {| mMacAddress := example_mac;
           mBroadcastIp := example_ip;
           mPort := 7 |}).
Proof.
  split.
  - assert (Hfound : config_file_found machine_bad_mac)
      by (split; reflexivity).
    assert (Hmac : configured_mac machine_bad_mac <> [])
      by (vm_compute; discriminate).
    assert (Hip : configured_ip machine_bad_mac <> [])
      by (vm_compute; discriminate).
    destruct (LoadFromIni_fields_after_error machine_bad_mac config_in_use
                Hfound Hmac Hip) as (Hreset & _ & _).
    refine (Hreset 9 _ _ _); vm_compute; congruence.
  - assert (Hfound : config_file_found machine_bad_port)
      by (split; reflexivity).
    assert (Hmac : configured_mac machine_bad_port <> [])
      by (vm_compute; discriminate).
    assert (Hip : configured_ip machine_bad_port <> [])
      by (vm_compute; discriminate).
    destruct (LoadFromIni_fields_after_error machine_bad_port config_in_use
                Hfound Hmac Hip) as (_ & Hkept & _).
    refine (Hkept InvalidPort _ _); vm_compute; congruence.
Defined.

(** ** [main] *)

Section MainEmptyMac.

Context {build : BuildSetup}.

(** C7.  When the MAC address read from the configuration is empty,
    [LoadFromIni] fails ([FailedToReadMacAddress] once the file has been
    found), [main] returns that code, which is not zero, and makes no
    WinSock call at all: no socket is created and nothing is sent.  The
    validator also rejects the empty string.  In [SendMagicPacket] a
    socket is created, and a datagram sent, only after [WSAStartup].
    This holds in every build and whatever waits on the standard
    input. *)
Theorem main_empty_mac_no_network :
  (forall sys net stdin,
      configured_mac sys = [] ->
      fst (LoadFromIni sys WolConfig.default) <> Success
      /\ (config_file_found sys ->
          fst (LoadFromIni sys WolConfig.default) = FailedToReadMacAddress)
      /\ fst (main sys net stdin)
         = Exits (to_underlying (fst (LoadFromIni sys WolConfig.default)))
      /\ fst (main sys net stdin) <> Exits (to_underlying Success)
      /\ calls (snd (main sys net stdin)) = [])
  /\ IsValidMacAddress [] = InvalidMacAddress
  /\ (forall net mac ip port c,
        In c (calls (snd (SendMagicPacket net mac ip port Net.initial))) ->
        is_network_call c = true ->
        exists rest,
          calls (snd (SendMagicPacket net mac ip port Net.initial))
          = call_WSAStartup :: call_socket :: rest).
Proof.
  split; [|split; [reflexivity|]].
  - intros sys net stdin Hmac.
    destruct (LoadFromIni_empty_mac sys WolConfig.default Hmac)
      as (Hfail & _ & Hcode).
    unfold main.
    destruct (LoadFromIni sys WolConfig.default) as [code config].
    cbn [fst] in *.
    destruct (decide (code <> Success)); [|contradiction].
    cbn [fst snd calls Net.initial].
    repeat split; try assumption.
    destruct code; solve [discriminate | congruence].
  - intros net mac ip port c Hin Hnet.
    pose proof (SendMagicPacket_calls net mac ip port c Hin) as H.
    destruct c; try discriminate; cbv zeta in H.
    + exact H.
    + destruct H as (_ & _ & _ & H). exact H.
Qed.

End MainEmptyMac.

Lemma main_empty_mac_no_network_witness :
  configured_mac machine_empty_mac = []
  /\ fst (main machine_empty_mac working_network ten_characters)
     = Exits (to_underlying FailedToReadMacAddress)
  /\ calls (snd (main machine_empty_mac working_network ten_characters)) = [].
Proof.
  split; [reflexivity|].
  destruct main_empty_mac_no_network as (Hmain & _ & _).
  destruct (Hmain machine_empty_mac working_network ten_characters eq_refl)
    as (_ & Hcode & Hexit & _ & Hcalls).
  split; [|exact Hcalls].
  rewrite Hexit, (Hcode (conj eq_refl eq_refl)). reflexivity.
Defined.

(* ================================================================== *)
(** * Further properties of the validators *)
(* ================================================================== *)

Section MacAcceptance.

Context {build : BuildSetup}.

(** X1.  [IsValidMacAddress] returns [Success] exactly on the strings of
    one to eighteen characters that have a hyphen at each of the indices
    2, 5, 8, 11, 14 they reach and a hexadecimal digit at every other
    index; on strings of seventeen characters this is the format
    [XX-XX-XX-XX-XX-XX]. *)
Theorem IsValidMacAddress_accepted_strings :
  (forall s,
      IsValidMacAddress s = Success
      <-> (1 <= length s <= 18)%nat
          /\ forall j, (j < length s)%nat -> mac_position_ok s j = true)
  /\ (forall s,
        length s = 17%nat ->
        (IsValidMacAddress s = Success <-> mac_regex s = true)).
Proof.
  split; [exact IsValidMacAddress_Success|].
  intros s Hlen. split; [|apply IsValidMacAddress_accepts_format].
  intros Hok. apply IsValidMacAddress_Success in Hok as [_ Hpos].
  rewrite Hlen in Hpos.
  do 18 (destruct s as [|? s]; try discriminate).
  pose proof (Hpos 0%nat ltac:(lia)) as P0.
  pose proof (Hpos 1%nat ltac:(lia)) as P1.
  pose proof (Hpos 2%nat ltac:(lia)) as P2.
  pose proof (Hpos 3%nat ltac:(lia)) as P3.
  pose proof (Hpos 4%nat ltac:(lia)) as P4.
  pose proof (Hpos 5%nat ltac:(lia)) as P5.
  pose proof (Hpos 6%nat ltac:(lia)) as P6.
  pose proof (Hpos 7%nat ltac:(lia)) as P7.
  pose proof (Hpos 8%nat ltac:(lia)) as P8.
  pose proof (Hpos 9%nat ltac:(lia)) as P9.
  pose proof (Hpos 10%nat ltac:(lia)) as P10.
  pose proof (Hpos 11%nat ltac:(lia)) as P11.
  pose proof (Hpos 12%nat ltac:(lia)) as P12.
  pose proof (Hpos 13%nat ltac:(lia)) as P13.
  pose proof (Hpos 14%nat ltac:(lia)) as P14.
  pose proof (Hpos 15%nat ltac:(lia)) as P15.
  pose proof (Hpos 16%nat ltac:(lia)) as P16.
  clear Hpos Hlen.
  unfold mac_position_ok in *.
  cbn [existsb Nat.eqb orb MAC_ADDRESS_SEPARATOR_INDICES at_ nth] in *.
  unfold mac_regex. cbn [dash_groups].
  rewrite P0, P1, P2, P3, P4, P5, P6, P7, P8, P9, P10, P11, P12, P13, P14,
    P15, P16.
  reflexivity.
Qed.

End MacAcceptance.

Lemma IsValidMacAddress_accepted_strings_witness :
  length example_mac = 17%nat
  /\ (IsValidMacAddress example_mac = Success <-> mac_regex example_mac = true).
Proof.
  split; [reflexivity|].
  exact (proj2 IsValidMacAddress_accepted_strings example_mac eq_refl).
Defined.

(** ** Octets and dotted quads as numerals *)

Lemma wstring_eqb_eq a : forall b, wstring_eqb a b = true -> a = b.
Proof.
  induction a as [|x a IH]; intros [|y b] H; cbn [wstring_eqb] in H;
    try discriminate; [reflexivity|].
  apply andb_true_iff in H as [Hx Hr]. apply Z.eqb_eq in Hx.
  f_equal; auto.
Qed.

Section Numerals.

Context {build : BuildSetup}.

Lemma digit_class_in_digit_chars c : digit_class c = true -> In c digit_chars.
Proof.
  unfold digit_class, digit_chars. intros H.
  apply existsb_exists in H as (d & Hin & Heq).
  apply Z.eqb_eq in Heq. now subst d.
Qed.

Lemma digit_strings_upto3_complete o :
  (1 <= length o <= 3)%nat -> forallb digit_class o = true ->
  In o digit_strings_upto3.
Proof.
  intros Hlen Hdig. unfold digit_strings_upto3.
  destruct o as [|a [|b [|c [|d o]]]]; cbn [length] in Hlen; try lia;
    cbn [forallb] in Hdig;
    repeat match goal with
           | H : (_ && _) = true |- _ => apply andb_true_iff in H; destruct H
           end;
    repeat match goal with
           | H : digit_class _ = true |- _ =>
               apply digit_class_in_digit_chars in H
           end.
  - apply in_or_app. left. apply in_map_iff. eauto.
  - apply in_or_app. right. apply in_or_app. left.
    apply in_flat_map. exists a. split; [assumption|].
    apply in_map_iff. eauto.
  - apply in_or_app. right. apply in_or_app. right.
    apply in_flat_map. exists a. split; [assumption|].
    apply in_flat_map. exists b. split; [assumption|].
    apply in_map_iff. eauto.
Qed.

(** Every octet of ASCII characters that passes is the numeral of a
    number up to 255. *)
Lemma IsValidateIpOctet_numeral o :
  forallb ascii_unit o = true ->
  IsValidateIpOctet o = Success ->
  exists n, (n <= 255)%nat /\ o = decimal n.
Proof.
  intros Hascii Hok.
  pose proof (proj1 (IsValidateIpOctet_ascii o Hascii) Hok)
    as (Hlen & Hdig & _).
  assert (Hall : forallb octet_numeral_check digit_strings_upto3 = true)
    by (vm_compute; reflexivity).
  pose proof (proj1 (forallb_forall _ _) Hall o
                (digit_strings_upto3_complete o Hlen Hdig)) as Hcheck.
  unfold octet_numeral_check in Hcheck.
  rewrite (bool_decide_eq_true_2 _ Hok) in Hcheck. cbn [implb] in Hcheck.
  apply existsb_exists in Hcheck as (n & Hin & Heq).
  apply in_seq in Hin. apply wstring_eqb_eq in Heq.
  exists n. split; [lia | assumption].
Qed.

(** X2.  Whatever the build, [IsValidateIpOctet] accepts the decimal
    numeral, without leading zeros, of every number from 0 to 255, and
    an octet it accepts has one to three units that the library
    classifies as digits; among the strings of ASCII characters it
    accepts exactly these numerals.  (Above ASCII what is accepted
    depends on the library.) *)
Theorem IsValidateIpOctet_accepts_numerals :
  (forall n, (n <= 255)%nat -> IsValidateIpOctet (decimal n) = Success)
  /\ (forall o,
        IsValidateIpOctet o = Success ->
        (1 <= length o <= 3)%nat /\ forallb iswdigit o = true)
  /\ (forall o,
        forallb ascii_unit o = true ->
        (IsValidateIpOctet o = Success
         <-> exists n, (n <= 255)%nat /\ o = decimal n)).
Proof.
  split; [|split].
  - intros n Hn. now apply decimal_octet.
  - intros o Hok. apply IsValidateIpOctet_shape in Hok as (? & ? & _). auto.
  - intros o Hascii. split; [now apply IsValidateIpOctet_numeral|].
    intros (n & Hn & ->). now apply decimal_octet.
Qed.

Lemma join_cons sep x segments :
  segments <> [] -> join sep (x :: segments) = x ++ sep :: join sep segments.
Proof. destruct segments; [contradiction | reflexivity]. Qed.

Lemma join_split_from s :
  forall current, join dot (split_from dot current s) = current ++ s.
Proof.
  induction s as [|c r IH]; intros current; cbn [split_from].
  - cbn [join]. now rewrite app_nil_r.
  - destruct (Z.eqb_spec c dot) as [->|_].
    + rewrite join_cons, IH; [reflexivity|].
      intros Hnil. pose proof (split_from_length dot [] r) as Hlen.
      rewrite Hnil in Hlen. discriminate.
    + rewrite IH. now rewrite <- app_assoc.
Qed.

Lemma join_split_on s : join dot (split_on dot s) = s.
Proof. unfold split_on. now rewrite join_split_from. Qed.

Lemma split_from_forallb p s :
  forall current,
    forallb p current = true -> forallb p s = true ->
    List.Forall (fun o => forallb p o = true) (split_from dot current s).
Proof.
  induction s as [|c r IH]; intros current Hcur Hs; cbn [split_from].
  - now constructor.
  - cbn [forallb] in Hs. apply andb_true_iff in Hs as [Hc Hr].
    destruct (c =? dot).
    + constructor; [assumption|]. now apply IH.
    + apply IH; [|assumption].
      rewrite forallb_app, Hcur. cbn [forallb]. now rewrite Hc.
Qed.

(** X3.  Whatever the build, [IsValidBroadcastIpAddress] accepts the
    canonical dotted form [a.b.c.d] of every four numbers between 0 and
    255 and returns [InvalidBroadcastIp] on every string it does not
    accept; among the strings of ASCII characters it accepts exactly
    these forms (decimal, no leading zeros, nothing before or
    after). *)
Theorem IsValidBroadcastIpAddress_accepts_dotted_quads :
  (forall a b c d,
      (a <= 255)%nat -> (b <= 255)%nat -> (c <= 255)%nat -> (d <= 255)%nat ->
      IsValidBroadcastIpAddress (dotted a b c d) = Success)
  /\ (forall s,
        IsValidBroadcastIpAddress s = Success
        \/ IsValidBroadcastIpAddress s = InvalidBroadcastIp)
  /\ (forall s,
        forallb ascii_unit s = true ->
        (IsValidBroadcastIpAddress s = Success
         <-> exists a b c d,
               (a <= 255)%nat /\ (b <= 255)%nat /\ (c <= 255)%nat
               /\ (d <= 255)%nat /\ s = dotted a b c d)).
Proof.
  assert (Hcanon : forall a b c d,
    (a <= 255)%nat -> (b <= 255)%nat -> (c <= 255)%nat -> (d <= 255)%nat ->
    IsValidBroadcastIpAddress (dotted a b c d) = Success).
  { intros a b c d Ha Hb Hc Hd.
    apply IsValidBroadcastIpAddress_Success.
    rewrite split_on_dotted by assumption.
    split; [reflexivity|].
    repeat constructor; now apply decimal_octet. }
  split; [exact Hcanon|]. split; [apply IsValidBroadcastIpAddress_codes|].
  intros s Hascii. split.
  - rewrite IsValidBroadcastIpAddress_Success. intros [Hlen Hall].
    pose proof (join_split_on s) as Hjoin.
    pose proof (split_from_forallb ascii_unit s [] eq_refl Hascii) as Hsegs.
    fold (split_on dot s) in Hsegs.
    destruct (split_on dot s) as [|o1 [|o2 [|o3 [|o4 [|o5 rest]]]]];
      try discriminate.
    forall_facts Hall. forall_facts Hsegs.
    repeat match goal with
           | H : IsValidateIpOctet ?o = Success,
             G : forallb ascii_unit ?o = true |- _ =>
               apply (IsValidateIpOctet_numeral o G) in H;
               destruct H as (? & ? & ->); clear G
           end.
    match goal with
    | Hj : join dot [decimal ?a; decimal ?b; decimal ?c; decimal ?d] = _
      |- _ => exists a, b, c, d
    end.
    repeat (split; [assumption|]).
    rewrite <- Hjoin. reflexivity.
  - intros (a & b & c & d & Ha & Hb & Hc & Hd & ->). now apply Hcanon.
Qed.

(** ** Port strings made of digits *)

Lemma span_all p s : forallb p s = true -> span p s = (s, []).
Proof.
  induction s as [|c r IH]; intros H; cbn [span]; [reflexivity|].
  cbn [forallb] in H. apply andb_true_iff in H as [Hc Hr].
  now rewrite Hc, IH.
Qed.

Lemma accumulate_decimal_value digits :
  forallb digit_class digits = true ->
  accumulate 10 digits = decimal_value digits.
Proof.
  unfold accumulate, decimal_value. generalize 0.
  induction digits as [|c r IH]; intros acc H; cbn [fold_left]; [reflexivity|].
  cbn [forallb] in H. apply andb_true_iff in H as [Hc Hr].
  rewrite (digit_value_eq _ (digit_class_facts c Hc)).
  replace (acc * 10 + (c - 48)) with (10 * acc + (c - 48)) by lia.
  now apply IH.
Qed.

(** X4.  On a non-empty string of the decimal digits [0] to [9], of any
    length and with any number of leading zeros, the port part of
    [LoadFromIni] gives, in every build, the number the digits denote
    when it lies between 1 and 65535, and [InvalidPort] otherwise. *)
Theorem LoadFromIni_port_on_digits (digits : wstring) :
  digits <> [] -> forallb digit_class digits = true ->
  LoadFromIni_port digits
  = if (1 <=? decimal_value digits) && (decimal_value digits <=? 65535)
    then PortValue (decimal_value digits)
    else PortError InvalidPort.
Proof.
  intros Hne Hdig.
  pose proof (accumulate_digits_nonneg _
                (forallb_digit_class_converts _ Hdig)) as Hnonneg.
  rewrite <- (accumulate_decimal_value _ Hdig).
  set (v := accumulate 10 digits) in *.
  unfold LoadFromIni_port, wcslen.
  rewrite (c_str_id digits) by (now apply digits_no_nul).
  destruct digits as [|d0 digits]; [contradiction|].
  cbn [length Nat.eqb].
  pose proof Hdig as Hall.
  cbn [forallb] in Hdig. apply andb_true_iff in Hdig as [Hd0 _].
  destruct (digit_class_facts d0 Hd0) as [_ _ Hspace Hminus Hplus _ _ _ _].
  unfold wcstoul.
  rewrite span_head_false by assumption.
  unfold read_sign. rewrite Hminus, Hplus.
  rewrite (span_all _ _ (forallb_digit_class_converts _ Hall)). fold v.
  unfold ULONG_MAX, UINT16_MAX.
  destruct (Z.ltb_spec 4294967295 v).
  - cbn [strto_errno].
    destruct (Z.leb_spec 1 v); [|lia].
    destruct (Z.leb_spec v 65535); [lia | reflexivity].
  - cbn [strto_errno strto_end strto_value].
    replace (length (d0 :: digits) - length (d0 :: digits)
             + length (d0 :: digits))%nat
      with (length (d0 :: digits)) by lia.
    assert (Hat : at_ (d0 :: digits) (length (d0 :: digits)) = 0)
      by (unfold at_; apply nth_overflow; lia).
    rewrite Hat. cbn [length Nat.eqb Z.eqb negb orb].
    destruct (Z.eqb_spec v 0); destruct (Z.ltb_spec 65535 v);
      destruct (Z.leb_spec 1 v); destruct (Z.leb_spec v 65535);
      cbn [orb andb]; try lia; reflexivity.
Qed.

End Numerals.

Lemma IsValidateIpOctet_accepts_numerals_witness :
  forallb ascii_unit (L "255") = true
  /\ IsValidateIpOctet (L "255") = Success
  /\ exists n, (n <= 255)%nat /\ L "255" = decimal n.
Proof.
  split; [reflexivity|].
  pose proof (proj2 (proj2 IsValidateIpOctet_accepts_numerals)
                (L "255") eq_refl) as Hiff.
  assert (Hok : IsValidateIpOctet (L "255") = Success)
    by (apply Hiff; exists 255%nat; split; [lia | reflexivity]).
  split; [exact Hok | exact (proj1 Hiff Hok)].
Defined.

Lemma IsValidBroadcastIpAddress_accepts_dotted_quads_witness :
  forallb ascii_unit example_ip = true
  /\ IsValidBroadcastIpAddress example_ip = Success.
Proof.
  split; [reflexivity|].
  apply (proj2 (proj2 IsValidBroadcastIpAddress_accepts_dotted_quads)
           example_ip eq_refl).
  exists 192%nat, 168%nat, 0%nat, 255%nat.
  repeat split; lia.
Defined.

Lemma LoadFromIni_port_on_digits_witness :
  L "00009" <> []
  /\ forallb digit_class (L "00009") = true
  /\ LoadFromIni_port (L "00009") = PortValue 9.
Proof.
  split; [discriminate|]. split; [reflexivity|].
  exact (LoadFromIni_port_on_digits (L "00009")
           ltac:(discriminate) eq_refl).
Defined.

(* ================================================================== *)
(** * Further properties of [WolConfig] *)
(* ================================================================== *)

Section LoadResults.

Context {build : BuildSetup}.

Lemma c_str_c_str buffer : c_str (c_str buffer) = c_str buffer.
Proof. apply c_str_id, c_str_no_nul. Qed.

(** X5.  [GetConfigFilePath] fails with [FailedToGetExecutionPath]
    exactly when the module path is empty or has 260 characters or more;
    whenever it fails the path it gives back is empty; when it succeeds
    the path is [config.ini] appended to the non-empty directory of the
    executable. *)
Theorem GetConfigFilePath_results (env : WolConfig.Environment) :
  let name := c_str (module_file_name env) in
  (fst (GetConfigFilePath env) <> Success -> snd (GetConfigFilePath env) = [])
  /\ (fst (GetConfigFilePath env) = FailedToGetExecutionPath
      <-> name = [] \/ (260 <= length name)%nat)
  /\ (fst (GetConfigFilePath env) = Success ->
      exists exeDir,
        fs_parent_path env name = Some exeDir /\ exeDir <> []
        /\ snd (GetConfigFilePath env) = fs_append env exeDir CONFIG_FILE_NAME).
Proof.
  intros name. unfold GetConfigFilePath, GetModuleFileNameW, MAX_PATH_LENGTH.
  fold name.
  destruct (Nat.ltb_spec (length name) 260) as [Hfit|Hlong].
  - destruct (Nat.eqb_spec (length name) 0) as [Hzero|Hpos].
    + cbn [orb fst snd].
      repeat split; try discriminate; auto.
      intros _. left. now destruct name.
    + destruct (Nat.leb_spec 260 (length name)) as [|_]; [lia|].
      cbn [orb]. subst name. rewrite c_str_c_str.
      destruct (fs_parent_path env (c_str (module_file_name env)))
        as [[|c exeDir]|]; cbn [fst snd].
      * repeat split; try discriminate; auto.
        intros [Hnil | Hlen]; [|lia]. rewrite Hnil in Hpos. now cbn in Hpos.
      * repeat split; try discriminate; try contradiction.
        -- intros [Hnil | Hlen]; [|lia]. rewrite Hnil in Hpos. now cbn in Hpos.
        -- intros _. eexists. repeat split. discriminate.
      * repeat split; try discriminate; auto.
        intros [Hnil | Hlen]; [|lia]. rewrite Hnil in Hpos. now cbn in Hpos.
  - cbn [Nat.eqb Nat.leb orb fst snd].
    repeat split; try discriminate; auto.
Qed.

End LoadResults.

Lemma GetConfigFilePath_results_witness :
  fst (GetConfigFilePath machine_long_path) = FailedToGetExecutionPath
  /\ snd (GetConfigFilePath machine_long_path) = [].
Proof.
  destruct (GetConfigFilePath_results machine_long_path)
    as (Hempty & Hlong & _).
  assert (Hcode : fst (GetConfigFilePath machine_long_path)
                  = FailedToGetExecutionPath).
  { apply Hlong. right. vm_compute. lia. }
  split; [exact Hcode|].
  apply Hempty. rewrite Hcode. discriminate.
Defined.

Section LoadResults2.

Context {build : BuildSetup}.

Lemma GetConfigFilePath_codes env :
  In (fst (GetConfigFilePath env))
     [Success; FailedToGetExecutionPath; InvalidExecutionPath;
      UnexpectedException].
Proof.
  unfold GetConfigFilePath.
  destruct (GetModuleFileNameW env MAX_PATH_LENGTH) as [len buffer].
  destruct ((len =? 0)%nat || (MAX_PATH_LENGTH <=? len)%nat);
    [cbn [fst In]; tauto|].
  destruct (fs_parent_path env (c_str buffer)) as [[|c exeDir]|];
    cbn [fst In]; tauto.
Qed.

(** Without the configuration file [LoadFromIni] does not touch the
    object. *)
Lemma LoadFromIni_not_found sys this :
  ~ config_file_found sys ->
  snd (LoadFromIni sys this) = this
  /\ In (fst (LoadFromIni sys this))
        [FailedToGetExecutionPath; InvalidExecutionPath; UnexpectedException;
         ConfigFileNotFound].
Proof.
  unfold config_file_found, LoadFromIni.
  pose proof (GetConfigFilePath_codes sys) as Hcodes.
  destruct (GetConfigFilePath sys) as [code path]. cbn [fst snd] in *.
  intros Hnot.
  destruct (decide (code <> Success)) as [Hne|He]; cbn [fst snd].
  - split; [reflexivity|]. cbn [In] in *. intuition congruence.
  - assert (Hcode : code = Success)
      by (destruct (decide (code = Success)); tauto).
    destruct (fs_exists sys path) eqn:Hex; cbn [negb fst snd].
    + exfalso. apply Hnot. split; [assumption | reflexivity].
    + split; [reflexivity|]. cbn [In]. tauto.
Qed.

Lemma config_file_found_dec sys : config_file_found sys \/ ~ config_file_found sys.
Proof.
  unfold config_file_found.
  destruct (decide (fst (GetConfigFilePath sys) = Success));
    destruct (fs_exists sys (snd (GetConfigFilePath sys))); intuition congruence.
Qed.

Lemma IsConfigurationValid_Success cfg :
  IsConfigurationValid cfg = Success
  <-> IsValidMacAddress (mMacAddress cfg) = Success
      /\ IsValidBroadcastIpAddress (mBroadcastIp cfg) = Success.
Proof.
  unfold IsConfigurationValid.
  destruct (decide (IsValidMacAddress (mMacAddress cfg) <> Success)) as [Hm|Hm].
  { split; [congruence | tauto]. }
  destruct (decide (IsValidBroadcastIpAddress (mBroadcastIp cfg) <> Success))
    as [Hi|Hi].
  { split; [congruence | tauto]. }
  destruct (decide (IsValidMacAddress (mMacAddress cfg) = Success));
    destruct (decide (IsValidBroadcastIpAddress (mBroadcastIp cfg) = Success));
    tauto.
Qed.

Lemma IsConfigurationValid_codes cfg :
  In (IsConfigurationValid cfg) [Success; InvalidMacAddress; InvalidBroadcastIp].
Proof.
  unfold IsConfigurationValid.
  destruct (IsValidMacAddress_codes (mMacAddress cfg)) as [-> | ->];
    destruct (IsValidBroadcastIpAddress_codes (mBroadcastIp cfg)) as [-> | ->];
    repeat match goal with |- context [decide ?P] => destruct (decide P) end;
    cbn; tauto.
Qed.

(** When [LoadFromIni] succeeds: the file was found, the port string
    was accepted, and the object holds the three values. *)
Lemma LoadFromIni_Success_inv sys this cfg :
  LoadFromIni sys this = (Success, cfg) ->
  config_file_found sys
  /\ exists port,
       LoadFromIni_port (configured_port sys) = PortValue port
       /\ 1 <= port <= 65535
       /\ cfg = loaded_config sys port
       /\ IsValidMacAddress (configured_mac sys) = Success
       /\ IsValidBroadcastIpAddress (configured_ip sys) = Success.
Proof.
  intros Hload.
  destruct (config_file_found_dec sys) as [Hfound|Hnot].
  2:{ destruct (LoadFromIni_not_found sys this Hnot) as [_ Hin].
      rewrite Hload in Hin. cbn in Hin. intuition discriminate. }
  split; [assumption|].
  rewrite (LoadFromIni_found sys this Hfound) in Hload.
  destruct (length (configured_mac sys) =? 0)%nat; [discriminate|].
  destruct (length (configured_ip sys) =? 0)%nat; [discriminate|].
  destruct (length (configured_port sys) =? 0)%nat; [discriminate|].
  destruct (LoadFromIni_port_codes (configured_port sys))
    as [(port & Hport & Hrange) | Herr].
  2:{ rewrite Herr in Hload. discriminate. }
  rewrite Hport in Hload. cbv zeta in Hload.
  assert (Hmod : port mod (UINT16_MAX + 1) = port)
    by (unfold UINT16_MAX; apply Z.mod_small; lia).
  rewrite Hmod in Hload.
  fold (loaded_config sys port) in Hload.
  destruct (decide (IsConfigurationValid (loaded_config sys port) <> Success))
    as [Hbad|Hgood].
  { inversion Hload. congruence. }
  inversion Hload. subst cfg.
  assert (Hvalid : IsConfigurationValid (loaded_config sys port) = Success)
    by (destruct (decide (IsConfigurationValid (loaded_config sys port)
                          = Success)); tauto).
  apply IsConfigurationValid_Success in Hvalid as [Hm Hi].
  exists port. repeat split; assumption || lia.
Qed.

(** X6.  [LoadFromIni] returns [Success] exactly when the configuration
    file is found, the port string is accepted and the MAC and IP values
    read pass their validators; the object then holds exactly these three
    values, whatever it held before, and they satisfy the three
    assertions that open [SendMagicPacket]. *)
Theorem LoadFromIni_Success_iff
    (sys : WolConfig.Environment) (this cfg : WolConfig.t) :
  (LoadFromIni sys this = (Success, cfg)
   <-> config_file_found sys
       /\ exists port,
            LoadFromIni_port (configured_port sys) = PortValue port
            /\ cfg = loaded_config sys port
            /\ IsValidMacAddress (configured_mac sys) = Success
            /\ IsValidBroadcastIpAddress (configured_ip sys) = Success)
  /\ (LoadFromIni sys this = (Success, cfg) ->
      IsValidMacAddress (GetMacAddress cfg) = Success
      /\ IsValidBroadcastIpAddress (GetBroadcastIp cfg) = Success
      /\ 1 <= GetPort cfg <= 65535
      /\ SendMagicPacket_asserts (GetMacAddress cfg) (GetBroadcastIp cfg)
           (GetPort cfg) = true).
Proof.
  split; [split|].
  - intros Hload.
    destruct (LoadFromIni_Success_inv sys this cfg Hload)
      as (Hfound & port & Hport & _ & Hcfg & Hm & Hi).
    split; [assumption|]. exists port. auto.
  - intros (Hfound & port & Hport & -> & Hm & Hi).
    rewrite (LoadFromIni_found sys this Hfound).
    assert (Hmac : configured_mac sys <> [])
      by (intros E; rewrite E in Hm; discriminate).
    assert (Hip : configured_ip sys <> [])
      by (intros E; rewrite E in Hi; discriminate).
    assert (Hp : configured_port sys <> [])
      by (intros E; rewrite E in Hport; discriminate).
    rewrite (length_zero_cons _ Hmac), (length_zero_cons _ Hip),
      (length_zero_cons _ Hp), Hport.
    cbv zeta.
    assert (Hmod : port mod (UINT16_MAX + 1) = port).
    { destruct (LoadFromIni_port_codes (configured_port sys))
        as [(p & Hp' & Hr) | He]; [|congruence].
      assert (p = port) by congruence. subst p.
      unfold UINT16_MAX. apply Z.mod_small. lia. }
    rewrite Hmod. fold (loaded_config sys port).
    assert (Hvalid : IsConfigurationValid (loaded_config sys port) = Success)
      by (apply IsConfigurationValid_Success; split; assumption).
    destruct (decide (IsConfigurationValid (loaded_config sys port) <> Success));
      [contradiction | reflexivity].
  - intros Hload.
    destruct (LoadFromIni_Success_inv sys this cfg Hload)
      as (_ & port & _ & Hrange & -> & Hm & Hi).
    unfold GetMacAddress, GetBroadcastIp, GetPort, loaded_config.
    cbn [mMacAddress mBroadcastIp mPort].
    repeat split; try assumption; try lia.
    unfold SendMagicPacket_asserts.
    destruct (configured_mac sys); [discriminate|].
    destruct (configured_ip sys); [discriminate|].
    cbn [length Nat.eqb negb andb].
    destruct (Z.eqb_spec port 0); [lia | reflexivity].
Qed.

End LoadResults2.

Lemma LoadFromIni_Success_iff_witness :
  LoadFromIni machine_scenario config_in_use
  = (Success, loaded_config machine_scenario 9)
  /\ SendMagicPacket_asserts example_mac example_ip 9 = true.
Proof.
  assert (Hload : LoadFromIni machine_scenario config_in_use
                  = (Success, loaded_config machine_scenario 9))
    by reflexivity.
  split; [exact Hload|].
  exact (proj2 (proj2 (proj2
    (proj2 (LoadFromIni_Success_iff machine_scenario config_in_use _) Hload)))).
Defined.

Section LoadCases.

Context {build : BuildSetup}.

Lemma stored_value_absent_default sys key default :
  stored_value sys key = None ->
  snd (GetPrivateProfileStringW sys section key default MAX_BUFFER_SIZE
         (snd (GetConfigFilePath sys)))
  = firstn 255 (c_str default).
Proof.
  unfold stored_value, GetPrivateProfileStringW. intros ->. reflexivity.
Qed.

Lemma IsConfigurationValid_with_valid_ip cfg :
  IsValidBroadcastIpAddress (mBroadcastIp cfg) = Success ->
  IsConfigurationValid cfg = Success
  \/ IsConfigurationValid cfg = InvalidMacAddress.
Proof.
  intros Hip. unfold IsConfigurationValid. rewrite Hip.
  destruct (IsValidMacAddress_codes (mMacAddress cfg)) as [-> | ->];
    repeat match goal with |- context [decide ?P] => destruct (decide P) end;
    auto; congruence.
Qed.

(** Every code [LoadFromIni] can return. *)
Lemma LoadFromIni_codes sys this :
  In (fst (LoadFromIni sys this))
     [Success; FailedToGetExecutionPath; InvalidExecutionPath;
      UnexpectedException; ConfigFileNotFound; FailedToReadMacAddress;
      FailedToReadBroadcastIp; FailedToReadPort; InvalidPort;
      InvalidMacAddress; InvalidBroadcastIp].
Proof.
  destruct (config_file_found_dec sys) as [Hfound|Hnot].
  2:{ destruct (LoadFromIni_not_found sys this Hnot) as [_ Hin].
      cbn [In] in *. intuition auto. }
  rewrite (LoadFromIni_found sys this Hfound).
  destruct (length (configured_mac sys) =? 0)%nat; [cbn [fst In]; tauto|].
  destruct (length (configured_ip sys) =? 0)%nat; [cbn [fst In]; tauto|].
  destruct (length (configured_port sys) =? 0)%nat; [cbn [fst In]; tauto|].
  destruct (LoadFromIni_port_codes (configured_port sys))
    as [(port & -> & _) | ->]; [|cbn [fst In]; tauto].
  cbv zeta.
  match goal with
  | |- context [IsConfigurationValid ?c] =>
      pose proof (IsConfigurationValid_codes c) as Hc;
      destruct (decide (IsConfigurationValid c <> Success))
  end; cbn [fst In] in *; intuition auto.
Qed.

(** X7.  What a missing key does, once the configuration file is found:
    without [MacAddress] the result is [FailedToReadMacAddress]; without
    [BroadcastIp] the address [255.255.255.255] is used, which passes
    the validator, so neither error on the broadcast address can be
    returned; without [Port] there is no default and, the two addresses
    being non-empty, the result is [FailedToReadPort]. *)
Theorem LoadFromIni_missing_keys
    (sys : WolConfig.Environment) (this : WolConfig.t) :
  config_file_found sys ->
  (stored_value sys (L "MacAddress") = None ->
   fst (LoadFromIni sys this) = FailedToReadMacAddress)
  /\ (stored_value sys (L "BroadcastIp") = None ->
      configured_ip sys = L "255.255.255.255"
      /\ IsValidBroadcastIpAddress (configured_ip sys) = Success
      /\ fst (LoadFromIni sys this) <> FailedToReadBroadcastIp
      /\ fst (LoadFromIni sys this) <> InvalidBroadcastIp)
  /\ (stored_value sys (L "Port") = None ->
      configured_mac sys <> [] -> configured_ip sys <> [] ->
      fst (LoadFromIni sys this) = FailedToReadPort).
Proof.
  intros Hfound. rewrite (LoadFromIni_found sys this Hfound).
  split; [|split].
  - intros Habsent.
    assert (Hmac : configured_mac sys = []).
    { unfold configured_mac.
      now rewrite (stored_value_absent_default _ _ _ Habsent). }
    now rewrite Hmac.
  - intros Habsent.
    assert (Hip : configured_ip sys = L "255.255.255.255").
    { unfold configured_ip.
      now rewrite (stored_value_absent_default _ _ _ Habsent). }
    assert (Hvalid : IsValidBroadcastIpAddress (configured_ip sys) = Success)
      by (rewrite Hip; vm_compute; reflexivity).
    split; [assumption|]. split; [assumption|].
    destruct (length (configured_mac sys) =? 0)%nat;
      [cbn [fst]; split; discriminate|].
    destruct (length (configured_ip sys) =? 0)%nat eqn:Hlen.
    { rewrite Hip in Hlen. discriminate. }
    destruct (length (configured_port sys) =? 0)%nat;
      [cbn [fst]; split; discriminate|].
    destruct (LoadFromIni_port_codes (configured_port sys))
      as [(port & -> & _) | ->]; [|cbn [fst]; split; discriminate].
    cbv zeta.
    match goal with
    | |- context [IsConfigurationValid ?c] =>
        pose proof (IsConfigurationValid_with_valid_ip c Hvalid) as Hc;
        destruct (decide (IsConfigurationValid c <> Success))
    end; cbn [fst]; destruct Hc as [Hc | Hc]; try rewrite Hc;
      split; discriminate.
  - intros Habsent Hmac Hip.
    assert (Hport : configured_port sys = []).
    { unfold configured_port.
      now rewrite (stored_value_absent_default _ _ _ Habsent). }
    now rewrite (length_zero_cons _ Hmac), (length_zero_cons _ Hip), Hport.
Qed.

End LoadCases.

Lemma LoadFromIni_missing_keys_witness :
  config_file_found machine_no_ip
  /\ LoadFromIni machine_no_ip WolConfig.default
     = (Success, loaded_config machine_no_ip 9)
  /\ configured_ip machine_no_ip = L "255.255.255.255"
  /\ fst (LoadFromIni machine_no_port WolConfig.default) = FailedToReadPort.
Proof.
  assert (Hfound : config_file_found machine_no_ip) by (split; reflexivity).
  assert (Hfound' : config_file_found machine_no_port) by (split; reflexivity).
  split; [exact Hfound|]. split; [reflexivity|]. split.
  - destruct (LoadFromIni_missing_keys machine_no_ip WolConfig.default Hfound)
      as (_ & Hip & _).
    exact (proj1 (Hip eq_refl)).
  - destruct (LoadFromIni_missing_keys machine_no_port WolConfig.default
                Hfound') as (_ & _ & Hport).
    apply Hport; [reflexivity | discriminate | discriminate].
Defined.

Section LoadCases2.

Context {build : BuildSetup}.

(** X8.  What [LoadFromIni] leaves in the object when it fails before
    the port is read: on a path error, a missing file or an empty MAC
    value the object is untouched; on an empty broadcast address the MAC
    address just read is already stored and the other two members are
    untouched. *)
Theorem LoadFromIni_early_failures
    (sys : WolConfig.Environment) (this : WolConfig.t) :
  (In (fst (LoadFromIni sys this))
      [FailedToGetExecutionPath; InvalidExecutionPath; UnexpectedException;
       ConfigFileNotFound; FailedToReadMacAddress] ->
   snd (LoadFromIni sys this) = this)
  /\ (fst (LoadFromIni sys this) = FailedToReadBroadcastIp ->
      snd (LoadFromIni sys this)
      = {| mMacAddress := configured_mac sys;
           mBroadcastIp := mBroadcastIp this;
           mPort := mPort this |}
      /\ configured_mac sys <> [] /\ configured_ip sys = []).
Proof.
  destruct (config_file_found_dec sys) as [Hfound|Hnot].
  2:{ destruct (LoadFromIni_not_found sys this Hnot) as [Hsame Hin].
      split; [auto|]. intros Hcode. rewrite Hcode in Hin.
      cbn [In] in Hin. intuition discriminate. }
  rewrite (LoadFromIni_found sys this Hfound).
  destruct (length (configured_mac sys) =? 0)%nat eqn:Hmac.
  { cbn [fst snd]. split; [reflexivity | discriminate]. }
  destruct (length (configured_ip sys) =? 0)%nat eqn:Hip.
  { cbn [fst snd]. split.
    - cbn [In]. intuition discriminate.
    - intros _. split; [reflexivity|]. split.
      + intros E. rewrite E in Hmac. discriminate.
      + now apply length_zero_nil. }
  destruct (length (configured_port sys) =? 0)%nat.
  { cbn [fst snd In]. split; [intuition discriminate | discriminate]. }
  destruct (LoadFromIni_port_codes (configured_port sys))
    as [(port & -> & _) | ->].
  2:{ cbn [fst snd In]. split; [intuition discriminate | discriminate]. }
  cbv zeta.
  match goal with
  | |- context [IsConfigurationValid ?c] =>
      pose proof (IsConfigurationValid_codes c) as Hc;
      destruct (decide (IsConfigurationValid c <> Success)) as [Hbad|]
  end; cbn [fst snd In] in *.
  - split; intros H; exfalso; intuition congruence.
  - split; [intuition discriminate | discriminate].
Qed.

End LoadCases2.

Lemma LoadFromIni_early_failures_witness :
  fst (LoadFromIni machine_empty_mac config_in_use) = FailedToReadMacAddress
  /\ snd (LoadFromIni machine_empty_mac config_in_use) = config_in_use.
Proof.
  split; [reflexivity|].
  apply (proj1 (LoadFromIni_early_failures machine_empty_mac config_in_use)).
  vm_compute. tauto.
Defined.

(* ================================================================== *)
(** * Further properties of the sender *)
(* ================================================================== *)

(** Decides a test [code != Success] on two known codes. *)
Ltac decide_code :=
  match goal with
  | |- context [decide (?a <> ?b)] =>
      let H := fresh "Hdec" in
      destruct (decide (a <> b)) as [H|H];
      [ try (exfalso; apply H; reflexivity)
      | try (exfalso; apply H; discriminate) ]
  end.

Section SenderOutcome.

Context {build : BuildSetup}.

(** [ParseMacAddress] on a zeroed array: it is stopped when an assertion
    is false, unless [NDEBUG] is defined, and returns the bytes
    otherwise. *)
Lemma ParseMacAddress_outcome mac :
  ParseMacAddress mac MacAddress_zero
  = if negb (assert (ParseMacAddress_asserts mac)) then Aborted
    else Returned (parsed_bytes mac).
Proof.
  unfold ParseMacAddress, ParseMacAddress_asserts, parsed_bytes, assert.
  destruct (ParseMacAddress_scan mac) as [scanResult tempValues].
  cbn [fst snd].
  destruct NDEBUG; destruct (negb (length mac =? 0)%nat);
    destruct (scanResult =? 6); reflexivity.
Qed.

(** The whole of [SendMagicPacket]: where an assertion stops it, and
    otherwise the code of the first step that fails and the calls of
    the path taken, followed by the destruction of the guard. *)
Lemma SendMagicPacket_outcome net mac ip port st :
  SendMagicPacket net mac ip port st
  = if negb (assert (SendMagicPacket_asserts mac ip port
                     && ParseMacAddress_asserts mac))
    then (Aborted, st)
    else if reaches_setup net
            && negb (assert (SetupBroadcastAddress_asserts ip port))
    then
      (Aborted,
       {| calls := calls st ++ setup_calls net;
          mRefCount := (mRefCount st + 1) mod ULLONG_MODULUS |})
    else
      (Returned (send_code net ip),
       WsaGuard_destroy
         {| calls := calls st ++ send_calls net (parsed_bytes mac) ip port;
            mRefCount :=
              if negb (WSAStartup_result net =? 0) then mRefCount st
              else (mRefCount st + 1) mod ULLONG_MODULUS |}).
Proof.
  unfold SendMagicPacket. rewrite ParseMacAddress_outcome.
  unfold SendMagicPacket_asserts, SetupBroadcastAddress_asserts, assert.
  destruct (negb (length mac =? 0)%nat);
    destruct (negb (length ip =? 0)%nat) eqn:Hip;
    destruct (negb (port =? 0)) eqn:Hport;
    destruct (ParseMacAddress_asserts mac);
    destruct NDEBUG eqn:Hndebug;
    cbn [orb andb negb]; try reflexivity.
  all: unfold reaches_setup, send_code, send_calls, datagram,
         WsaGuard_Initialize, InitializeSocket, Socket_Set,
         Socket_Set_asserts, SetupBroadcastAddress, address_converts,
         setup_calls, assert, Socket_destroy, Socket_Close, record;
       rewrite ?Hndebug, ?Hip, ?Hport; cbn [calls mRefCount orb andb negb];
       (destruct (WSAStartup_result net =? 0); cbn [negb fst snd andb];
        [|decide_code; reflexivity]);
       decide_code;
       (destruct (socket_result net =? INVALID_SOCKET) eqn:Hsock;
        cbn [fst snd negb andb orb];
        [decide_code; rewrite Z.eqb_refl; cbn [snd calls mRefCount];
         now rewrite <- !app_assoc|]);
       rewrite Z.eqb_refl; cbn [fst snd calls mRefCount];
       decide_code;
       (destruct (setsockopt_result net =? SOCKET_ERROR);
        cbn [negb andb fst snd calls mRefCount];
        [rewrite Hsock; cbn [snd calls mRefCount];
         now rewrite <- !app_assoc|]);
       try (destruct (port <? UINT16_MAX); cbn [negb andb orb];
            [|now rewrite <- !app_assoc]);
       rewrite Nat.eqb_refl; cbn [negb orb];
       (destruct (length (WideCharToMultiByte net ip) =? 0)%nat;
        cbn [negb andb orb];
        [decide_code; rewrite Hsock; cbn [snd calls mRefCount];
         now rewrite <- !app_assoc|]);
       (destruct (inet_pton net (c_str (WideCharToMultiByte net ip)));
        [ decide_code;
          destruct (sendto_result net =? SOCKET_ERROR);
          rewrite Hsock; cbn [snd calls mRefCount];
          now rewrite <- !app_assoc
        | decide_code; rewrite Hsock; cbn [snd calls mRefCount];
          now rewrite <- !app_assoc ]).
Qed.

Lemma send_code_Success net ip :
  send_code net ip = Success
  <-> WSAStartup_result net = 0
      /\ socket_result net <> INVALID_SOCKET
      /\ setsockopt_result net <> SOCKET_ERROR
      /\ address_converts net ip = true
      /\ sendto_result net <> SOCKET_ERROR.
Proof.
  unfold send_code.
  destruct (Z.eqb_spec (WSAStartup_result net) 0); cbn [negb];
    [|split; [discriminate | tauto]].
  destruct (Z.eqb_spec (socket_result net) INVALID_SOCKET);
    [split; [discriminate | tauto]|].
  destruct (Z.eqb_spec (setsockopt_result net) SOCKET_ERROR);
    [split; [discriminate | tauto]|].
  destruct (address_converts net ip); cbn [negb];
    [|split; [discriminate | intuition discriminate]].
  destruct (Z.eqb_spec (sendto_result net) SOCKET_ERROR);
    [split; [discriminate | tauto] | tauto].
Qed.

Lemma send_code_codes net ip :
  In (send_code net ip)
     [Success; WinsockInitializationFailed; SocketCreationFailed;
      BroadcastSetupFailed; PacketSendFailed].
Proof.
  unfold send_code.
  repeat match goal with
         | |- context [if ?b then _ else _] => destruct b
         end; cbn [In]; tauto.
Qed.

(** When [SendMagicPacket] is stopped and when it returns. *)
Lemma SendMagicPacket_ends net mac ip port st :
  (fst (SendMagicPacket net mac ip port st) = Aborted
   /\ NDEBUG = false /\ send_asserts net mac ip port = false)
  \/ (fst (SendMagicPacket net mac ip port st) = Returned (send_code net ip)
      /\ (NDEBUG = true \/ send_asserts net mac ip port = true)).
Proof.
  rewrite SendMagicPacket_outcome. unfold send_asserts, assert.
  destruct NDEBUG; cbn [orb negb andb]; [rewrite andb_false_r; auto|].
  destruct (SendMagicPacket_asserts mac ip port && ParseMacAddress_asserts mac);
    cbn [negb andb fst]; [|auto].
  destruct (reaches_setup net); cbn [andb implb]; [|auto].
  destruct (SetupBroadcastAddress_asserts ip port); cbn [negb fst]; auto.
Qed.

(** X9.  How [SendMagicPacket] ends.  It is stopped by a false
    assertion exactly when [NDEBUG] is not defined and one of the
    assertions it meets is false: one of the three that open it, one of
    [ParseMacAddress], or, when the call gets as far, one of
    [SetupBroadcastAddress].  Otherwise it returns: [Success] exactly
    when [WSAStartup] returns 0, a socket is created, [setsockopt] and
    [sendto] do not return [SOCKET_ERROR] and the address text is
    converted (any other result of [sendto], a short count included, is
    a success), and one of the four WinSock errors if not.  The code
    returned depends neither on the MAC string nor on the port. *)
Theorem SendMagicPacket_result
    (net : Net.Environment) (mac ip : wstring) (port : Z) (st : Net.State) :
  let outcome := fst (SendMagicPacket net mac ip port st) in
  (outcome = Aborted
   <-> NDEBUG = false /\ send_asserts net mac ip port = false)
  /\ (outcome = Returned Success
      <-> (NDEBUG = true \/ send_asserts net mac ip port = true)
          /\ WSAStartup_result net = 0
          /\ socket_result net <> INVALID_SOCKET
          /\ setsockopt_result net <> SOCKET_ERROR
          /\ address_converts net ip = true
          /\ sendto_result net <> SOCKET_ERROR)
  /\ (forall code,
        outcome = Returned code ->
        In code
           [Success; WinsockInitializationFailed; SocketCreationFailed;
            BroadcastSetupFailed; PacketSendFailed]
        /\ forall mac' port' st' code',
             fst (SendMagicPacket net mac' ip port' st') = Returned code' ->
             code' = code).
Proof.
  intros outcome. subst outcome.
  destruct (SendMagicPacket_ends net mac ip port st)
    as [(-> & Hn & Ha) | (-> & Hok)].
  - split; [tauto|]. split.
    + split; [discriminate|]. intros ([Hn' | Ha'] & _); congruence.
    + intros code Hcode. discriminate.
  - split.
    { split; [discriminate|]. intros [Hn Ha].
      destruct Hok; congruence. }
    split.
    + split.
      * intros Hcode. injection Hcode as Hcode.
        split; [exact Hok|]. now apply send_code_Success.
      * intros (_ & Hsteps). f_equal. now apply send_code_Success.
    + intros code Hcode. injection Hcode as <-.
      split; [apply send_code_codes|].
      intros mac' port' st' code' H'.
      destruct (SendMagicPacket_ends net mac' ip port' st')
        as [(Hab & _) | (Hret & _)]; congruence.
Qed.

End SenderOutcome.

Lemma SendMagicPacket_result_witness :
  send_asserts short_send_network example_mac example_ip 9 = true
  /\ fst (SendMagicPacket short_send_network example_mac example_ip 9
            Net.initial)
     = Returned Success.
Proof.
  split; [reflexivity|].
  apply (proj1 (proj2 (SendMagicPacket_result short_send_network example_mac
                         example_ip 9 Net.initial))).
  split; [right; reflexivity|].
  repeat split; try discriminate.
Defined.
(** ** The calls and the reference count of one [SendMagicPacket] *)

Lemma WsaGuard_destroy_calls st :
  exists cleanup,
    (cleanup = [] \/ cleanup = [call_WSACleanup])
    /\ calls (WsaGuard_destroy st) = calls st ++ cleanup
    /\ (cleanup = [call_WSACleanup]
        <-> (mRefCount st - 1) mod ULLONG_MODULUS = 0)
    /\ mRefCount (WsaGuard_destroy st) = (mRefCount st - 1) mod ULLONG_MODULUS.
Proof.
  unfold WsaGuard_destroy, record. cbn [mRefCount calls].
  destruct (Z.eqb_spec ((mRefCount st - 1) mod ULLONG_MODULUS) 0) as [E|E].
  - exists [call_WSACleanup]. cbn [calls mRefCount]. tauto.
  - exists []. cbn [calls mRefCount]. rewrite app_nil_r.
    split; [auto|]. split; [reflexivity|]. split; [|reflexivity].
    split; [discriminate | contradiction].
Qed.

Lemma guard_count_restored r :
  0 <= r < ULLONG_MODULUS ->
  ((r + 1) mod ULLONG_MODULUS - 1) mod ULLONG_MODULUS = r.
Proof.
  unfold ULLONG_MODULUS. intros Hr.
  destruct (Z.eq_dec r 18446744073709551615) as [->|Hne]; [reflexivity|].
  rewrite (Z.mod_small (r + 1)) by lia.
  replace (r + 1 - 1) with r by lia. apply Z.mod_small. lia.
Qed.

(** Closes the clauses on the outcomes that did not happen. *)
Ltac other_outcomes :=
  repeat split; try discriminate; auto; try (right; reflexivity);
  try (intros [?|?]; discriminate);
  try match goal with
      | H : _ = _ \/ _ = _ |- _ => destruct H; discriminate
      end.

Section SenderTrace.

Context {build : BuildSetup}.

(** X10.  What happened on the network, read off the way
    [SendMagicPacket] ended: after [WSAStartup] alone when the
    initialisation failed; after [socket] when no socket could be
    created, and then nothing is closed; otherwise the socket is
    configured, used for at most one [sendto] (when the code is
    [Success] or [PacketSendFailed]: the 102-byte packet of the parsed
    address, to the converted address and to [htons port]) and closed
    exactly once, after its last use.  [WSACleanup] comes last, if at
    all.  When an assertion stopped the call, either no call was made or
    the socket was configured; nothing is closed or cleaned up then. *)
Theorem SendMagicPacket_calls_by_code
    (net : Net.Environment) (mac ip : wstring) (port : Z) (st : Net.State) :
  let outcome := fst (SendMagicPacket net mac ip port st) in
  let s := socket_result net in
  let packet := CreateMagicPacket (parsed_bytes mac) MagicPacket_zero in
  exists cleanup new_calls,
    (cleanup = [] \/ cleanup = [call_WSACleanup])
    /\ calls (snd (SendMagicPacket net mac ip port st))
       = calls st ++ new_calls ++ cleanup
    /\ (outcome = Returned WinsockInitializationFailed ->
        new_calls = [call_WSAStartup])
    /\ (outcome = Returned SocketCreationFailed ->
        new_calls = [call_WSAStartup; call_socket])
    /\ (outcome = Returned BroadcastSetupFailed ->
        new_calls = [call_WSAStartup; call_socket; call_WSAIoctl s;
                     call_setsockopt s; call_closesocket s])
    /\ (outcome = Returned PacketSendFailed \/ outcome = Returned Success ->
        ParseMacAddress mac MacAddress_zero = Returned (parsed_bytes mac)
        /\ exists addr,
             inet_pton net (c_str (WideCharToMultiByte net ip)) = Some addr
             /\ new_calls
                = [call_WSAStartup; call_socket; call_WSAIoctl s;
                   call_setsockopt s;
                   call_sendto s packet 102
                     {| sin_family := AF_INET; sin_port := htons port;
                        sin_addr := addr |};
                   call_closesocket s])
    /\ (outcome = Aborted ->
        cleanup = []
        /\ (new_calls = []
            \/ new_calls = [call_WSAStartup; call_socket; call_WSAIoctl s;
                            call_setsockopt s])).
Proof.
  intros outcome s packet. subst outcome.
  rewrite SendMagicPacket_outcome, ParseMacAddress_outcome.
  destruct (negb (assert (SendMagicPacket_asserts mac ip port
                          && ParseMacAddress_asserts mac))) eqn:Hopen;
    cbn [fst snd].
  { exists [], []. rewrite !app_nil_r.
    other_outcomes. }
  assert (Hparse : negb (assert (ParseMacAddress_asserts mac)) = false).
  { unfold assert in *. destruct NDEBUG; [reflexivity|].
    cbn [orb] in *. destruct (ParseMacAddress_asserts mac); [reflexivity|].
    now rewrite andb_false_r in Hopen. }
  rewrite Hparse.
  destruct (reaches_setup net
            && negb (assert (SetupBroadcastAddress_asserts ip port)));
    cbn [fst snd calls].
  { exists [], (setup_calls net). rewrite !app_nil_r.
    other_outcomes. }
  match goal with
  | |- context [WsaGuard_destroy ?g] =>
      destruct (WsaGuard_destroy_calls g) as (cleanup & Hc & Hcalls & _ & _)
  end.
  cbn [calls] in Hcalls.
  exists cleanup, (send_calls net (parsed_bytes mac) ip port).
  split; [assumption|]. split.
  { rewrite Hcalls. now rewrite <- app_assoc. }
  unfold send_code, send_calls, datagram, address_converts. fold s packet.
  destruct (WSAStartup_result net =? 0); cbn [negb].
  2:{ other_outcomes. }
  destruct (s =? INVALID_SOCKET).
  { other_outcomes. }
  destruct (setsockopt_result net =? SOCKET_ERROR); cbn [negb andb app].
  { other_outcomes. }
  destruct (length (WideCharToMultiByte net ip) =? 0)%nat; cbn [negb andb app].
  { other_outcomes. }
  destruct (inet_pton net (c_str (WideCharToMultiByte net ip))) as [addr|];
    cbn [negb app].
  2:{ other_outcomes. }
  destruct (sendto_result net =? SOCKET_ERROR);
    (repeat split; try discriminate; exists addr; split; reflexivity).
Qed.

(** X11.  The static reference count over one [SendMagicPacket] that
    returns: when [WSAStartup] succeeds the count is the same after the
    call as before it, and [WSACleanup] is called exactly when the count
    was zero, that is when no other guard is alive; when [WSAStartup]
    fails the guard is destroyed all the same, so the count goes down by
    one without having gone up, wrapping around at zero.  When an
    assertion stops the call no destructor runs: the count is unchanged
    if no call was made, and has gone up by one if the socket was
    configured. *)
Theorem SendMagicPacket_reference_count
    (net : Net.Environment) (mac ip : wstring) (port : Z) (st : Net.State) :
  0 <= mRefCount st < ULLONG_MODULUS ->
  let outcome := fst (SendMagicPacket net mac ip port st) in
  let after := snd (SendMagicPacket net mac ip port st) in
  (outcome <> Aborted ->
   (WSAStartup_result net = 0 ->
    mRefCount after = mRefCount st
    /\ calls after
       = calls st ++ send_calls net (parsed_bytes mac) ip port
         ++ (if mRefCount st =? 0 then [call_WSACleanup] else []))
   /\ (WSAStartup_result net <> 0 ->
       mRefCount after = (mRefCount st - 1) mod ULLONG_MODULUS
       /\ (mRefCount st = 0 -> mRefCount after = ULLONG_MODULUS - 1)))
  /\ (outcome = Aborted ->
      after = st
      \/ after = {| calls := calls st ++ setup_calls net;
                    mRefCount := (mRefCount st + 1) mod ULLONG_MODULUS |}).
Proof.
  intros Hr outcome after. subst outcome after.
  rewrite SendMagicPacket_outcome.
  destruct (negb (assert (SendMagicPacket_asserts mac ip port
                          && ParseMacAddress_asserts mac)));
    cbn [fst snd]; [split; [contradiction | auto]|].
  destruct (reaches_setup net
            && negb (assert (SetupBroadcastAddress_asserts ip port)));
    cbn [fst snd]; [split; [contradiction | auto]|].
  split; [intros _ | discriminate].
  split.
  - intros Hok. rewrite Hok. cbn [Z.eqb negb].
    unfold WsaGuard_destroy, record. cbn [calls mRefCount].
    rewrite (guard_count_restored _ Hr).
    destruct (mRefCount st =? 0); cbn [calls mRefCount].
    + split; [reflexivity|]. now rewrite <- app_assoc.
    + split; [reflexivity|]. now rewrite app_nil_r.
  - intros Hfail.
    destruct (Z.eqb_spec (WSAStartup_result net) 0); [contradiction|].
    cbn [negb].
    unfold WsaGuard_destroy, record. cbn [calls mRefCount].
    split.
    + destruct (_ =? 0); reflexivity.
    + intros ->. destruct (_ =? 0); reflexivity.
Qed.

End SenderTrace.

Lemma SendMagicPacket_calls_by_code_witness :
  fst (SendMagicPacket no_winsock_network example_mac example_ip 9
         Net.initial)
  = Returned WinsockInitializationFailed
  /\ exists cleanup,
       (cleanup = [] \/ cleanup = [call_WSACleanup])
       /\ calls (snd (SendMagicPacket no_winsock_network example_mac
                        example_ip 9 Net.initial))
          = [call_WSAStartup] ++ cleanup.
Proof.
  split; [reflexivity|].
  destruct (SendMagicPacket_calls_by_code no_winsock_network example_mac
              example_ip 9 Net.initial)
    as (cleanup & new_calls & Hc & Hcalls & Hinit & _).
  exists cleanup. split; [exact Hc|].
  rewrite Hcalls, (Hinit eq_refl). reflexivity.
Defined.

Lemma SendMagicPacket_reference_count_witness :
  0 <= mRefCount Net.initial < ULLONG_MODULUS
  /\ fst (SendMagicPacket working_network example_mac example_ip 9
            Net.initial) <> Aborted
  /\ mRefCount (snd (SendMagicPacket working_network example_mac example_ip 9
                       Net.initial)) = 0
  /\ mRefCount (snd (SendMagicPacket no_winsock_network example_mac
                       example_ip 9 Net.initial))
     = 18446744073709551615.
Proof.
  assert (Hr : 0 <= mRefCount Net.initial < ULLONG_MODULUS)
    by (split; [reflexivity | reflexivity]).
  assert (Hworks : fst (SendMagicPacket working_network example_mac
                          example_ip 9 Net.initial) <> Aborted)
    by (vm_compute; intro; discriminate).
  assert (Hfails : fst (SendMagicPacket no_winsock_network example_mac
                          example_ip 9 Net.initial) <> Aborted)
    by (vm_compute; intro; discriminate).
  split; [exact Hr|].
  split; [exact Hworks|].
  split.
  - destruct (SendMagicPacket_reference_count working_network example_mac
                example_ip 9 Net.initial Hr) as [Hreturns _].
    exact (proj1 (proj1 (Hreturns Hworks) eq_refl)).
  - destruct (SendMagicPacket_reference_count no_winsock_network example_mac
                example_ip 9 Net.initial Hr) as [Hreturns _].
    refine (proj2 (proj2 (Hreturns Hfails) _) eq_refl).
    discriminate.
Defined.

(** ** The guard and the socket object on their own *)

Section Resources.

Context {build : BuildSetup}.

Lemma acquire_guards_state net n st :
  WSAStartup_result net = 0 ->
  0 <= mRefCount st -> mRefCount st + Z.of_nat n < ULLONG_MODULUS ->
  acquire_guards net n st
  = {| calls := calls st ++ repeat call_WSAStartup n;
       mRefCount := mRefCount st + Z.of_nat n |}.
Proof.
  intros Hok Hpos. unfold acquire_guards.
  induction n as [|n IH]; intros Hn.
  - cbn [repeat]. change (Nat.iter 0 ?f ?x) with x.
    rewrite app_nil_r. change (Z.of_nat 0) with 0. rewrite Z.add_0_r.
    now destruct st.
  - rewrite Nat.iter_succ, IH by lia.
    unfold WsaGuard_Initialize, record. cbn [calls mRefCount].
    rewrite Hok. cbn [Z.eqb negb snd]. f_equal.
    + rewrite <- app_assoc. f_equal.
      change [call_WSAStartup] with (repeat call_WSAStartup 1).
      rewrite <- repeat_app. f_equal. lia.
    + rewrite Z.mod_small by lia. lia.
Qed.

Lemma release_guards_state n :
  forall st,
    Z.of_nat n <= mRefCount st < ULLONG_MODULUS ->
    release_guards n st
    = {| calls := calls st
                  ++ (if (0 <? Z.of_nat n) && (mRefCount st =? Z.of_nat n)
                      then [call_WSACleanup] else []);
         mRefCount := mRefCount st - Z.of_nat n |}.
Proof.
  unfold release_guards.
  induction n as [|n IH]; intros st Hn.
  - change (Nat.iter 0 ?f ?x) with x. change (Z.of_nat 0) with 0.
    cbn [Z.ltb Z.compare andb].
    rewrite app_nil_r, Z.sub_0_r. now destruct st.
  - rewrite Nat.iter_succ, IH by lia.
    unfold WsaGuard_destroy, record. cbn [calls mRefCount].
    rewrite (Z.mod_small (mRefCount st - Z.of_nat n - 1)) by lia.
    destruct (Z.ltb_spec 0 (Z.of_nat (S n))); [|lia].
    destruct (Z.eqb_spec (mRefCount st) (Z.of_nat n)); [lia|].
    rewrite andb_false_r, app_nil_r. cbn [andb].
    destruct (Z.eqb_spec (mRefCount st - Z.of_nat n - 1) 0);
      destruct (Z.eqb_spec (mRefCount st) (Z.of_nat (S n))); try lia;
      cbn [calls mRefCount]; f_equal; try lia.
    now rewrite app_nil_r.
Qed.

(** X12.  Guards can be nested: when [n] guards, one at least, are
    initialised with success and later destroyed, starting with no guard
    alive, [WSAStartup] has been called [n] times, [WSACleanup] once, by
    the destructor of the last guard to go, and the count is zero
    again. *)
Theorem WsaGuard_nested (net : Net.Environment) (n : nat) :
  WSAStartup_result net = 0 ->
  (0 < n)%nat -> Z.of_nat n < ULLONG_MODULUS ->
  release_guards n (acquire_guards net n Net.initial)
  = {| calls := repeat call_WSAStartup n ++ [call_WSACleanup];
       mRefCount := 0 |}
  /\ (forall k, (k < n)%nat ->
        calls (release_guards k (acquire_guards net n Net.initial))
        = repeat call_WSAStartup n).
Proof.
  intros Hok Hn Hbound.
  rewrite acquire_guards_state by (cbn [mRefCount Net.initial]; lia).
  cbn [calls mRefCount Net.initial app]. rewrite Z.add_0_l.
  split.
  - rewrite release_guards_state by (cbn [mRefCount]; lia).
    cbn [calls mRefCount].
    destruct (Z.ltb_spec 0 (Z.of_nat n)); [|lia].
    rewrite Z.eqb_refl, Z.sub_diag. reflexivity.
  - intros k Hk.
    rewrite release_guards_state by (cbn [mRefCount]; lia).
    cbn [calls mRefCount].
    destruct (Z.eqb_spec (Z.of_nat n) (Z.of_nat k)); [lia|].
    now rewrite andb_false_r, app_nil_r.
Qed.

End Resources.

Lemma WsaGuard_nested_witness :
  release_guards 3 (acquire_guards working_network 3 Net.initial)
  = {| calls := [call_WSAStartup; call_WSAStartup; call_WSAStartup;
                 call_WSACleanup];
       mRefCount := 0 |}.
Proof.
  exact (proj1 (WsaGuard_nested working_network 3 eq_refl
                  ltac:(lia) ltac:(reflexivity))).
Defined.

Section Resources2.

Context {build : BuildSetup}.

Lemma state_eta st calls' :
  calls' = calls st -> {| calls := calls'; mRefCount := mRefCount st |} = st.
Proof. intros ->. now destruct st. Qed.

Lemma Socket_Close_eq m st :
  Socket_Close m st
  = (INVALID_SOCKET,
     {| calls := calls st ++ closing m; mRefCount := mRefCount st |}).
Proof.
  unfold Socket_Close, closing, record.
  destruct (Z.eqb_spec m INVALID_SOCKET) as [->|_]; [|reflexivity].
  f_equal. symmetry. apply state_eta. apply app_nil_r.
Qed.

Lemma last_cons_default {A} (x : A) l d : List.last (x :: l) d = List.last l x.
Proof.
  revert x d. induction l as [|y l IH]; intros x d; [reflexivity|].
  change (List.last (x :: y :: l) d) with (List.last (y :: l) d).
  rewrite IH. symmetry. apply IH.
Qed.

Lemma Socket_Set_all_eq handles :
  forall m st,
    Socket_Set_all handles m st
    = (List.last handles m,
       {| calls := calls st ++ flat_map closing (removelast (m :: handles));
          mRefCount := mRefCount st |}).
Proof.
  unfold Socket_Set_all.
  induction handles as [|h handles IH]; intros m st.
  - cbn [fold_left List.last removelast flat_map]. f_equal. symmetry.
    apply state_eta. apply app_nil_r.
  - cbn [fold_left fst snd]. unfold Socket_Set at 2.
    rewrite Socket_Close_eq, IH. cbn [calls mRefCount]. f_equal.
    + symmetry. apply last_cons_default.
    + f_equal.
      change (removelast (m :: h :: handles))
        with (m :: removelast (h :: handles)).
      cbn [flat_map]. now rewrite <- app_assoc.
Qed.

Lemma closing_valid_handles handles :
  List.Forall (fun h => h <> INVALID_SOCKET) handles ->
  flat_map closing handles = map call_closesocket handles.
Proof.
  induction 1 as [|h handles Hh _ IH]; [reflexivity|].
  cbn [flat_map map]. rewrite IH. unfold closing.
  now destruct (Z.eqb_spec h INVALID_SOCKET).
Qed.

(** X13.  A [Socket] object closes every handle it was given, once, in
    the order it received them: after any sequence of [Set] with valid
    handles on an object constructed empty, the handles given before the
    last one have been closed and the object holds the last one; its
    destructor closes that one; each [Set] satisfies its assertion. *)
Theorem Socket_closes_each_handle_once
    (handles : list Net.SOCKET) (st : Net.State) :
  List.Forall (fun h => h <> INVALID_SOCKET) handles ->
  let object := Socket_Set_all handles INVALID_SOCKET st in
  fst object = List.last handles INVALID_SOCKET
  /\ calls (snd object)
     = calls st ++ map call_closesocket (removelast handles)
  /\ calls (Socket_destroy (fst object) (snd object))
     = calls st ++ map call_closesocket handles
  /\ forallb Socket_Set_asserts handles = true.
Proof.
  intros Hvalid object. subst object. rewrite Socket_Set_all_eq.
  cbn [fst snd calls].
  assert (Hfront : flat_map closing (removelast (INVALID_SOCKET :: handles))
                   = map call_closesocket (removelast handles)).
  { destruct handles as [|h handles]; [reflexivity|].
    change (removelast (INVALID_SOCKET :: h :: handles))
      with (INVALID_SOCKET :: removelast (h :: handles)).
    cbn [flat_map]. unfold closing at 1. rewrite Z.eqb_refl. cbn [app].
    apply closing_valid_handles.
    apply List.Forall_forall. intros x Hx.
    apply (proj1 (List.Forall_forall _ _) Hvalid).
    destruct (exists_last (l := h :: handles) ltac:(discriminate))
      as (front & z & Heq).
    rewrite Heq in *. rewrite removelast_last in Hx.
    apply in_or_app. now left. }
  rewrite Hfront.
  split; [reflexivity|]. split; [reflexivity|]. split.
  - unfold Socket_destroy. rewrite Socket_Close_eq. cbn [snd calls].
    rewrite <- app_assoc. f_equal.
    destruct handles as [|h handles]; [reflexivity|].
    destruct (exists_last (l := h :: handles) ltac:(discriminate))
      as (front & z & Heq).
    rewrite Heq in *. rewrite removelast_last, last_last, map_app.
    f_equal. unfold closing.
    apply List.Forall_app in Hvalid as [_ Hz]. inversion_clear Hz.
    now destruct (Z.eqb_spec z INVALID_SOCKET).
  - apply forallb_forall. intros h Hin.
    unfold Socket_Set_asserts.
    pose proof (proj1 (List.Forall_forall _ _) Hvalid h Hin) as Hh.
    now destruct (Z.eqb_spec h INVALID_SOCKET).
Qed.

End Resources2.

Lemma Socket_closes_each_handle_once_witness :
  calls (Socket_destroy
           (fst (Socket_Set_all [256; 260] INVALID_SOCKET Net.initial))
           (snd (Socket_Set_all [256; 260] INVALID_SOCKET Net.initial)))
  = [call_closesocket 256; call_closesocket 260].
Proof.
  refine (proj1 (proj2 (proj2
    (Socket_closes_each_handle_once [256; 260] Net.initial _)))).
  repeat constructor; discriminate.
Defined.

(* ================================================================== *)
(** * Further properties of the packet and of the parser *)
(* ================================================================== *)

Section PacketAndCase.

Context {build : BuildSetup}.

(** X14.  [CreateMagicPacket] writes every one of the 102 bytes: whatever
    the packet array held before, the result is the header followed by
    the sixteen copies of the address, so building twice gives the same
    packet; and the address can be read back from the packet, so two
    addresses with the same packet are the same address. *)
Theorem CreateMagicPacket_overwrites_everything
    (macBytes : MacAddress) (packet : MagicPacket) :
  length macBytes = 6%nat -> length packet = 102%nat ->
  CreateMagicPacket macBytes packet = magic_layout macBytes
  /\ CreateMagicPacket macBytes (CreateMagicPacket macBytes packet)
     = CreateMagicPacket macBytes packet
  /\ firstn 6 (skipn 6 (CreateMagicPacket macBytes packet)) = macBytes
  /\ (forall macBytes' packet',
        length macBytes' = 6%nat -> length packet' = 102%nat ->
        CreateMagicPacket macBytes' packet' = CreateMagicPacket macBytes packet ->
        macBytes' = macBytes).
Proof.
  intros Hm Hp.
  assert (Hlayout : forall m p, length m = 6%nat -> length p = 102%nat ->
                               CreateMagicPacket m p = magic_layout m).
  { clear. intros m p Hm Hp.
    do 7 (destruct m as [|? m]; try discriminate).
    do 103 (destruct p as [|? p]; try discriminate).
    reflexivity. }
  assert (Hback : forall m, length m = 6%nat ->
                            firstn 6 (skipn 6 (magic_layout m)) = m).
  { clear. intros m Hm.
    do 7 (destruct m as [|? m]; try discriminate). reflexivity. }
  assert (Hlen : forall m, length m = 6%nat -> length (magic_layout m) = 102%nat).
  { clear. intros m Hm.
    do 7 (destruct m as [|? m]; try discriminate). reflexivity. }
  rewrite (Hlayout _ _ Hm Hp).
  repeat apply conj.
  - reflexivity.
  - apply Hlayout; [assumption | now apply Hlen].
  - now apply Hback.
  - intros m' p' Hm' Hp' Heq. rewrite (Hlayout _ _ Hm' Hp') in Heq.
    rewrite <- (Hback _ Hm'), <- (Hback _ Hm). now rewrite Heq.
Qed.

End PacketAndCase.

Lemma CreateMagicPacket_overwrites_everything_witness :
  CreateMagicPacket [1; 2; 3; 4; 5; 6] (repeat 0xAA 102)
  = magic_layout [1; 2; 3; 4; 5; 6].
Proof.
  exact (proj1 (CreateMagicPacket_overwrites_everything
                  [1; 2; 3; 4; 5; 6] (repeat 0xAA 102) eq_refl eq_refl)).
Defined.

Section PacketAndCase2.

Context {build : BuildSetup}.

Lemma hex_case_facts c :
  hex_class c = true ->
  hex_class (towupper c) = true /\ hex_digit (towupper c) = hex_digit c.
Proof.
  intros Hc. unfold hex_class in Hc.
  apply existsb_exists in Hc as (d & Hin & Heq).
  apply Z.eqb_eq in Heq. subst d.
  assert (Hall : forallb hex_case_check (L "0123456789ABCDEFabcdef") = true)
    by (vm_compute; reflexivity).
  pose proof (proj1 (forallb_forall _ _) Hall c Hin) as H.
  unfold hex_case_check in H. apply andb_true_iff in H as [H1 H2].
  apply Z.eqb_eq in H2. auto.
Qed.

(** X15.  [ParseMacAddress] does not look at the case of the
    hexadecimal digits: on two strings of the format that differ only in
    the case of their letters it returns, in every build, the same six
    bytes, and both strings pass [IsValidMacAddress]. *)
Theorem ParseMacAddress_ignores_case (s s' : wstring) (macBytes : MacAddress) :
  mac_regex s = true -> mac_regex s' = true ->
  map towupper s = map towupper s' ->
  length macBytes = 6%nat ->
  (exists bytes,
      ParseMacAddress s macBytes = Returned bytes
      /\ ParseMacAddress s' macBytes = Returned bytes)
  /\ IsValidMacAddress s = Success /\ IsValidMacAddress s' = Success.
Proof.
  intros Hs Hs' Hcase Hlen.
  split; [|split; now apply IsValidMacAddress_accepts_format].
  destruct (mac_regex_inv s Hs)
    as (a0 & a1 & b0 & b1 & c0 & c1 & d0 & d1 & e0 & e1 & f0 & f1 & -> & HF).
  destruct (mac_regex_inv s' Hs')
    as (a0' & a1' & b0' & b1' & c0' & c1' & d0' & d1' & e0' & e1' & f0' & f1'
        & -> & HF').
  destruct (ParseMacAddress_mac_text _ _ _ _ _ _ _ _ _ _ _ _ HF macBytes Hlen)
    as [_ ->].
  destruct (ParseMacAddress_mac_text _ _ _ _ _ _ _ _ _ _ _ _ HF' macBytes Hlen)
    as [_ ->].
  eexists. split; [reflexivity|]. f_equal.
  unfold mac_text in Hcase. cbn [map] in Hcase.
  injection Hcase as U0 U1 U2 U3 U4 U5 U6 U7 U8 U9 U10 U11.
  forall_facts HF. forall_facts HF'.
  repeat match goal with
         | H : hex_class ?c = true |- _ =>
             rewrite <- (proj2 (hex_case_facts c H)); clear H
         end.
  now rewrite U0, U1, U2, U3, U4, U5, U6, U7, U8, U9, U10, U11.
Qed.

End PacketAndCase2.

Lemma ParseMacAddress_ignores_case_witness :
  exists bytes,
    ParseMacAddress (L "a0-36-bc-bb-eb-cc") MacAddress_zero = Returned bytes
    /\ ParseMacAddress example_mac MacAddress_zero = Returned bytes.
Proof.
  exact (proj1 (ParseMacAddress_ignores_case (L "a0-36-bc-bb-eb-cc")
                  example_mac MacAddress_zero eq_refl eq_refl eq_refl eq_refl)).
Defined.

Section PacketAndCase3.

Context {build : BuildSetup}.

(** X16.  The messages of [WolErrorCodeToString] tell the codes apart:
    two different codes never have the same message; and every message
    ends with a line feed. *)
Theorem WolErrorCodeToString_distinct :
  (forall a b : WolErrorCode,
      WolErrorCodeToString a = WolErrorCodeToString b -> a = b)
  /\ (forall a : WolErrorCode,
        List.last (WolErrorCodeToString a) 0 = LF).
Proof.
  split.
  - intros a b H. destruct a, b; try reflexivity;
      vm_compute in H; discriminate H.
  - intros a. destruct a; vm_compute; reflexivity.
Qed.

End PacketAndCase3.

Lemma WolErrorCodeToString_distinct_witness :
  WolErrorCodeToString InvalidPort = WolErrorCodeToString InvalidPort
  /\ InvalidPort = InvalidPort.
Proof.
  split; [reflexivity|].
  exact (proj1 WolErrorCodeToString_distinct InvalidPort InvalidPort eq_refl).
Defined.
(* ================================================================== *)
(** * Further properties of [main] *)
(* ================================================================== *)

Lemma to_underlying_inj a b : to_underlying a = to_underlying b -> a = b.
Proof. destruct a, b; cbn; intros H; try reflexivity; discriminate H. Qed.

Section MainEnds.

Context {build : BuildSetup}.

Lemma main_unfold sys net stdin :
  let load := LoadFromIni sys WolConfig.default in
  let send :=
    SendMagicPacket net (GetMacAddress (snd load)) (GetBroadcastIp (snd load))
      (GetPort (snd load)) Net.initial in
  main sys net stdin
  = if decide (fst load <> Success) then
      (Exits (to_underlying (fst load)), Net.initial)
    else
      match fst send with
      | Aborted => (AssertionFailed, snd send)
      | Returned code =>
          if _getws_s stdin 10 then (Exits (to_underlying code), snd send)
          else (InvalidParameter, snd send)
      end.
Proof.
  intros load send. subst send load. unfold main.
  destruct (LoadFromIni sys WolConfig.default) as [code cfg]. cbn [fst snd].
  destruct (decide (code <> Success)); [reflexivity|].
  destruct (SendMagicPacket net _ _ _ Net.initial) as [[c|] st]; reflexivity.
Qed.

Lemma SendMagicPacket_codes net mac ip port st code :
  fst (SendMagicPacket net mac ip port st) = Returned code ->
  In code
     [Success; WinsockInitializationFailed; SocketCreationFailed;
      BroadcastSetupFailed; PacketSendFailed].
Proof.
  destruct (SendMagicPacket_ends net mac ip port st)
    as [(-> & _) | (-> & _)]; [discriminate|].
  intros H. injection H as <-. apply send_code_codes.
Qed.

Lemma SendMagicPacket_calls_nonempty net mac ip port st code :
  fst (SendMagicPacket net mac ip port st) = Returned code ->
  calls (snd (SendMagicPacket net mac ip port st)) <> [].
Proof.
  rewrite SendMagicPacket_outcome.
  destruct (negb (assert _)); cbn [fst snd]; [discriminate|].
  destruct (reaches_setup net && _); cbn [fst snd]; [discriminate|].
  intros _.
  match goal with
  | |- context [WsaGuard_destroy ?g] =>
      destruct (WsaGuard_destroy_calls g) as (cleanup & _ & -> & _)
  end.
  cbn [calls]. unfold send_calls.
  destruct (negb _); [destruct (calls st); discriminate|].
  destruct (_ =? _); destruct (calls st); discriminate.
Qed.

(** X17.  How the process ends.  When [LoadFromIni] fails [main]
    returns its code at once, in every build and whatever waits on the
    standard input.  When the configuration is loaded, the process is
    aborted if an assertion stops [SendMagicPacket]; if
    [SendMagicPacket] returns, [main] waits for a line and returns the
    code, unless the line has ten characters or more: then [_getws_s]
    invokes the invalid parameter handler.  When [main] returns, its
    exit code tells how far the program got: 0 exactly when the
    configuration was loaded and [SendMagicPacket] returned [Success];
    between 1 and 10, or 15, exactly when [LoadFromIni] failed, which
    is also exactly when no WinSock call was made; between 11 and 14
    exactly when the configuration was loaded and [SendMagicPacket]
    returned an error. *)
Theorem main_exit_code
    (sys : WolConfig.Environment) (net : Net.Environment)
    (stdin : option wstring) :
  let load := LoadFromIni sys WolConfig.default in
  let send :=
    SendMagicPacket net (GetMacAddress (snd load)) (GetBroadcastIp (snd load))
      (GetPort (snd load)) Net.initial in
  let ending := fst (main sys net stdin) in
  (fst load <> Success ->
   ending = Exits (to_underlying (fst load))
   /\ calls (snd (main sys net stdin)) = [])
  /\ (ending = AssertionFailed <-> fst load = Success /\ fst send = Aborted)
  /\ (ending = InvalidParameter
      <-> fst load = Success /\ fst send <> Aborted
          /\ _getws_s stdin 10 = false)
  /\ (forall exit_code,
        ending = Exits exit_code ->
        (exit_code = 0
         <-> fst load = Success /\ fst send = Returned Success)
        /\ (1 <= exit_code <= 10 \/ exit_code = 15 <-> fst load <> Success)
        /\ (11 <= exit_code <= 14
            <-> fst load = Success
                /\ exists code, fst send = Returned code /\ code <> Success)
        /\ (fst load <> Success <-> calls (snd (main sys net stdin)) = [])
        /\ (fst load = Success -> fst send = Returned (send_code net
                                     (GetBroadcastIp (snd load)))
                                  /\ exit_code
                                     = to_underlying
                                         (send_code net
                                            (GetBroadcastIp (snd load))))).
Proof.
  intros load send ending. subst ending.
  rewrite main_unfold. fold load. fold send.
  pose proof (LoadFromIni_codes sys WolConfig.default) as Hload.
  fold load in Hload.
  destruct (decide (fst load <> Success)) as [Hfail|Hok]; cbn [fst snd].
  - cbn [In] in Hload.
    assert (Hrange : 1 <= to_underlying (fst load) <= 10
                     \/ to_underlying (fst load) = 15).
    { destruct Hload as [H|[H|[H|[H|[H|[H|[H|[H|[H|[H|[H|[]]]]]]]]]]]];
        rewrite <- H in *; cbn; try lia; congruence. }
    cbn [calls Net.initial].
    split; [auto|]. split; [split; [discriminate | tauto]|].
    split; [split; [discriminate | tauto]|].
    intros exit_code Hexit. injection Hexit as <-.
    repeat split; try tauto; try lia; try (intros [? _]; contradiction).
  - assert (Hsucc : fst load = Success)
      by (destruct (decide (fst load = Success)); tauto).
    split; [contradiction|].
    pose proof (SendMagicPacket_ends net (GetMacAddress (snd load))
                  (GetBroadcastIp (snd load)) (GetPort (snd load))
                  Net.initial) as Hends.
    pose proof (SendMagicPacket_calls_nonempty net (GetMacAddress (snd load))
                  (GetBroadcastIp (snd load)) (GetPort (snd load))
                  Net.initial) as Hcalls.
    pose proof (SendMagicPacket_codes net (GetMacAddress (snd load))
                  (GetBroadcastIp (snd load)) (GetPort (snd load))
                  Net.initial) as Hcodes.
    fold send in Hends, Hcalls, Hcodes.
    destruct (fst send) as [code|] eqn:Hsend.
    + specialize (Hcalls code eq_refl). specialize (Hcodes code eq_refl).
      assert (Hcode : code = send_code net (GetBroadcastIp (snd load))).
      { destruct Hends as [(H & _) | (H & _)]; congruence. }
      assert (Hs : (code = Success /\ to_underlying code = 0)
                   \/ (code <> Success /\ 11 <= to_underlying code <= 14)).
      { cbn [In] in Hcodes.
        destruct Hcodes as [H|[H|[H|[H|[H|[]]]]]]; rewrite <- H; cbn;
          [left | right | right | right | right];
          (split; [congruence || discriminate | lia]). }
      destruct (_getws_s stdin 10); cbn [fst snd].
      * split; [split; [discriminate | intros [_ ?]; discriminate]|].
        split; [split; [discriminate | intros (_ & _ & ?); discriminate]|].
        intros exit_code Hexit. injection Hexit as <-.
        split.
        { split; [intros H0 | intros [_ H0]; injection H0 as ->; reflexivity].
          split; [assumption|]. f_equal.
          destruct Hs as [[? _] | [_ ?]]; [assumption | lia]. }
        split; [split; [lia | contradiction]|].
        split.
        { split.
          - intros H1. split; [assumption|]. exists code.
            split; [reflexivity|]. destruct Hs as [[_ ?] | [? _]]; [lia | assumption].
          - intros (_ & code' & Hc' & Hne). injection Hc' as <-.
            destruct Hs as [[? _] | [_ ?]]; [contradiction | assumption]. }
        split; [split; [contradiction | intros; contradiction]|].
        intros _. now rewrite <- Hcode.
      * split; [split; [discriminate | intros [_ ?]; discriminate]|].
        split; [split; [intros _; repeat split; auto; discriminate
                       | reflexivity]|].
        intros exit_code Hexit. discriminate.
    + cbn [fst snd].
      split; [split; [auto | reflexivity]|].
      split; [split; [discriminate | intros (_ & ? & _); contradiction]|].
      intros exit_code Hexit. discriminate.
Qed.

End MainEnds.

Lemma main_exit_code_witness :
  fst (LoadFromIni machine_bad_port WolConfig.default) <> Success
  /\ fst (main machine_bad_port working_network ten_characters) = Exits 10
  /\ fst (main machine_scenario short_send_network enter_alone) = Exits 0
  /\ fst (main machine_scenario short_send_network ten_characters)
     = InvalidParameter.
Proof.
  assert (Hbad : fst (LoadFromIni machine_bad_port WolConfig.default)
                 <> Success) by (vm_compute; intro; discriminate).
  split; [exact Hbad|]. split; [|split].
  - destruct (main_exit_code machine_bad_port working_network ten_characters)
      as (Hfail & _).
    exact (proj1 (Hfail Hbad)).
  - reflexivity.
  - destruct (main_exit_code machine_scenario short_send_network
                ten_characters) as (_ & _ & Hinvalid & _).
    apply Hinvalid. vm_compute. repeat split; try reflexivity.
    intro; discriminate.
Defined.

Section MainSends.

Context {build : BuildSetup}.

Lemma send_calls_sendto net macBytes ip port cleanup sock buf len to :
  cleanup = [] \/ cleanup = [call_WSACleanup] ->
  In (call_sendto sock buf len to)
     (send_calls net macBytes ip port ++ cleanup) ->
  sock = socket_result net
  /\ buf = CreateMagicPacket macBytes MagicPacket_zero
  /\ len = 102%nat
  /\ sin_family to = AF_INET /\ sin_port to = htons port
  /\ inet_pton net (c_str (WideCharToMultiByte net ip)) = Some (sin_addr to)
  /\ WSAStartup_result net = 0.
Proof.
  intros Hc Hin. apply in_app_or in Hin as [Hin|Hin].
  2:{ destruct Hc as [-> | ->]; cbn [In] in Hin;
        [contradiction | destruct Hin as [H|[]]; discriminate]. }
  unfold send_calls, datagram in Hin.
  destruct (Z.eqb_spec (WSAStartup_result net) 0) as [Hok|_]; cbn [negb] in Hin.
  2:{ cbn [In] in Hin. destruct Hin as [H|[]]; discriminate. }
  destruct (socket_result net =? INVALID_SOCKET).
  { cbn [In] in Hin. destruct Hin as [H|[H|[]]]; discriminate. }
  destruct (_ && _); cbn [app In] in Hin.
  2:{ repeat (destruct Hin as [Hin|Hin]; [discriminate|]). contradiction. }
  destruct (inet_pton net (c_str (WideCharToMultiByte net ip))) as [addr|];
    cbn [app In] in Hin.
  2:{ repeat (destruct Hin as [Hin|Hin]; [discriminate|]). contradiction. }
  do 4 (destruct Hin as [Hin|Hin]; [discriminate|]).
  destruct Hin as [Hin|Hin].
  2:{ repeat (destruct Hin as [Hin|Hin]; [discriminate|]). contradiction. }
  injection Hin as <- <- <- <-. cbn [sin_family sin_port sin_addr].
  repeat split; auto.
Qed.

(** X18.  [main] never sends anything that was not validated, in any
    build and whatever waits on the standard input: every [sendto] among
    its calls carries the 102-byte packet built from the bytes that
    [ParseMacAddress] returned for the MAC address of the configuration,
    which passed [IsValidMacAddress], goes to the address converted from
    the broadcast address of the configuration, which passed
    [IsValidBroadcastIpAddress], and to the port of the configuration in
    network byte order, which lies between 1 and 65535. *)
Theorem main_sends_only_validated
    (sys : WolConfig.Environment) (net : Net.Environment)
    (stdin : option wstring)
    (sock : Net.SOCKET) (buf : MagicPacket) (len : nat) (to : sockaddr_in) :
  In (call_sendto sock buf len to) (calls (snd (main sys net stdin))) ->
  config_file_found sys
  /\ IsValidMacAddress (configured_mac sys) = Success
  /\ IsValidBroadcastIpAddress (configured_ip sys) = Success
  /\ (exists port,
        LoadFromIni_port (configured_port sys) = PortValue port
        /\ 1 <= port <= 65535 /\ sin_port to = htons port)
  /\ (exists macBytes,
        ParseMacAddress (configured_mac sys) MacAddress_zero
        = Returned macBytes
        /\ buf = CreateMagicPacket macBytes MagicPacket_zero)
  /\ len = 102%nat
  /\ sock = socket_result net
  /\ sin_family to = AF_INET
  /\ inet_pton net (c_str (WideCharToMultiByte net (configured_ip sys)))
     = Some (sin_addr to).
Proof.
  rewrite main_unfold.
  destruct (decide (fst (LoadFromIni sys WolConfig.default) <> Success))
    as [Hfail|Hok]; cbn [snd calls Net.initial In]; [contradiction|].
  assert (Hsucc : fst (LoadFromIni sys WolConfig.default) = Success)
    by (destruct (decide (fst (LoadFromIni sys WolConfig.default) = Success));
        tauto).
  destruct (LoadFromIni sys WolConfig.default) as [code cfg] eqn:Hload.
  cbn [fst snd] in *. subst code.
  destruct (LoadFromIni_Success_inv sys WolConfig.default cfg Hload)
    as (Hfound & port & Hport & Hrange & -> & Hm & Hi).
  unfold GetMacAddress, GetBroadcastIp, GetPort, loaded_config.
  cbn [mMacAddress mBroadcastIp mPort].
  assert (Hsnd : forall (c : Completion WolErrorCode) (st : Net.State),
            snd (match c with
                 | Aborted => (AssertionFailed, st)
                 | Returned code =>
                     if _getws_s stdin 10
                     then (Exits (to_underlying code), st)
                     else (InvalidParameter, st)
                 end) = st).
  { intros [code|] st; [destruct (_getws_s stdin 10)|]; reflexivity. }
  rewrite Hsnd. clear Hsnd.
  rewrite SendMagicPacket_outcome.
  pose proof (ParseMacAddress_outcome (configured_mac sys)) as Hparse.
  destruct (negb (assert (SendMagicPacket_asserts (configured_mac sys)
                            (configured_ip sys) port
                          && ParseMacAddress_asserts (configured_mac sys))))
    eqn:Hopen; cbn [snd calls Net.initial In]; [contradiction|].
  assert (Hreturns : ParseMacAddress (configured_mac sys) MacAddress_zero
                     = Returned (parsed_bytes (configured_mac sys))).
  { rewrite Hparse. unfold assert in *. destruct NDEBUG; [reflexivity|].
    cbn [orb] in *.
    destruct (ParseMacAddress_asserts (configured_mac sys)); [reflexivity|].
    now rewrite andb_false_r in Hopen. }
  destruct (reaches_setup net && _); cbn [snd calls app].
  { unfold setup_calls. cbn [In].
    intros [H|[H|[H|[H|[]]]]]; discriminate. }
  match goal with
  | |- context [WsaGuard_destroy ?g] =>
      destruct (WsaGuard_destroy_calls g) as (cleanup & Hc & -> & _)
  end.
  cbn [calls Net.initial app]. intros Hin.
  destruct (send_calls_sendto _ _ _ _ _ _ _ _ _ Hc Hin)
    as (-> & -> & -> & Hfam & Hp & Haddr & _).
  split; [assumption|]. split; [assumption|]. split; [assumption|].
  split; [exists port; auto|].
  split; [eexists; split; [exact Hreturns | reflexivity]|].
  repeat split; assumption.
Qed.

End MainSends.

Lemma main_sends_only_validated_witness :
  In (call_sendto 256 (magic_layout [0xA0; 0x36; 0xBC; 0xBB; 0xEB; 0xCC]) 102
        {| sin_family := AF_INET; sin_port := htons 9;
           sin_addr := 0xFF00A8C0 |})
     (calls (snd (main machine_scenario working_network enter_alone)))
  /\ IsValidMacAddress (configured_mac machine_scenario) = Success.
Proof.
  assert (Hin :
    In (call_sendto 256 (magic_layout [0xA0; 0x36; 0xBC; 0xBB; 0xEB; 0xCC])
          102
          {| sin_family := AF_INET; sin_port := htons 9;
             sin_addr := 0xFF00A8C0 |})
       (calls (snd (main machine_scenario working_network enter_alone))))
    by (vm_compute; tauto).
  split; [exact Hin|].
  exact (proj1 (proj2 (main_sends_only_validated _ _ _ _ _ _ _ Hin))).
Defined.

(** ** What the accepted addresses look like *)

Section AcceptedShape.

Context {build : BuildSetup}.

Lemma octet_shape o :
  IsValidateIpOctet o = Success ->
  (1 <= length o <= 3)%nat
  /\ forallb (fun c => iswdigit c || (c =? dot)) o = true.
Proof.
  intros Hok. apply IsValidateIpOctet_shape in Hok as (Hlen & Hdig & _).
  split; [assumption|].
  apply forallb_forall. intros c Hin.
  now rewrite (proj1 (forallb_forall _ _) Hdig c Hin).
Qed.

(** X19.  In every build, a broadcast address that passes
    [IsValidBroadcastIpAddress] has between 7 and 15 characters, exactly
    three of them dots and all the others digits for the [iswdigit] of
    the library; each of its characters of ASCII is a dot or one of the
    digits [0] to [9]: no sign, no white space, no letter. *)
Theorem IsValidBroadcastIpAddress_accepted_shape (s : wstring) :
  IsValidBroadcastIpAddress s = Success ->
  (7 <= length s <= 15)%nat
  /\ count_dots s = 3%nat
  /\ forallb (fun c => iswdigit c || (c =? dot)) s = true
  /\ (forall c, In c s -> ascii_unit c = true ->
        digit_class c = true \/ c = dot).
Proof.
  intros Hok. apply IsValidBroadcastIpAddress_Success in Hok as [Hlen Hall].
  assert (Hdots : count_dots s = 3%nat).
  { unfold split_on in Hlen. rewrite split_from_length in Hlen.
    unfold count_dots. lia. }
  pose proof (join_split_on s) as Hjoin.
  destruct (split_on dot s) as [|o1 [|o2 [|o3 [|o4 [|o5 rest]]]]];
    try discriminate.
  forall_facts Hall.
  repeat match goal with
         | H : IsValidateIpOctet _ = Success |- _ =>
             apply octet_shape in H;
             destruct H as [? ?]
         end.
  assert (Hclass : forallb (fun c => iswdigit c || (c =? dot)) s = true).
  { rewrite <- Hjoin; cbn [join].
    repeat (rewrite forallb_app; cbn [forallb]).
    repeat match goal with
           | H : forallb _ _ = true |- _ => rewrite H
           end.
    reflexivity. }
  split; [|split; [exact Hdots|split; [exact Hclass|]]].
  - rewrite <- Hjoin; cbn [join].
    rewrite !length_app. cbn [length]. rewrite !length_app. cbn [length].
    rewrite !length_app. cbn [length]. lia.
  - intros c Hin Hascii.
    pose proof (proj1 (forallb_forall _ _) Hclass c Hin) as Hc.
    cbv beta in Hc. apply orb_true_iff in Hc as [Hc|Hc].
    + left. now rewrite <- (iswdigit_ascii c Hascii).
    + right. now apply Z.eqb_eq.
Qed.

End AcceptedShape.

Lemma IsValidBroadcastIpAddress_accepted_shape_witness :
  IsValidBroadcastIpAddress example_ip = Success
  /\ (7 <= length example_ip <= 15)%nat.
Proof.
  split; [reflexivity|].
  exact (proj1 (IsValidBroadcastIpAddress_accepted_shape example_ip eq_refl)).
Defined.

(** ** [ParseMacAddress] on any string *)

Section AnyString.

Context {build : BuildSetup}.

Lemma scan_result fmt :
  forall input assigned,
    fst (scan fmt input assigned)
    = Z.of_nat (length (snd (scan fmt input assigned)))
    \/ (fst (scan fmt input assigned) = EOF
        /\ snd (scan fmt input assigned) = []).
Proof.
  assert (Hfail : forall assigned,
    fst (input_failure assigned)
    = Z.of_nat (length (snd (input_failure assigned)))
    \/ (fst (input_failure assigned) = EOF
        /\ snd (input_failure assigned) = [])).
  { intros [|v assigned]; cbn; auto. }
  induction fmt as [|d fmt IH]; intros input assigned; cbn [scan].
  - left. reflexivity.
  - destruct d as [|c].
    + destruct (snd (span iswspace input)) as [|x input1]; [apply Hfail|].
      destruct (scan_hex (x :: input1)) as [[v rest]|]; [apply IH|].
      left. reflexivity.
    + destruct input as [|x rest]; [apply Hfail|].
      destruct (x =? c); [apply IH|]. left. reflexivity.
Qed.

Lemma store_arguments_nth assigned :
  forall k tempValues i,
    (length assigned + k <= length tempValues)%nat ->
    nth i (store_arguments k assigned tempValues) 0
    = if (k <=? i)%nat && (i <? k + length assigned)%nat
      then nth (i - k) assigned 0
      else nth i tempValues 0.
Proof.
  induction assigned as [|v assigned IH]; intros k tempValues i Hlen;
    cbn [store_arguments length].
  - destruct (Nat.leb_spec k i); destruct (Nat.ltb_spec i (k + 0));
      cbn [andb]; try reflexivity; lia.
  - cbn [length] in Hlen.
    rewrite IH by (rewrite length_insert; lia).
    destruct (Nat.leb_spec (S k) i); destruct (Nat.ltb_spec i (S k + length assigned));
      destruct (Nat.leb_spec k i); destruct (Nat.ltb_spec i (k + S (length assigned)));
      cbn [andb]; try lia.
    + replace (i - k)%nat with (S (i - S k)) by lia. reflexivity.
    + rewrite !nth_lookup, list_lookup_insert_ne by lia. reflexivity.
    + assert (i = k) by lia. subst i.
      rewrite Nat.sub_diag. cbn [nth].
      rewrite nth_lookup, list_lookup_insert_eq by lia. reflexivity.
    + rewrite !nth_lookup, list_lookup_insert_ne by lia. reflexivity.
Qed.

Lemma scan_at_most fmt :
  forall input assigned,
    (length (snd (scan fmt input assigned))
     <= length assigned
        + length (List.filter (fun d => match d with ConvX => true | _ => false end)
                    fmt))%nat.
Proof.
  induction fmt as [|d fmt IH]; intros input assigned; cbn [scan].
  - cbn. lia.
  - destruct d as [|c]; cbn [List.filter].
    + destruct (snd (span iswspace input)) as [|x input1].
      { destruct assigned; cbn; lia. }
      destruct (scan_hex (x :: input1)) as [[v rest]|].
      * etransitivity; [apply IH|]. rewrite length_app. cbn [length]. lia.
      * cbn [snd length]. lia.
    + destruct input as [|x rest]; [destruct assigned; cbn; lia|].
      destruct (x =? c); [apply IH|]. cbn [snd]. lia.
Qed.

(** X20.  [ParseMacAddress] on any string.  It is stopped exactly when
    [NDEBUG] is not defined and an assertion is false: the string is
    empty, or [swscanf_s] did not assign six values.  [swscanf_s] never
    assigns more than six values and its result is their number, or
    [EOF] when there is none.  When [ParseMacAddress] returns, it has
    filled the six bytes whatever the array held before: every byte lies
    between 0 and 255 and does not depend on the previous contents, and
    the bytes for which [swscanf_s] assigned nothing are 0. *)
Theorem ParseMacAddress_on_any_string
    (s : wstring) (macBytes : MacAddress) :
  length macBytes = 6%nat ->
  let scanResult := fst (ParseMacAddress_scan s) in
  (ParseMacAddress s macBytes = Aborted
   <-> NDEBUG = false /\ ParseMacAddress_asserts s = false)
  /\ -1 <= scanResult <= 6
  /\ (forall parsed,
        ParseMacAddress s macBytes = Returned parsed ->
        length parsed = 6%nat
        /\ List.Forall (fun b => 0 <= b <= 255) parsed
        /\ ParseMacAddress s MacAddress_zero = Returned parsed
        /\ (forall i, (i < 6)%nat -> scanResult <= Z.of_nat i ->
              nth i parsed 0 = 0)).
Proof.
  intros Hlen scanResult. subst scanResult.
  unfold ParseMacAddress, ParseMacAddress_asserts, ParseMacAddress_scan,
    swscanf_s, assert.
  pose proof (scan_result ParseMacAddress_format (c_str s) []) as Hres.
  pose proof (scan_at_most ParseMacAddress_format (c_str s) []) as Hmost.
  destruct (scan ParseMacAddress_format (c_str s) []) as [r assigned].
  cbn [fst snd length ParseMacAddress_format List.filter Nat.add] in *.
  assert (Hrange : -1 <= r <= 6).
  { unfold EOF in Hres. destruct Hres as [-> | [-> _]]; lia. }
  split.
  { destruct NDEBUG; destruct (negb (length s =? 0)%nat);
      destruct (r =? 6); cbn [orb andb negb];
      split; try discriminate; try tauto; intros [? ?]; discriminate. }
  split; [exact Hrange|].
  intros parsed Hparsed.
  do 7 (destruct macBytes as [|? macBytes]; try discriminate).
  cbn [length seq fold_left MacAddress_zero repeat] in *.
  set (tv := store_arguments 0 assigned [0; 0; 0; 0; 0; 0]) in *.
  assert (Hnth : forall i, (i < 6)%nat -> nth i tv 0 = nth i assigned 0).
  { intros i Hi. subst tv.
    rewrite store_arguments_nth by (cbn [length]; lia).
    cbn [Nat.leb andb Nat.add].
    destruct (Nat.ltb_spec i (length assigned)).
    - now rewrite Nat.sub_0_r.
    - rewrite (nth_overflow assigned) by lia.
      do 6 (destruct i as [|i]; [reflexivity|]). lia. }
  assert (Hfill : forall a b c d e f : Z,
    <[5%nat := to_byte (nth 5 tv 0)]>
      (<[4%nat := to_byte (nth 4 tv 0)]>
        (<[3%nat := to_byte (nth 3 tv 0)]>
          (<[2%nat := to_byte (nth 2 tv 0)]>
            (<[1%nat := to_byte (nth 1 tv 0)]>
              (<[0%nat := to_byte (nth 0 tv 0)]> [a; b; c; d; e; f])))))
    = [to_byte (nth 0 tv 0); to_byte (nth 1 tv 0); to_byte (nth 2 tv 0);
       to_byte (nth 3 tv 0); to_byte (nth 4 tv 0); to_byte (nth 5 tv 0)])
    by reflexivity.
  rewrite !Hfill in *. clear Hfill.
  destruct (negb (NDEBUG || negb (length s =? 0)%nat)); [discriminate|].
  destruct (negb (NDEBUG || (r =? 6))); [discriminate|].
  injection Hparsed as <-.
  split; [reflexivity|]. split.
  { repeat constructor; unfold to_byte;
      try (apply Z.mod_pos_bound; lia);
      match goal with
      | |- ?x mod 256 <= 255 =>
          pose proof (Z.mod_pos_bound x 256 ltac:(lia)); lia
      end. }
  split; [reflexivity|].
  intros i Hi Hr.
  assert (Hzero : nth i tv 0 = 0).
  { rewrite (Hnth i Hi). apply nth_overflow.
    unfold EOF in Hres. destruct Hres as [-> | [_ ->]]; cbn [length]; lia. }
  do 6 (destruct i as [|i]; [rewrite Hzero; reflexivity|]). lia.
Qed.

End AnyString.

Lemma ParseMacAddress_on_any_string_witness :
  length [1; 2; 3; 4; 5; 6] = 6%nat
  /\ ParseMacAddress (build := windows_release) (L "A0-36")
       [1; 2; 3; 4; 5; 6]
     = Returned [0xA0; 0x36; 0; 0; 0; 0]
  /\ ParseMacAddress (build := windows_release) (L "A0-36") MacAddress_zero
     = Returned [0xA0; 0x36; 0; 0; 0; 0]
  /\ ParseMacAddress (build := windows_debug) (L "A0-36") [1; 2; 3; 4; 5; 6]
     = Aborted.
Proof.
  split; [reflexivity|]. split; [reflexivity|]. split.
  - exact (proj1 (proj2 (proj2
      (proj2 (proj2 (ParseMacAddress_on_any_string
                       (build := windows_release) (L "A0-36")
                       [1; 2; 3; 4; 5; 6] eq_refl))
         [0xA0; 0x36; 0; 0; 0; 0] eq_refl)))).
  - apply (proj1 (ParseMacAddress_on_any_string (build := windows_debug)
                    (L "A0-36") [1; 2; 3; 4; 5; 6] eq_refl)).
    split; reflexivity.
Defined.
